(** * hd-transition.c: transition lifecycle and screen-rotation state machine

    A shallow embedding of [src/util/hd-transition.c] of hildon-desktop.

    Numbers: [int] values are [Z], and the cast [(int)x] is the 32-bit
    truncation toward zero.  [float] and [double] values are the reals they
    denote.  [hd_transition_overshoot], the [float] field [angle] and the
    timer readings of the rotation machine are modelled with every store
    and every operation rounded to its C type (binary32 or binary64, to
    nearest, ties to even; each operation evaluated in the precision of
    its type), the C library's [sin] and [cos] being parameters; the
    geometry computed inside the frame callbacks is kept in exact real
    arithmetic.  Pointers are natural-number identifiers into explicit
    stores; a freed [HDEffectData] is an empty slot of the store, and
    touching it is a [Fault]. *)

From Stdlib Require Import Reals Lra Lia ZArith List Bool String Arith.
Import ListNotations.

Local Open Scope R_scope.

(** ** Numeric conventions *)

Definition INT_MIN : Z := (-2147483648)%Z.
Definition INT_MAX : Z := 2147483647%Z.

(** Truncation toward zero. *)
Definition truncate (x : R) : Z :=
  if Rle_dec 0 x then Zfloor x else Zceil x.

(** The C cast [(int)x] to the 32-bit [int].  A value whose truncation does
    not fit has no defined result in C; the model gives it what the x86
    conversion instruction leaves, [INT_MIN]. *)
Definition c_int (x : R) : Z :=
  let z := truncate x in
  if ((INT_MIN <=? z) && (z <=? INT_MAX))%Z then z else INT_MIN.

(** The conversion of a [double] to [guint], as [g_timeout_add] receives
    its interval: the truncation, taken modulo 2^32 as the 64-bit x86
    conversion does. *)
Definition c_guint (x : R) : Z := (truncate x mod 4294967296)%Z.

(** Conversion to [guint8], as done for [clutter_actor_set_opacity]. *)
Definition c_guint8 (z : Z) : Z := (z mod 256)%Z.

(** The literal [3.141592] used throughout the file instead of [M_PI]. *)
Definition pi_lit : R := 3141592 / 1000000.

(** ** Binary floating point

    A format is given by its precision and by the exponents of the finest
    and of the coarsest grid its finite values lie on.  Rounding is to the
    nearest value of the grid of the argument's binade, ties to the even
    multiple.  There are no infinities and no NaN: beyond the largest
    finite value the coarsest grid is used on. *)

Definition bpow (e : Z) : R := powerRZ 2 e.

Definition Znearest_even (t : R) : Z :=
  let f := Zfloor t in
  if Rlt_dec (t - IZR f) (1 / 2) then f
  else if Rlt_dec (1 / 2) (t - IZR f) then (f + 1)%Z
  else if Z.even f then f else (f + 1)%Z.

Record Format : Type := mkFormat {
  f_prec : Z;      (* bits of the significand *)
  f_emin : Z;      (* exponent of the finest grid (the subnormals') *)
  f_emax : Z }.    (* exponent of the coarsest grid *)

Definition binary32 : Format := mkFormat 24 (-149) 104.
Definition binary64 : Format := mkFormat 53 (-1074) 971.

(** The least grid exponent [g' >= g], at most [n] steps up, whose binade
    holds the size [a]. *)
Fixpoint grid_from (n : nat) (prec g : Z) (a : R) : Z :=
  match n with
  | O => g
  | S n' => if Rlt_dec a (bpow (g + prec)) then g
            else grid_from n' prec (g + 1) a
  end.

Definition grid (f : Format) (a : R) : Z :=
  grid_from (Z.to_nat (f_emax f - f_emin f)) (f_prec f) (f_emin f) a.

(** Rounding on the grid of exponent [g]. *)
Definition rnd_at (g : Z) (x : R) : R :=
  IZR (Znearest_even (x * bpow (- g))) * bpow g.

Definition rnd (f : Format) (x : R) : R := rnd_at (grid f (Rabs x)) x.

(** A store to a [float], and the result of a [double] operation. *)
Definition fl : R -> R := rnd binary32.
Definition db : R -> R := rnd binary64.

(** The C library's [sin] and [cos] on [double]. *)
Record Libm : Type := mkLibm {
  m_sin : R -> R;
  m_cos : R -> R }.

(** What is asked of the library: [cos 0.0] is [1.0], results lie in
    [-1, 1], and [sin] is within 2^-30 of the real sine. *)
Record libm_ok (L : Libm) : Prop := mk_libm_ok {
  cos_zero : m_cos L 0 = 1;
  sin_range : forall y, -1 <= m_sin L y <= 1;
  cos_range : forall y, -1 <= m_cos L y <= 1;
  sin_close : forall y, Rabs (m_sin L y - sin y) <= / 1073741824 }.

(** A library that returns the [double] nearest to the real value. *)
Definition nearest_libm : Libm :=
  mkLibm (fun y => db (sin y)) (fun y => db (cos y)).

(** ** Easing functions *)

Module Easing.

(** [hd_transition_overshoot]: no range guard.  [offset] is an [int];
    [amt], [smooth_ramp] and [converge] are [float] variables, so each
    assignment rounds to binary32; the literals [3.141592] and [0.675]
    and the operations that involve them or a library result are
    [double]; [x-offset] and [1-amt], [1-converge] are [float]
    operations; the returned [double] sum is converted to [float]. *)
Definition hd_transition_overshoot (L : Libm) (x : R) : R :=
  let offset := c_int x in
  let amt := fl (x - fl (IZR offset)) in
  let smooth_ramp := fl (db (1 - m_cos L (db (amt * db pi_lit)))) in
  let converge := fl (m_sin L (db (db (0.5 * db pi_lit) * fl (1 - amt)))) in
  fl (db (db (IZR offset + db (db (smooth_ramp * db 0.675) * converge))
          + fl (1 - converge))).

(** The guard [amt>0 && amt<1]. *)
Definition in_unit_open (amt : R) : bool :=
  if Rlt_dec 0 amt then (if Rlt_dec amt 1 then true else false) else false.

Definition hd_transition_smooth_ramp (amt : R) : R :=
  if in_unit_open amt then (1 - cos (amt * pi_lit)) * 0.5 else amt.

Definition hd_transition_ease_in (amt : R) : R :=
  if in_unit_open amt then 1 - cos (amt * pi_lit * 0.5) else amt.

Definition hd_transition_ease_out (amt : R) : R :=
  if in_unit_open amt then cos ((1 - amt) * pi_lit * 0.5) else amt.

End Easing.
Export Easing.

(** ** Data model *)

Definition client_id := nat.
Definition actor_id := nat.
Definition data_id := nat.
Definition timeline_id := nat.
Definition source_id := nat.

(** [MBWMCompMgrClientEvent] (matchbox); the file only ever compares with
    the map and unmap events. *)
Inductive MBWMCompMgrClientEvent : Type :=
| MBWMCompMgrClientEventNone
| MBWMCompMgrClientEventMinimize
| MBWMCompMgrClientEventMap
| MBWMCompMgrClientEventUnmap.

Definition event_eqb (a b : MBWMCompMgrClientEvent) : bool :=
  match a, b with
  | MBWMCompMgrClientEventNone, MBWMCompMgrClientEventNone
  | MBWMCompMgrClientEventMinimize, MBWMCompMgrClientEventMinimize
  | MBWMCompMgrClientEventMap, MBWMCompMgrClientEventMap
  | MBWMCompMgrClientEventUnmap, MBWMCompMgrClientEventUnmap => true
  | _, _ => false
  end.

(** The anonymous enums of the [Orientation_change] struct. *)
Inductive Direction : Type := GOTO_LANDSCAPE | GOTO_PORTRAIT.

Inductive Phase : Type := IDLE | FADE_OUT | WAITING | FADE_IN.

Definition direction_eqb (a b : Direction) : bool :=
  match a, b with
  | GOTO_LANDSCAPE, GOTO_LANDSCAPE | GOTO_PORTRAIT, GOTO_PORTRAIT => true
  | _, _ => false
  end.

Definition phase_eqb (a b : Phase) : bool :=
  match a, b with
  | IDLE, IDLE | FADE_OUT, FADE_OUT | WAITING, WAITING | FADE_IN, FADE_IN => true
  | _, _ => false
  end.

(** [HDRMStateEnum] is declared in hd-render-manager.h; its values are
    kept as integers and the state predicates are parameters ([Env]). *)
Definition HDRMStateEnum := Z.

Record ClutterGeometry : Type := mkGeo {
  geo_x : Z; geo_y : Z; geo_width : Z; geo_height : Z }.

Inductive ClutterAxis : Type := CLUTTER_X_AXIS | CLUTTER_Y_AXIS | CLUTTER_Z_AXIS.

(** What the file reads and writes of a [ClutterActor].  Positions, sizes,
    anchor and depth are in [ClutterUnit]s (16.16 fixed point). *)
Record Actor : Type := mkActor {
  is_actor : bool;                 (* CLUTTER_IS_ACTOR *)
  is_container : bool;             (* CLUTTER_IS_CONTAINER *)
  a_visible : bool;                (* CLUTTER_ACTOR_IS_VISIBLE *)
  a_parent : option actor_id;
  a_x : Z; a_y : Z; a_width : Z; a_height : Z;
  a_anchor_x : Z; a_anchor_y : Z;
  a_opacity : Z;
  a_scale_x : R; a_scale_y : R;
  a_rotation : ClutterAxis * R * (Z * Z * Z);
  a_depth : Z;
  a_refs : Z }.

(** The three flag bits of [MBWMCompMgrClutterClient] the file touches. *)
Record ClientFlags : Type := mkFlags {
  DontUpdate : bool; EffectRunning : bool; DontShow : bool }.

Definition flags_or (f g : ClientFlags) : ClientFlags :=
  mkFlags (DontUpdate f || DontUpdate g) (EffectRunning f || EffectRunning g)
          (DontShow f || DontShow g).

Definition flags_clear (f g : ClientFlags) : ClientFlags :=
  mkFlags (DontUpdate f && negb (DontUpdate g))
          (EffectRunning f && negb (EffectRunning g))
          (DontShow f && negb (DontShow g)).

Definition MBWMCompMgrClutterClientDontUpdate := mkFlags true false false.
Definition MBWMCompMgrClutterClientEffectRunning := mkFlags false true false.
Definition MBWMCompMgrClutterClientDontShow := mkFlags false false true.

(** A window-manager client together with its compositing client
    ([c->cm_client], [HdCompMgrClient]) and, for applications, the [HdApp]
    fields the file looks at. *)
Record Client : Type := mkClient {
  has_cm_client : bool;
  c_type_is_app : bool;            (* MB_WM_CLIENT_CLIENT_TYPE (c) == MBWMClientTypeApp *)
  app_stack_index : Z;
  app_is_leader : bool;            (* app->leader == app *)
  c_actor : option actor_id;       (* mb_wm_comp_mgr_clutter_client_get_actor *)
  c_flags : ClientFlags;
  effect : option data_id;         (* HdCompMgrClient::effect *)
  c_refs : Z }.

(** The per-frame callbacks connected to a timeline's new-frame signal. *)
Inductive FrameHandler : Type :=
| OnPopup | OnFade | OnClose | OnNotification | OnSubview | OnRotateScreen.

Record HDEffectData : Type := mkData {
  event : MBWMCompMgrClientEvent;
  timeline : option timeline_id;
  cclient : option client_id;
  cclient_actor : option actor_id;
  cclient2 : option client_id;
  cclient2_actor : option actor_id;
  hmgr : option nat;
  geo : ClutterGeometry;
  angle : R;
  particles : list (option actor_id) }.

(** A [ClutterTimeline] with the handlers the file connects to it: the
    new-frame callback and its data, [hd_transition_completed] on
    completed, and optionally the rotation machine as a second completed
    callback. *)
Record Timeline : Type := mkTimeline {
  n_frames : Z;
  current_frame : Z;
  tl_running : bool;
  tl_refs : Z;
  tl_new_frame : option (FrameHandler * data_id);   (* "new-frame" *)
  tl_completed : option data_id;   (* "completed": hd_transition_completed *)
  tl_finished_fsm : bool }.        (* "completed": hd_transition_rotating_fsm *)

(** The static [Orientation_change] struct. *)
Record OrientationChange : Type := mkOC {
  wm : nat;
  direction : Direction;
  new_direction : Direction;
  phase : Phase;
  goto_state : HDRMStateEnum;
  timeout_id : source_id;          (* 0: none *)
  timer : option Z;                (* GTimer: when it was started *)
  effects_waiting : list data_id }.

(** transitions.ini as [g_key_file_get_integer]/[g_key_file_get_double]
    see it; [None] is a read error. *)
Record KeyFile : Type := mkKeyFile {
  kf_integer : string -> string -> option Z;
  kf_double : string -> string -> option R }.

(** Calls the file makes that leave a trace. *)
Inductive Call : Type :=
| CDebugFsm (p : Phase) (nd d : Direction)     (* the g_debug opening the machine *)
| CNewFrame (h : FrameHandler) (d : data_id) (frame : Z)
| CTimelineStart (t : timeline_id)
| CTimelineStop (t : timeline_id)
| CCompleted (d : data_id)                     (* hd_transition_completed entered *)
| CParticleUnref (d : data_id) (i : nat) (a : actor_id)
| CSetEffectRunning (b : bool)
| CChangeScreenOrientation (w : nat) (portrait : bool)
| CRenderManagerSetState (s : HDRMStateEnum)
| CRenderManagerRestack
| CPlaySound
| CWarning
| CCritical
| CDebug.

(** Constants, macros and library functions declared outside the file. *)
Record Env : Type := mkEnv {
  HDCM_UNMAP_PARTICLES : nat;
  HD_COMP_MGR_TOP_LEFT_BTN_WIDTH : Z;
  HD_COMP_MGR_LANDSCAPE_WIDTH : Z;
  HD_COMP_MGR_LANDSCAPE_HEIGHT : Z;
  HDRM_STATE_UNDEFINED : HDRMStateEnum;
  HDRM_STATE_TASK_NAV : HDRMStateEnum;
  STATE_IS_APP : HDRMStateEnum -> bool;
  STATE_IS_PORTRAIT : HDRMStateEnum -> bool;
  STATE_IS_PORTRAIT_CAPABLE : HDRMStateEnum -> bool;
  CLUTTER_FLOAT_TO_FIXED : R -> Z;
  CLUTTER_INT_TO_FIXED : Z -> Z;
  CLUTTER_FIXED_TO_INT : Z -> Z;
  frames_for_duration : Z -> Z;     (* clutter_timeline_new_for_duration *)
  stage : actor_id;                 (* clutter_stage_get_default () *)
  render_manager : actor_id;        (* hd_render_manager_get () *)
  front_group : actor_id;           (* hd_render_manager_get_front_group () *)
  libm : Libm }.                    (* sin and cos of the C library *)

(** The whole state the file works on. *)
Record World : Type := mkWorld {
  clients : client_id -> Client;
  actors : actor_id -> Actor;
  effects : data_id -> option HDEffectData;
  timelines : timeline_id -> option Timeline;
  next_actor : actor_id;
  next_data : data_id;
  next_timeline : timeline_id;
  next_source : source_id;
  effect_running : Z;               (* the counter behind hd_comp_mgr_set_effect_running *)
  Orientation_change : OrientationChange;
  stage_handlers : list data_id;    (* on_screen_size_changed connections *)
  sources : list (source_id * Z);   (* pending g_timeout sources and when they are due *)
  now : Z;                          (* the clock, in microseconds *)
  screen_width : Z;
  screen_height : Z;
  is_portrait : bool;               (* hd_comp_mgr_is_portrait () *)
  rm_state : HDRMStateEnum;         (* hd_render_manager_get_state () *)
  texture_available : bool;         (* hd_clutter_cache_get_texture finds the image *)
  transitions_ini : option KeyFile; (* hd_transition_get_keyfile () *)
  log : list Call }.

(** Results of effectful code. *)
Inductive result (A : Type) : Type :=
| Ok (a : A)
| OutOfFuel
| Fault.
Arguments Ok {A} a.
Arguments OutOfFuel {A}.
Arguments Fault {A}.

Definition bind {A B : Type} (m : result A) (k : A -> result B) : result B :=
  match m with
  | Ok a => k a
  | OutOfFuel => OutOfFuel
  | Fault => Fault
  end.

Notation "'do' x <- m ; k" := (bind m (fun x => k))
  (at level 10, x name, m at level 100, k at level 200).

Definition upd {A : Type} (f : nat -> A) (k : nat) (v : A) : nat -> A :=
  fun k' => if Nat.eqb k' k then v else f k'.

Fixpoint list_set {A : Type} (l : list A) (i : nat) (v : A) : list A :=
  match l, i with
  | [], _ => []
  | _ :: t, O => v :: t
  | h :: t, S j => h :: list_set t j v
  end.

Definition opt_eqb (a b : option nat) : bool :=
  match a, b with
  | Some x, Some y => Nat.eqb x y
  | None, None => true
  | _, _ => false
  end.

(** *** Field updates *)

Definition set_clients (f : client_id -> Client) (w : World) : World :=
  mkWorld f (actors w) (effects w) (timelines w) (next_actor w) (next_data w)
    (next_timeline w) (next_source w) (effect_running w) (Orientation_change w)
    (stage_handlers w) (sources w) (now w) (screen_width w) (screen_height w)
    (is_portrait w) (rm_state w) (texture_available w) (transitions_ini w) (log w).

Definition set_actors (f : actor_id -> Actor) (w : World) : World :=
  mkWorld (clients w) f (effects w) (timelines w) (next_actor w) (next_data w)
    (next_timeline w) (next_source w) (effect_running w) (Orientation_change w)
    (stage_handlers w) (sources w) (now w) (screen_width w) (screen_height w)
    (is_portrait w) (rm_state w) (texture_available w) (transitions_ini w) (log w).

Definition set_effects (f : data_id -> option HDEffectData) (w : World) : World :=
  mkWorld (clients w) (actors w) f (timelines w) (next_actor w) (next_data w)
    (next_timeline w) (next_source w) (effect_running w) (Orientation_change w)
    (stage_handlers w) (sources w) (now w) (screen_width w) (screen_height w)
    (is_portrait w) (rm_state w) (texture_available w) (transitions_ini w) (log w).

Definition set_timelines (f : timeline_id -> option Timeline) (w : World) : World :=
  mkWorld (clients w) (actors w) (effects w) f (next_actor w) (next_data w)
    (next_timeline w) (next_source w) (effect_running w) (Orientation_change w)
    (stage_handlers w) (sources w) (now w) (screen_width w) (screen_height w)
    (is_portrait w) (rm_state w) (texture_available w) (transitions_ini w) (log w).

Definition set_next_actor (n : actor_id) (w : World) : World :=
  mkWorld (clients w) (actors w) (effects w) (timelines w) n (next_data w)
    (next_timeline w) (next_source w) (effect_running w) (Orientation_change w)
    (stage_handlers w) (sources w) (now w) (screen_width w) (screen_height w)
    (is_portrait w) (rm_state w) (texture_available w) (transitions_ini w) (log w).

Definition set_next_data (n : data_id) (w : World) : World :=
  mkWorld (clients w) (actors w) (effects w) (timelines w) (next_actor w) n
    (next_timeline w) (next_source w) (effect_running w) (Orientation_change w)
    (stage_handlers w) (sources w) (now w) (screen_width w) (screen_height w)
    (is_portrait w) (rm_state w) (texture_available w) (transitions_ini w) (log w).

Definition set_next_timeline (n : timeline_id) (w : World) : World :=
  mkWorld (clients w) (actors w) (effects w) (timelines w) (next_actor w) (next_data w)
    n (next_source w) (effect_running w) (Orientation_change w)
    (stage_handlers w) (sources w) (now w) (screen_width w) (screen_height w)
    (is_portrait w) (rm_state w) (texture_available w) (transitions_ini w) (log w).

Definition set_next_source (n : source_id) (w : World) : World :=
  mkWorld (clients w) (actors w) (effects w) (timelines w) (next_actor w) (next_data w)
    (next_timeline w) n (effect_running w) (Orientation_change w)
    (stage_handlers w) (sources w) (now w) (screen_width w) (screen_height w)
    (is_portrait w) (rm_state w) (texture_available w) (transitions_ini w) (log w).

Definition set_effect_running_counter (z : Z) (w : World) : World :=
  mkWorld (clients w) (actors w) (effects w) (timelines w) (next_actor w) (next_data w)
    (next_timeline w) (next_source w) z (Orientation_change w)
    (stage_handlers w) (sources w) (now w) (screen_width w) (screen_height w)
    (is_portrait w) (rm_state w) (texture_available w) (transitions_ini w) (log w).

Definition set_oc (o : OrientationChange) (w : World) : World :=
  mkWorld (clients w) (actors w) (effects w) (timelines w) (next_actor w) (next_data w)
    (next_timeline w) (next_source w) (effect_running w) o
    (stage_handlers w) (sources w) (now w) (screen_width w) (screen_height w)
    (is_portrait w) (rm_state w) (texture_available w) (transitions_ini w) (log w).

Definition set_stage_handlers (l : list data_id) (w : World) : World :=
  mkWorld (clients w) (actors w) (effects w) (timelines w) (next_actor w) (next_data w)
    (next_timeline w) (next_source w) (effect_running w) (Orientation_change w)
    l (sources w) (now w) (screen_width w) (screen_height w)
    (is_portrait w) (rm_state w) (texture_available w) (transitions_ini w) (log w).

Definition set_sources (l : list (source_id * Z)) (w : World) : World :=
  mkWorld (clients w) (actors w) (effects w) (timelines w) (next_actor w) (next_data w)
    (next_timeline w) (next_source w) (effect_running w) (Orientation_change w)
    (stage_handlers w) l (now w) (screen_width w) (screen_height w)
    (is_portrait w) (rm_state w) (texture_available w) (transitions_ini w) (log w).

Definition set_log (l : list Call) (w : World) : World :=
  mkWorld (clients w) (actors w) (effects w) (timelines w) (next_actor w) (next_data w)
    (next_timeline w) (next_source w) (effect_running w) (Orientation_change w)
    (stage_handlers w) (sources w) (now w) (screen_width w) (screen_height w)
    (is_portrait w) (rm_state w) (texture_available w) (transitions_ini w) l.

(** The trace is kept newest first. *)
Definition emit (c : Call) (w : World) : World := set_log (c :: log w) w.

(** ** Actors: the Clutter calls the file makes *)

Definition Rltb (x y : R) : bool := if Rlt_dec x y then true else false.

Definition new_actor (container : bool) : Actor :=
  mkActor true container false None 0 0 0 0 0 0 255 1 1
          (CLUTTER_Z_AXIS, 0, (0, 0, 0)%Z) 0 1.

Definition Actors := actor_id -> Actor.

Definition with_visible (v : bool) (a : Actor) : Actor :=
  mkActor (is_actor a) (is_container a) v (a_parent a) (a_x a) (a_y a)
    (a_width a) (a_height a) (a_anchor_x a) (a_anchor_y a) (a_opacity a)
    (a_scale_x a) (a_scale_y a) (a_rotation a) (a_depth a) (a_refs a).

Definition with_parent (p : option actor_id) (a : Actor) : Actor :=
  mkActor (is_actor a) (is_container a) (a_visible a) p (a_x a) (a_y a)
    (a_width a) (a_height a) (a_anchor_x a) (a_anchor_y a) (a_opacity a)
    (a_scale_x a) (a_scale_y a) (a_rotation a) (a_depth a) (a_refs a).

Definition with_position (x y : Z) (a : Actor) : Actor :=
  mkActor (is_actor a) (is_container a) (a_visible a) (a_parent a) x y
    (a_width a) (a_height a) (a_anchor_x a) (a_anchor_y a) (a_opacity a)
    (a_scale_x a) (a_scale_y a) (a_rotation a) (a_depth a) (a_refs a).

Definition with_size (wd ht : Z) (a : Actor) : Actor :=
  mkActor (is_actor a) (is_container a) (a_visible a) (a_parent a) (a_x a) (a_y a)
    wd ht (a_anchor_x a) (a_anchor_y a) (a_opacity a)
    (a_scale_x a) (a_scale_y a) (a_rotation a) (a_depth a) (a_refs a).

Definition with_anchor (x y : Z) (a : Actor) : Actor :=
  mkActor (is_actor a) (is_container a) (a_visible a) (a_parent a) (a_x a) (a_y a)
    (a_width a) (a_height a) x y (a_opacity a)
    (a_scale_x a) (a_scale_y a) (a_rotation a) (a_depth a) (a_refs a).

Definition with_opacity (o : Z) (a : Actor) : Actor :=
  mkActor (is_actor a) (is_container a) (a_visible a) (a_parent a) (a_x a) (a_y a)
    (a_width a) (a_height a) (a_anchor_x a) (a_anchor_y a) o
    (a_scale_x a) (a_scale_y a) (a_rotation a) (a_depth a) (a_refs a).

Definition with_scale (sx sy : R) (a : Actor) : Actor :=
  mkActor (is_actor a) (is_container a) (a_visible a) (a_parent a) (a_x a) (a_y a)
    (a_width a) (a_height a) (a_anchor_x a) (a_anchor_y a) (a_opacity a)
    sx sy (a_rotation a) (a_depth a) (a_refs a).

Definition with_rotation (r : ClutterAxis * R * (Z * Z * Z)) (a : Actor) : Actor :=
  mkActor (is_actor a) (is_container a) (a_visible a) (a_parent a) (a_x a) (a_y a)
    (a_width a) (a_height a) (a_anchor_x a) (a_anchor_y a) (a_opacity a)
    (a_scale_x a) (a_scale_y a) r (a_depth a) (a_refs a).

Definition with_depth (d : Z) (a : Actor) : Actor :=
  mkActor (is_actor a) (is_container a) (a_visible a) (a_parent a) (a_x a) (a_y a)
    (a_width a) (a_height a) (a_anchor_x a) (a_anchor_y a) (a_opacity a)
    (a_scale_x a) (a_scale_y a) (a_rotation a) d (a_refs a).

Definition with_refs (n : Z) (a : Actor) : Actor :=
  mkActor (is_actor a) (is_container a) (a_visible a) (a_parent a) (a_x a) (a_y a)
    (a_width a) (a_height a) (a_anchor_x a) (a_anchor_y a) (a_opacity a)
    (a_scale_x a) (a_scale_y a) (a_rotation a) (a_depth a) n.

Definition on_actor (a : actor_id) (f : Actor -> Actor) (A : Actors) : Actors :=
  upd A a (f (A a)).

Definition clutter_actor_show (a : actor_id) := on_actor a (with_visible true).
Definition clutter_actor_hide (a : actor_id) := on_actor a (with_visible false).
Definition clutter_actor_set_opacity (a : actor_id) (o : Z) :=
  on_actor a (with_opacity (c_guint8 o)).
Definition clutter_actor_set_anchor_pointu (a : actor_id) (x y : Z) :=
  on_actor a (with_anchor x y).
Definition clutter_actor_set_scale (a : actor_id) (sx sy : R) :=
  on_actor a (with_scale sx sy).
Definition clutter_actor_set_positionu (a : actor_id) (x y : Z) :=
  on_actor a (with_position x y).
Definition clutter_actor_set_sizeu (a : actor_id) (wd ht : Z) :=
  on_actor a (with_size wd ht).
Definition clutter_actor_set_depthu (a : actor_id) (d : Z) :=
  on_actor a (with_depth d).
Definition clutter_actor_set_rotation (a : actor_id) (ax : ClutterAxis)
    (ang : R) (x y z : Z) :=
  on_actor a (with_rotation (ax, ang, (x, y, z))).
Definition clutter_container_add_actor (parent child : actor_id) :=
  on_actor child (with_parent (Some parent)).
Definition clutter_actor_reparent (child parent : actor_id) :=
  on_actor child (with_parent (Some parent)).
Definition clutter_container_remove_actor (child : actor_id) :=
  on_actor child (with_parent None).
Definition g_object_ref (a : actor_id) :=
  on_actor a (fun x => with_refs (a_refs x + 1)%Z x).
Definition g_object_unref (a : actor_id) :=
  on_actor a (fun x => with_refs (a_refs x - 1)%Z x).

(** [clutter_container_remove_actor (CLUTTER_CONTAINER (parent), a)] under
    the check [CLUTTER_IS_CONTAINER (parent)] on [a]'s parent. *)
Definition remove_from_container_parent (a : actor_id) (A : Actors) : Actors :=
  match a_parent (A a) with
  | Some p => if is_container (A p) then clutter_container_remove_actor a A else A
  | None => A
  end.

Section Transition.

Variable E : Env.

Definition clutter_actor_get_geometry (a : Actor) : ClutterGeometry :=
  mkGeo (CLUTTER_FIXED_TO_INT E (a_x a)) (CLUTTER_FIXED_TO_INT E (a_y a))
        (CLUTTER_FIXED_TO_INT E (a_width a)) (CLUTTER_FIXED_TO_INT E (a_height a)).

Definition clutter_actor_set_position (a : actor_id) (x y : Z) :=
  clutter_actor_set_positionu a (CLUTTER_INT_TO_FIXED E x) (CLUTTER_INT_TO_FIXED E y).
Definition clutter_actor_set_size (a : actor_id) (wd ht : Z) :=
  clutter_actor_set_sizeu a (CLUTTER_INT_TO_FIXED E wd) (CLUTTER_INT_TO_FIXED E ht).
Definition clutter_actor_set_anchor_point (a : actor_id) (x y : Z) :=
  clutter_actor_set_anchor_pointu a (CLUTTER_INT_TO_FIXED E x) (CLUTTER_INT_TO_FIXED E y).

(** [clutter_timeline_get_progress]: the share of the frames played. *)
Definition clutter_timeline_get_progress (tl : Timeline) : R :=
  IZR (current_frame tl) / IZR (n_frames tl).

Definition is_unmap (d : HDEffectData) : bool :=
  event_eqb (event d) MBWMCompMgrClientEventUnmap.
Definition is_map (d : HDEffectData) : bool :=
  event_eqb (event d) MBWMCompMgrClientEventMap.

(** *** The per-frame callbacks *)

Definition on_popup_timeline_new_frame (w : World) (tl : Timeline)
    (frame_num : Z) (data : HDEffectData) : Actors :=
  let A := actors w in
  match cclient_actor data with
  | None => A
  | Some actor =>
    if negb (is_actor (A actor)) then A else
    let filler := nth 0 (particles data) None in
    let A := match filler with
             | Some f => match a_parent (A f) with
                         | Some _ => clutter_container_remove_actor f A
                         | None => A
                         end
             | None => A
             end in
    let geo := clutter_actor_get_geometry (A actor) in
    let pop_top := (geo_y geo =? 0)%Z in
    let pop_bottom := (geo_y geo + geo_height geo =? screen_height w)%Z in
    let pop_top := if pop_top && pop_bottom then false else pop_top in
    let amt := clutter_timeline_get_progress tl in
    let amt := if is_unmap data then 1 - amt else amt in
    let overshoot := hd_transition_overshoot (libm E) amt in
    let status_low :=
      if pop_top then (- geo_height geo)%Z
      else if pop_bottom then (geo_y geo + geo_height geo)%Z
      else geo_y geo in
    let status_high := geo_y geo in
    let status_pos := IZR status_low * (1 - overshoot) + IZR status_high * overshoot in
    let A := clutter_actor_set_anchor_pointu actor 0
               (CLUTTER_INT_TO_FIXED E (geo_y geo) - CLUTTER_FLOAT_TO_FIXED E status_pos)%Z A in
    let A := clutter_actor_set_opacity actor (c_int (255 * amt)) A in
    match filler with
    | None => A
    | Some f =>
      if (Rltb (IZR status_high) status_pos && pop_top)
         || (Rltb status_pos (IZR status_high) && pop_bottom)
      then
        let A := if is_container (A actor)
                 then clutter_container_add_actor actor f A else A in
        let A := clutter_actor_show f A in
        if pop_top then
          let A := clutter_actor_set_positionu f (CLUTTER_INT_TO_FIXED E 0)
                     (CLUTTER_FLOAT_TO_FIXED E (IZR status_high - status_pos)) A in
          clutter_actor_set_sizeu f (CLUTTER_INT_TO_FIXED E (geo_width geo))
                     (CLUTTER_FLOAT_TO_FIXED E (status_pos - IZR status_high)) A
        else if pop_bottom then
          let A := clutter_actor_set_positionu f (CLUTTER_INT_TO_FIXED E 0)
                     (CLUTTER_INT_TO_FIXED E (geo_height geo)) A in
          clutter_actor_set_sizeu f (CLUTTER_INT_TO_FIXED E (geo_width geo))
                     (CLUTTER_FLOAT_TO_FIXED E (IZR status_high - status_pos)) A
        else A
      else A
    end
  end.

Definition on_fade_timeline_new_frame (w : World) (tl : Timeline)
    (frame_num : Z) (data : HDEffectData) : Actors :=
  let A := actors w in
  match cclient_actor data with
  | None => A
  | Some actor =>
    if negb (is_actor (A actor)) then A else
    let amt := clutter_timeline_get_progress tl in
    let amt := if is_unmap data then 1 - amt else amt in
    let amt := hd_transition_smooth_ramp amt in
    clutter_actor_set_opacity actor (c_int (255 * amt)) A
  end.

Definition clamp01 (x : R) : R :=
  let x := if Rltb x 0 then 0 else x in
  if Rltb 1 x then 1 else x.

(** One round of the sparkle loop of [on_close_timeline_new_frame]. *)
Definition close_particle (data : HDEffectData) (amt amtp : R)
    (particle_opacity particle_radius particle_scale : R)
    (centrex centrey : Z) (A : Actors) (i : nat) : Actors :=
  match nth i (particles data) None with
  | None => A
  | Some p =>
    if Rltb 0 amtp && Rltb amtp 1 then
      let ang := INR i * 15 + amtp * pi_lit / 2 in
      let radius := particle_radius * (INR i + 1) / INR (HDCM_UNMAP_PARTICLES E) in
      let opacity := particle_opacity * ((1 - cos (amt * 50 + INR i)) * 0.5) in
      let A := clutter_actor_show p A in
      let A := clutter_actor_set_opacity p (c_int (255 * opacity)) A in
      let A := clutter_actor_set_scale p particle_scale particle_scale A in
      clutter_actor_set_positionu p
        (CLUTTER_FLOAT_TO_FIXED E (IZR centrex + sin ang * radius))
        (CLUTTER_FLOAT_TO_FIXED E (IZR centrey + cos ang * radius)) A
    else clutter_actor_hide p A
  end.

Definition on_close_timeline_new_frame (w : World) (tl : Timeline)
    (frame_num : Z) (data : HDEffectData) : Actors :=
  let A := actors w in
  match cclient_actor data with
  | None => A
  | Some actor =>
    if negb (is_actor (A actor)) then A else
    let amt := clutter_timeline_get_progress tl in
    let amtx := clamp01 (1.6 - amt * 2.5) in
    let amty := clamp01 (1 - amt * 2.5) in
    let amtp := clamp01 (amt * 2 - 1) in
    let amtx := (1 - cos (amtx * pi_lit)) * 0.45 + 0.1 in
    let amty := (1 - cos (amty * pi_lit)) * 0.45 + 0.1 in
    let particle_opacity := sin (amtp * pi_lit) in
    let particle_radius := 8 + (1 - cos (amtp * pi_lit)) * 32 in
    let centrex := (geo_x (geo data) + Z.quot (geo_width (geo data)) 2)%Z in
    let centrey := (geo_y (geo data) + Z.quot (geo_height (geo data)) 2)%Z in
    let A := clutter_actor_set_scale actor amtx amty A in
    let A := clutter_actor_set_opacity actor (c_int (255 * (1 - amtp))) A in
    let particle_scale := 1 - amtp * 0.5 in
    fold_left
      (close_particle data amt amtp particle_opacity particle_radius
         particle_scale centrex centrey)
      (seq 0 (HDCM_UNMAP_PARTICLES E)) A
  end.

Definition on_notification_timeline_new_frame (w : World) (tl : Timeline)
    (frame_num : Z) (data : HDEffectData) : Actors :=
  let A := actors w in
  match cclient_actor data with
  | None => A
  | Some actor =>
    if negb (is_actor (A actor)) then A else
    let g := clutter_actor_get_geometry (A actor) in
    let width := geo_width g in
    let height := geo_height g in
    let now := IZR frame_num / IZR (n_frames tl) in
    if is_unmap data then
      let thr := 400 / (150 + 400) in
      if Rltb now thr then
        let t := hd_transition_smooth_ramp (now / thr) in
        let cx := c_int (IZR (8 - geo_x g) * t) in
        let cy := c_int (IZR (17 - geo_y g) * t) in
        let sx := (96 / IZR width - 1) * t + 1 in
        let sy := (23 / IZR height - 1) * t + 1 in
        let A := clutter_actor_set_scale actor sx sy A in
        let A := clutter_actor_set_anchor_point actor
                   (c_int (IZR (- cx) / sx)) (c_int (IZR (- cy) / sy)) A in
        clutter_actor_set_opacity actor (c_int (255 * ((0.75 - 1) * t + 1))) A
      else
        let t := (now - thr) / (1 - thr) in
        clutter_actor_set_opacity actor (c_int (255 * (-0.75 * t + 0.75))) A
    else
      let amt := hd_transition_smooth_ramp now in
      let scale := 1 + (1 - amt) * 0.5 in
      let ang := amt * pi_lit * 0.5 in
      let corner_x := (IZR (screen_width w) * 0.5
                       - IZR (HD_COMP_MGR_TOP_LEFT_BTN_WIDTH E)) * cos ang in
      let corner_y := (sin ang - 1) * IZR height in
      let A := clutter_actor_set_opacity actor (c_int (255 * amt)) A in
      let A := clutter_actor_set_scale actor scale scale A in
      clutter_actor_set_anchor_pointu actor
        (CLUTTER_FLOAT_TO_FIXED E (- corner_x / scale))
        (CLUTTER_FLOAT_TO_FIXED E (- corner_y / scale)) A
  end.

Definition on_subview_timeline_new_frame (w : World) (tl : Timeline)
    (frame_num : Z) (data : HDEffectData) : Actors :=
  let A := actors w in
  let subview_actor := match cclient data with
                       | Some _ => cclient_actor data | None => None end in
  let main_actor := match cclient2 data with
                    | Some _ => cclient2_actor data | None => None end in
  let n := n_frames tl in
  let amt := IZR frame_num / IZR n in
  let amt := hd_transition_smooth_ramp amt in
  let amt := if is_unmap data then 1 - amt else amt in
  let corner_x := (1 - amt) * IZR (screen_width w) in
  let A := match subview_actor with
           | Some s =>
             let A := clutter_actor_set_anchor_pointu s
                        (CLUTTER_FLOAT_TO_FIXED E (- corner_x))
                        (CLUTTER_FLOAT_TO_FIXED E 0) A in
             clutter_actor_show s A
           | None => A
           end in
  let A := match main_actor with
           | Some m =>
             let A := clutter_actor_set_anchor_pointu m
                        (CLUTTER_FLOAT_TO_FIXED E (- (corner_x - IZR (screen_width w))))
                        (CLUTTER_FLOAT_TO_FIXED E 0) A in
             clutter_actor_show m A
           | None => A
           end in
  if (frame_num =? n)%Z then
    let A := match subview_actor with
             | Some s =>
               let A := clutter_actor_set_anchor_pointu s 0 0 A in
               if is_unmap data then clutter_actor_hide s A else A
             | None => A
             end in
    match main_actor with
    | Some m =>
      let A := clutter_actor_set_anchor_pointu m 0 0 A in
      if is_map data then clutter_actor_hide m A else A
    | None => A
    end
  else A.

Definition on_rotate_screen_timeline_new_frame (w : World) (tl : Timeline)
    (frame_num : Z) (data : HDEffectData) : Actors :=
  let A := actors w in
  let n := n_frames tl in
  let amt := IZR frame_num / IZR n in
  let amt := amt * amt * amt in
  let amt := if is_unmap data then 1 - amt else amt in
  let dim_amt := amt * 4 - 3 in
  let dim_amt := if Rltb dim_amt 0 then 0 else dim_amt in
  let ang := angle data * amt in
  let actor := render_manager E in
  let A := clutter_actor_set_rotation actor
             (if is_portrait w then CLUTTER_Y_AXIS else CLUTTER_X_AXIS)
             (if (frame_num <? n)%Z then ang else 0)
             (Z.quot (screen_width w) 2) (Z.quot (screen_height w) 2) 0 A in
  let A := clutter_actor_set_depthu actor (- CLUTTER_FLOAT_TO_FIXED E (amt * 150))%Z A in
  match nth 0 (particles data) None with
  | Some p => clutter_actor_set_opacity p (c_int (dim_amt * 255)) A
  | None => A
  end.

Definition frame_callback (h : FrameHandler) :
    World -> Timeline -> Z -> HDEffectData -> Actors :=
  match h with
  | OnPopup => on_popup_timeline_new_frame
  | OnFade => on_fade_timeline_new_frame
  | OnClose => on_close_timeline_new_frame
  | OnNotification => on_notification_timeline_new_frame
  | OnSubview => on_subview_timeline_new_frame
  | OnRotateScreen => on_rotate_screen_timeline_new_frame
  end.

(** ** Stores, configuration and small collaborators *)

Definition deref_data (d : data_id) (w : World) : result HDEffectData :=
  match effects w d with Some x => Ok x | None => Fault end.

Definition deref_timeline (t : timeline_id) (w : World) : result Timeline :=
  match timelines w t with Some x => Ok x | None => Fault end.

Definition on_timeline (t : timeline_id) (f : Timeline -> Timeline) (w : World)
    : result World :=
  do tl <- deref_timeline t w;
  Ok (set_timelines (upd (timelines w) t (Some (f tl))) w).

Definition on_client (c : client_id) (f : Client -> Client) (w : World) : World :=
  set_clients (upd (clients w) c (f (clients w c))) w.

Definition on_actors (f : Actors -> Actors) (w : World) : World :=
  set_actors (f (actors w)) w.

Definition with_effect (e : option data_id) (c : Client) : Client :=
  mkClient (has_cm_client c) (c_type_is_app c) (app_stack_index c)
    (app_is_leader c) (c_actor c) (c_flags c) e (c_refs c).

Definition with_flags (f : ClientFlags) (c : Client) : Client :=
  mkClient (has_cm_client c) (c_type_is_app c) (app_stack_index c)
    (app_is_leader c) (c_actor c) f (effect c) (c_refs c).

Definition with_c_refs (n : Z) (c : Client) : Client :=
  mkClient (has_cm_client c) (c_type_is_app c) (app_stack_index c)
    (app_is_leader c) (c_actor c) (c_flags c) (effect c) n.

Definition set_client_effect (c : client_id) (e : option data_id) :=
  on_client c (with_effect e).
Definition mb_wm_comp_mgr_clutter_client_set_flags (c : client_id) (f : ClientFlags) :=
  on_client c (fun x => with_flags (flags_or (c_flags x) f) x).
Definition mb_wm_comp_mgr_clutter_client_unset_flags (c : client_id) (f : ClientFlags) :=
  on_client c (fun x => with_flags (flags_clear (c_flags x) f) x).
Definition mb_wm_object_ref (c : client_id) :=
  on_client c (fun x => with_c_refs (c_refs x + 1)%Z x).
Definition mb_wm_object_unref (c : client_id) :=
  on_client c (fun x => with_c_refs (c_refs x - 1)%Z x).

Definition DontUpdate_EffectRunning : ClientFlags :=
  flags_or MBWMCompMgrClutterClientDontUpdate MBWMCompMgrClutterClientEffectRunning.

Definition with_tl_running (b : bool) (t : Timeline) : Timeline :=
  mkTimeline (n_frames t) (current_frame t) b (tl_refs t) (tl_new_frame t)
    (tl_completed t) (tl_finished_fsm t).
Definition with_current_frame (k : Z) (t : Timeline) : Timeline :=
  mkTimeline (n_frames t) k (tl_running t) (tl_refs t) (tl_new_frame t)
    (tl_completed t) (tl_finished_fsm t).
Definition with_tl_refs (n : Z) (t : Timeline) : Timeline :=
  mkTimeline (n_frames t) (current_frame t) (tl_running t) n (tl_new_frame t)
    (tl_completed t) (tl_finished_fsm t).
Definition with_tl_new_frame (h : option (FrameHandler * data_id)) (t : Timeline) :=
  mkTimeline (n_frames t) (current_frame t) (tl_running t) (tl_refs t) h
    (tl_completed t) (tl_finished_fsm t).
Definition with_tl_completed (d : option data_id) (t : Timeline) :=
  mkTimeline (n_frames t) (current_frame t) (tl_running t) (tl_refs t)
    (tl_new_frame t) d (tl_finished_fsm t).
Definition with_tl_finished_fsm (b : bool) (t : Timeline) :=
  mkTimeline (n_frames t) (current_frame t) (tl_running t) (tl_refs t)
    (tl_new_frame t) (tl_completed t) b.

Definition with_particles (l : list (option actor_id)) (d : HDEffectData) :=
  mkData (event d) (timeline d) (cclient d) (cclient_actor d) (cclient2 d)
    (cclient2_actor d) (hmgr d) (geo d) (angle d) l.
Definition with_geo (g : ClutterGeometry) (d : HDEffectData) :=
  mkData (event d) (timeline d) (cclient d) (cclient_actor d) (cclient2 d)
    (cclient2_actor d) (hmgr d) g (angle d) (particles d).
Definition with_cclient (c : option client_id) (a : option actor_id) (d : HDEffectData) :=
  mkData (event d) (timeline d) c a (cclient2 d)
    (cclient2_actor d) (hmgr d) (geo d) (angle d) (particles d).
Definition with_cclient2 (c : option client_id) (a : option actor_id) (d : HDEffectData) :=
  mkData (event d) (timeline d) (cclient d) (cclient_actor d) c a
    (hmgr d) (geo d) (angle d) (particles d).

Definition store_data (d : data_id) (x : option HDEffectData) (w : World) : World :=
  set_effects (upd (effects w) d x) w.

(** [g_new0 (HDEffectData, 1)]: a fresh, zeroed record. *)
Definition g_new0_data : HDEffectData :=
  mkData MBWMCompMgrClientEventNone None None None None None None
         (mkGeo 0 0 0 0) 0 (repeat None (HDCM_UNMAP_PARTICLES E)).

Definition alloc_data (x : HDEffectData) (w : World) : data_id * World :=
  let d := next_data w in
  (d, set_next_data (S d) (store_data d (Some x) w)).

(** A new actor ([clutter_rectangle_new], a texture of the cache, the fake
    title bar): one reference, not shown, no parent. *)
Definition alloc_actor (container : bool) (w : World) : actor_id * World :=
  let a := next_actor w in
  (a, set_next_actor (S a) (on_actors (fun A => upd A a (new_actor container)) w)).

(** *** transitions.ini *)

Definition hd_transition_get_keyfile (w : World) : option KeyFile :=
  transitions_ini w.

Definition hd_transition_get_int (w : World) (transition key : string)
    (default_val : Z) : Z :=
  match hd_transition_get_keyfile w with
  | None => default_val
  | Some ini =>
    match kf_integer ini transition key with
    | Some value => value
    | None => default_val
    end
  end.

Definition hd_transition_get_double (w : World) (transition key : string)
    (default_val : R) : R :=
  match hd_transition_get_keyfile w with
  | None => default_val
  | Some ini =>
    match kf_double ini transition key with
    | Some value => value
    | None => default_val
    end
  end.

(** *** Timelines *)

Definition clutter_timeline_new_for_duration (msecs : Z) (w : World)
    : timeline_id * World :=
  let t := next_timeline w in
  (t, set_next_timeline (S t)
        (set_timelines
           (upd (timelines w) t
              (Some (mkTimeline (frames_for_duration E msecs) 0 false 1 None None false)))
           w)).

Definition hd_transition_timeline_new (transition : string)
    (ev : MBWMCompMgrClientEvent) (default_length : Z) (w : World)
    : timeline_id * World :=
  let key := if event_eqb ev MBWMCompMgrClientEventMap
             then "duration_in"%string else "duration_out"%string in
  clutter_timeline_new_for_duration
    (hd_transition_get_int w transition key default_length) w.

Definition timeline_ref (t : timeline_id) :=
  on_timeline t (fun x => with_tl_refs (tl_refs x + 1)%Z x).
Definition timeline_unref (t : timeline_id) :=
  on_timeline t (fun x => with_tl_refs (tl_refs x - 1)%Z x).

Definition connect_new_frame (t : timeline_id) (h : FrameHandler) (d : data_id) :=
  on_timeline t (with_tl_new_frame (Some (h, d))).
Definition connect_completed (t : timeline_id) (d : data_id) :=
  on_timeline t (with_tl_completed (Some d)).
Definition connect_finished_fsm (t : timeline_id) :=
  on_timeline t (with_tl_finished_fsm true).

Definition clutter_timeline_start (t : timeline_id) (w : World) : result World :=
  do w <- on_timeline t (with_tl_running true) w;
  Ok (emit (CTimelineStart t) w).

(** [clutter_timeline_stop]: pause and rewind. *)
Definition clutter_timeline_stop (t : timeline_id) (w : World) : result World :=
  do w <- on_timeline t (fun x => with_current_frame 0 (with_tl_running false x)) w;
  Ok (emit (CTimelineStop t) w).

(** A direct call of a frame callback, [on_..._new_frame (timeline, n, data)]. *)
Definition call_frame (h : FrameHandler) (t : timeline_id) (frame_num : Z)
    (d : data_id) (w : World) : result World :=
  do tl <- deref_timeline t w;
  do data <- deref_data d w;
  Ok (emit (CNewFrame h d frame_num)
        (set_actors (frame_callback h w tl frame_num data) w)).

(** Emission of new-frame on a timeline: the connected callback runs. *)
Definition emit_new_frame (t : timeline_id) (frame_num : Z) (w : World)
    : result World :=
  do tl <- deref_timeline t w;
  match tl_new_frame tl with
  | Some (h, d) => call_frame h t frame_num d w
  | None => Ok w
  end.

(** Modelled from the spec: [hd_comp_mgr_set_effect_running] lives in
    hd-comp-mgr.c; it keeps the global count of running effects, one up
    for [TRUE] and one down for [FALSE]. *)
Definition hd_comp_mgr_set_effect_running (mgr : nat) (b : bool) (w : World) : World :=
  emit (CSetEffectRunning b)
    (set_effect_running_counter
       (if b then effect_running w + 1 else effect_running w - 1)%Z w).

Definition hd_transition_play_sound (w : World) : World := emit CPlaySound w.

(** ** Teardown *)

(** One round of the particle loop of [hd_transition_completed]. *)
Definition release_particle (d : data_id) (w : World) (i : nat) : World :=
  match effects w d with
  | None => w
  | Some data =>
    match nth i (particles data) None with
    | None => w
    | Some p =>
      let w := on_actors (remove_from_container_parent p) w in
      let w := on_actors (g_object_unref p) w in
      let w := emit (CParticleUnref d i p) w in
      store_data d (Some (with_particles (list_set (particles data) i None) data)) w
    end
  end.

Definition release_client (c : client_id) (w : World) : World :=
  let w := set_client_effect c None w in
  let w := mb_wm_comp_mgr_clutter_client_unset_flags c DontUpdate_EffectRunning w in
  mb_wm_object_unref c w.

(** The first half of [hd_transition_completed]: both clients and their
    actors are let go. *)
Definition release_clients (data : HDEffectData) (w : World) : World :=
  let w := match cclient data with
           | Some c =>
             let w := release_client c w in
             if is_unmap data then
               match cclient_actor data with
               | Some a => on_actors (remove_from_container_parent a) w
               | None => w
               end
             else w
           | None => w
           end in
  let w := match cclient_actor data with
           | Some a => on_actors (g_object_unref a) w
           | None => w
           end in
  let w := match cclient2 data with
           | Some c => release_client c w
           | None => w
           end in
  match cclient2_actor data with
  | Some a => on_actors (g_object_unref a) w
  | None => w
  end.

Definition hd_transition_completed (tl : option timeline_id) (d : data_id)
    (w : World) : result World :=
  do data <- deref_data d w;
  let w := emit (CCompleted d) w in
  let w := release_clients data w in
  do w <- match tl with
          | Some t => timeline_unref t w
          | None => Ok w
          end;
  let w := match hmgr data with
           | Some m => hd_comp_mgr_set_effect_running m false w
           | None => w
           end in
  let w := fold_left (release_particle d) (seq 0 (HDCM_UNMAP_PARTICLES E)) w in
  let w := set_stage_handlers
             (filter (fun x => negb (Nat.eqb x d)) (stage_handlers w)) w in
  Ok (store_data d None w).

(** ** Starting transitions *)

Definition ref_opt_actor (a : option actor_id) (w : World) : World :=
  match a with
  | Some x => on_actors (g_object_ref x) w
  | None => w
  end.

Definition hd_transition_popup (mgr : nat) (c : client_id)
    (ev : MBWMCompMgrClientEvent) (w : World) : result World :=
  let cclient_ := c in
  match c_actor (clients w cclient_) with
  | None => Ok w
  | Some actor =>
    let geo_ := clutter_actor_get_geometry (actors w actor) in
    let w := mb_wm_object_ref cclient_ w in
    let w := on_actors (g_object_ref actor) w in
    let '(t, w) := hd_transition_timeline_new "popup" ev 250 w in
    do w <- timeline_ref t w;
    let data := mkData ev (Some t) (Some cclient_) (Some actor) None None
                  (Some mgr) geo_ 0 (repeat None (HDCM_UNMAP_PARTICLES E)) in
    let '(d, w) := alloc_data data w in
    do w <- connect_new_frame t OnPopup d w;
    do w <- connect_completed t d w;
    let w := mb_wm_comp_mgr_clutter_client_set_flags cclient_
               DontUpdate_EffectRunning w in
    let w := hd_comp_mgr_set_effect_running mgr true w in
    let '(rect, w) := alloc_actor false w in
    let w := on_actors (g_object_ref rect) w in
    let w := store_data d (Some (with_particles
                                   (list_set (particles data) 0 (Some rect)) data)) w in
    do w <- call_frame OnPopup t 0 d w;
    clutter_timeline_start t w
  end.

Definition hd_transition_fade (mgr : nat) (c : client_id)
    (ev : MBWMCompMgrClientEvent) (w : World) : result World :=
  let cclient_ := c in
  let w := mb_wm_object_ref cclient_ w in
  let actor := c_actor (clients w cclient_) in
  let w := ref_opt_actor actor w in
  let '(t, w) := hd_transition_timeline_new "fade" ev 250 w in
  do w <- timeline_ref t w;
  let data := mkData ev (Some t) (Some cclient_) actor None None
                (Some mgr) (mkGeo 0 0 0 0) 0 (repeat None (HDCM_UNMAP_PARTICLES E)) in
  let '(d, w) := alloc_data data w in
  do w <- connect_new_frame t OnFade d w;
  do w <- connect_completed t d w;
  let w := mb_wm_comp_mgr_clutter_client_set_flags cclient_
             DontUpdate_EffectRunning w in
  let w := hd_comp_mgr_set_effect_running mgr true w in
  do w <- call_frame OnFade t 0 d w;
  clutter_timeline_start t w.

(** [clutter_actor_move_anchor_point_from_gravity (actor, CENTER)]: the
    anchor goes to the middle and the position follows, so that the actor
    stays where it is. *)
Definition move_anchor_point_to_center (a : actor_id) (A : Actors) : Actors :=
  let x := A a in
  let ax := Z.quot (a_width x) 2 in
  let ay := Z.quot (a_height x) 2 in
  on_actor a (fun y => with_anchor ax ay
                         (with_position (a_x y + (ax - a_anchor_x y))
                                        (a_y y + (ay - a_anchor_y y)) y))%Z A.

Definition set_anchor_point_to_center (a : actor_id) (A : Actors) : Actors :=
  let x := A a in
  on_actor a (with_anchor (Z.quot (a_width x) 2) (Z.quot (a_height x) 2)) A.

(** [hd_clutter_cache_get_texture (..., TRUE)]: a fresh texture, or NULL. *)
Definition hd_clutter_cache_get_texture (w : World) : option actor_id * World :=
  if texture_available w
  then let '(a, w) := alloc_actor false w in (Some a, w)
  else (None, w).

(** One round of the particle loop of [hd_transition_close_app]. *)
Definition close_app_particle (d : data_id) (parent : actor_id)
    (w : World) (i : nat) : World :=
  let '(p, w) := hd_clutter_cache_get_texture w in
  match effects w d with
  | None => w
  | Some data =>
    let w := store_data d (Some (with_particles (list_set (particles data) i p) data)) w in
    match p with
    | Some a =>
      let w := on_actors (g_object_ref a) w in
      let w := on_actors (set_anchor_point_to_center a) w in
      let w := on_actors (clutter_container_add_actor parent a) w in
      on_actors (clutter_actor_hide a) w
    | None => w
    end
  end.

Definition hd_transition_close_app (mgr : nat) (c : client_id) (w : World)
    : result World :=
  let cl := clients w c in
  if negb (c_type_is_app cl) then Ok w else
  if (rm_state w =? HDRM_STATE_TASK_NAV E)%Z then Ok w else
  if (0 <? app_stack_index cl)%Z && negb (app_is_leader cl)
  then Ok (emit CDebug w) else
  let cclient_ := c in
  match c_actor (clients w cclient_) with
  | None => Ok w
  | Some actor =>
    if negb (a_visible (actors w actor)) then Ok w else
    let geo_ := clutter_actor_get_geometry (actors w actor) in
    if (geo_width geo_ <? 16)%Z || (geo_height geo_ <? 16)%Z then Ok w else
    let w := mb_wm_object_ref cclient_ w in
    let w := on_actors (g_object_ref actor) w in
    let '(t, w) := clutter_timeline_new_for_duration
                     (hd_transition_get_int w "app_close" "duration" 500) w in
    do w <- timeline_ref t w;
    let data := mkData MBWMCompMgrClientEventUnmap (Some t) (Some cclient_)
                  (Some actor) None None (Some mgr) geo_ 0
                  (repeat None (HDCM_UNMAP_PARTICLES E)) in
    let '(d, w) := alloc_data data w in
    do w <- connect_new_frame t OnClose d w;
    let w := set_stage_handlers (d :: stage_handlers w) w in
    do w <- connect_completed t d w;
    let w := mb_wm_comp_mgr_clutter_client_set_flags cclient_
               DontUpdate_EffectRunning w in
    let parent := front_group E in
    let w := on_actors (clutter_actor_reparent actor parent) w in
    let w := on_actors (move_anchor_point_to_center actor) w in
    let w := fold_left (close_app_particle d parent)
               (seq 0 (HDCM_UNMAP_PARTICLES E)) w in
    let w := hd_comp_mgr_set_effect_running mgr true w in
    do w <- clutter_timeline_start t w;
    Ok (hd_transition_play_sound w)
  end.

Definition with_effects_waiting (l : list data_id) (o : OrientationChange) :=
  mkOC (wm o) (direction o) (new_direction o) (phase o) (goto_state o)
       (timeout_id o) (timer o) l.

Definition hd_transition_close_app_before_rotate (mgr : nat) (c : client_id)
    (w : World) : result World :=
  let cl := clients w c in
  if negb (c_type_is_app cl) then Ok w else
  if (rm_state w =? HDRM_STATE_TASK_NAV E)%Z then Ok w else
  let cclient_ := c in
  match c_actor (clients w cclient_) with
  | None => Ok w
  | Some actor =>
    if negb (a_visible (actors w actor)) then Ok w else
    let w := mb_wm_object_ref cclient_ w in
    let w := on_actors (g_object_ref actor) w in
    let data := mkData MBWMCompMgrClientEventUnmap None (Some cclient_)
                  (Some actor) None None (Some mgr) (mkGeo 0 0 0 0) 0
                  (repeat None (HDCM_UNMAP_PARTICLES E)) in
    let '(d, w) := alloc_data data w in
    let w := mb_wm_comp_mgr_clutter_client_set_flags cclient_
               (flags_or DontUpdate_EffectRunning MBWMCompMgrClutterClientDontShow) w in
    let parent := front_group E in
    let w := on_actors (clutter_actor_reparent actor parent) w in
    let '(bar, w) := alloc_actor true w in
    let w := store_data d (Some (with_particles
                                   (list_set (particles data) 0 (Some bar)) data)) w in
    let w := on_actors (clutter_container_add_actor parent bar) w in
    let oc := Orientation_change w in
    let w := set_oc (with_effects_waiting (effects_waiting oc ++ [d]) oc) w in
    let w := hd_comp_mgr_set_effect_running mgr true w in
    Ok (hd_transition_play_sound w)
  end.

Definition hd_transition_notification (mgr : nat) (c : client_id)
    (ev : MBWMCompMgrClientEvent) (w : World) : result World :=
  let cclient_ := c in
  let w := mb_wm_object_ref cclient_ w in
  let actor := c_actor (clients w cclient_) in
  let w := ref_opt_actor actor w in
  let '(t, w) := hd_transition_timeline_new "notification" ev 500 w in
  do w <- timeline_ref t w;
  let data := mkData ev (Some t) (Some cclient_) actor None None
                (Some mgr) (mkGeo 0 0 0 0) 0 (repeat None (HDCM_UNMAP_PARTICLES E)) in
  let '(d, w) := alloc_data data w in
  do w <- connect_new_frame t OnNotification d w;
  do w <- connect_completed t d w;
  let w := mb_wm_comp_mgr_clutter_client_set_flags cclient_
             DontUpdate_EffectRunning w in
  let w := hd_comp_mgr_set_effect_running mgr true w in
  do w <- call_frame OnNotification t 0 d w;
  clutter_timeline_start t w.

(** ** Subview transitions and forced stop *)

Definition in_trans (c : client_id) (w : World) : bool :=
  EffectRunning (c_flags (clients w c)).

Definition hide_opt_actor (a : option actor_id) (w : World) : World :=
  match a with
  | Some x =>
    let w := on_actors (clutter_actor_hide x) w in
    on_actors (clutter_actor_set_anchor_pointu x 0 0) w
  | None => w
  end.

Definition unref_opt_actor (a : option actor_id) (w : World) : World :=
  match a with
  | Some x => on_actors (g_object_unref x) w
  | None => w
  end.

(** The branch of [hd_transition_subview] taken when the mainview is in
    transition: the running effect's subview is replaced by ours. *)
Definition subview_replace_subview (d : data_id) (data : HDEffectData)
    (cclient_subview : client_id) (w : World) : World :=
  let w := hide_opt_actor (cclient_actor data) w in
  let w := unref_opt_actor (cclient_actor data) w in
  let w := match cclient data with
           | Some old => release_client old w
           | None => w
           end in
  let w := mb_wm_object_ref cclient_subview w in
  let actor := c_actor (clients w cclient_subview) in
  let w := ref_opt_actor actor w in
  let w := store_data d (Some (with_cclient (Some cclient_subview) actor data)) w in
  let w := mb_wm_comp_mgr_clutter_client_set_flags cclient_subview
             DontUpdate_EffectRunning w in
  set_client_effect cclient_subview (Some d) w.

(** The branch taken when the subview is in transition: the running
    effect's mainview is replaced by ours. *)
Definition subview_replace_mainview (d : data_id) (data : HDEffectData)
    (cclient_mainview : client_id) (w : World) : World :=
  let w := hide_opt_actor (cclient2_actor data) w in
  let w := unref_opt_actor (cclient2_actor data) w in
  let w := match cclient2 data with
           | Some old => release_client old w
           | None => w
           end in
  let w := mb_wm_object_ref cclient_mainview w in
  let actor := c_actor (clients w cclient_mainview) in
  let w := ref_opt_actor actor w in
  let w := store_data d (Some (with_cclient2 (Some cclient_mainview) actor data)) w in
  let w := mb_wm_comp_mgr_clutter_client_set_flags cclient_mainview
             DontUpdate_EffectRunning w in
  set_client_effect cclient_mainview (Some d) w.

Definition hd_transition_subview (mgr : nat) (subview mainview : option client_id)
    (ev : MBWMCompMgrClientEvent) (w : World) : result World :=
  if opt_eqb subview mainview then Ok (emit CCritical w) else
  match subview, mainview with
  | Some sv, Some mv =>
    if negb (has_cm_client (clients w sv)) || negb (has_cm_client (clients w mv))
       || negb (STATE_IS_APP E (rm_state w))
    then Ok w else
    let cclient_subview := sv in
    let cclient_mainview := mv in
    let subview_in_trans := in_trans cclient_subview w in
    let mainview_in_trans := in_trans cclient_mainview w in
    if subview_in_trans && mainview_in_trans then Ok w else
    if mainview_in_trans then
      if event_eqb ev MBWMCompMgrClientEventMap then
        match effect (clients w cclient_mainview) with
        | Some d =>
          do data <- deref_data d w;
          if is_map data && opt_eqb (cclient data) (Some cclient_mainview)
          then Ok (subview_replace_subview d data cclient_subview w)
          else Ok w
        | None => Ok w
        end
      else Ok w
    else if subview_in_trans then
      if event_eqb ev MBWMCompMgrClientEventUnmap then
        match effect (clients w cclient_subview) with
        | Some d =>
          do data <- deref_data d w;
          if is_unmap data && opt_eqb (cclient2 data) (Some cclient_subview)
          then Ok (subview_replace_mainview d data cclient_mainview w)
          else Ok w
        | None => Ok w
        end
      else Ok w
    else
      let w := mb_wm_object_ref cclient_subview w in
      let actor1 := c_actor (clients w cclient_subview) in
      let w := ref_opt_actor actor1 w in
      let w := mb_wm_object_ref cclient_mainview w in
      let actor2 := c_actor (clients w cclient_mainview) in
      let w := ref_opt_actor actor2 w in
      let '(t, w) := hd_transition_timeline_new "subview" ev 250 w in
      do w <- timeline_ref t w;
      let data := mkData ev (Some t) (Some cclient_subview) actor1
                    (Some cclient_mainview) actor2 (Some mgr) (mkGeo 0 0 0 0) 0
                    (repeat None (HDCM_UNMAP_PARTICLES E)) in
      let '(d, w) := alloc_data data w in
      do w <- connect_new_frame t OnSubview d w;
      do w <- connect_completed t d w;
      let w := mb_wm_comp_mgr_clutter_client_set_flags cclient_subview
                 DontUpdate_EffectRunning w in
      let w := mb_wm_comp_mgr_clutter_client_set_flags cclient_mainview
                 DontUpdate_EffectRunning w in
      let w := hd_comp_mgr_set_effect_running mgr true w in
      let w := set_client_effect cclient_mainview (Some d) w in
      let w := set_client_effect cclient_subview (Some d) w in
      do w <- call_frame OnSubview t 0 d w;
      clutter_timeline_start t w
  | _, _ => Ok w
  end.

(** [hd_transition_stop]: with a NULL timeline the Clutter calls are
    refused by their own argument checks and only the teardown runs. *)
Definition hd_transition_stop (mgr : nat) (client : client_id) (w : World)
    : result World :=
  let cclient_ := client in
  match effect (clients w cclient_) with
  | Some d =>
    do data <- deref_data d w;
    match timeline data with
    | Some t =>
      do tl <- deref_timeline t w;
      let n := n_frames tl in
      do w <- clutter_timeline_stop t w;
      do w <- emit_new_frame t n w;
      hd_transition_completed (Some t) d w
    | None => hd_transition_completed None d w
    end
  | None => Ok w
  end.

(** ** The rotation state machine *)

Definition with_wm (x : nat) (o : OrientationChange) :=
  mkOC x (direction o) (new_direction o) (phase o) (goto_state o)
       (timeout_id o) (timer o) (effects_waiting o).
Definition with_direction (x : Direction) (o : OrientationChange) :=
  mkOC (wm o) x (new_direction o) (phase o) (goto_state o)
       (timeout_id o) (timer o) (effects_waiting o).
Definition with_new_direction (x : Direction) (o : OrientationChange) :=
  mkOC (wm o) (direction o) x (phase o) (goto_state o)
       (timeout_id o) (timer o) (effects_waiting o).
Definition with_phase (x : Phase) (o : OrientationChange) :=
  mkOC (wm o) (direction o) (new_direction o) x (goto_state o)
       (timeout_id o) (timer o) (effects_waiting o).
Definition with_goto_state (x : HDRMStateEnum) (o : OrientationChange) :=
  mkOC (wm o) (direction o) (new_direction o) (phase o) x
       (timeout_id o) (timer o) (effects_waiting o).
Definition with_timeout_id (x : source_id) (o : OrientationChange) :=
  mkOC (wm o) (direction o) (new_direction o) (phase o) (goto_state o)
       x (timer o) (effects_waiting o).
Definition with_timer (x : option Z) (o : OrientationChange) :=
  mkOC (wm o) (direction o) (new_direction o) (phase o) (goto_state o)
       (timeout_id o) x (effects_waiting o).

Definition on_oc (f : OrientationChange -> OrientationChange) (w : World) : World :=
  set_oc (f (Orientation_change w)) w.

(** [g_timeout_add]: the source is due [interval] milliseconds from now. *)
Definition g_timeout_add (interval : Z) (w : World) : source_id * World :=
  let id := next_source w in
  (id, set_next_source (S id)
         (set_sources ((id, now w + interval * 1000)%Z :: sources w) w)).

Definition g_source_remove (id : source_id) (w : World) : World :=
  set_sources (filter (fun s => negb (Nat.eqb (fst s) id)) (sources w)) w.

(** [g_timer_elapsed]: the microseconds since the start, as a [double] of
    seconds. *)
Definition g_timer_elapsed (t : option Z) (w : World) : R :=
  match t with
  | Some start => db (IZR (now w - start) / 1000000)
  | None => 0
  end.

(** The debounce interval as [g_timeout_add] receives it (a [guint]). *)
Definition damage_timeout (w : World) : Z :=
  c_guint (hd_transition_get_double w "rotate" "damage_timeout" 50).

(** The ceiling of the WAITING phase, in seconds. *)
Definition damage_timeout_max (w : World) : R :=
  db (hd_transition_get_double w "rotate" "damage_timeout_max" 1000 / 1000).

Definition hd_util_change_screen_orientation (wm_ : nat) (portrait : bool)
    (w : World) : World :=
  emit (CChangeScreenOrientation wm_ portrait) w.

Definition set_rm_state (s : HDRMStateEnum) (w : World) : World :=
  mkWorld (clients w) (actors w) (effects w) (timelines w) (next_actor w) (next_data w)
    (next_timeline w) (next_source w) (effect_running w) (Orientation_change w)
    (stage_handlers w) (sources w) (now w) (screen_width w) (screen_height w)
    (is_portrait w) s (texture_available w) (transitions_ini w) (log w).

(** Modelled from the spec: [hd_render_manager_set_state] lives in
    hd-render-manager.c; it sets the current UI state, the one
    [hd_render_manager_get_state] returns. *)
Definition hd_render_manager_set_state (s : HDRMStateEnum) (w : World) : World :=
  emit (CRenderManagerSetState s) (set_rm_state s w).

Definition hd_render_manager_restack (w : World) : World :=
  emit CRenderManagerRestack w.

(** The angle a fade of the rotation is given: the configured one, stored
    in the [float] field [angle] and turned round there under the test
    [first_part == goto_portrait]. *)
Definition rotation_angle (w : World) (first_part goto_portrait : bool) : R :=
  let a := fl (hd_transition_get_double w "rotate" "angle" 40) in
  if Bool.eqb first_part goto_portrait then fl (a * -1) else a.

Definition hd_transition_fade_and_rotate (first_part goto_portrait : bool)
    (finished_callback : bool) (w : World) : result World :=
  let ev := if first_part then MBWMCompMgrClientEventMap
            else MBWMCompMgrClientEventUnmap in
  let '(t, w) := hd_transition_timeline_new "rotate" ev 300 w in
  do w <- timeline_ref t w;
  let data := mkData ev (Some t) None None None None None (mkGeo 0 0 0 0) 0
                (repeat None (HDCM_UNMAP_PARTICLES E)) in
  let '(d, w) := alloc_data data w in
  do w <- connect_new_frame t OnRotateScreen d w;
  do w <- connect_completed t d w;
  do w <- (if finished_callback then connect_finished_fsm t w else Ok w);
  let data := mkData ev (Some t) None None None None None (mkGeo 0 0 0 0)
                (rotation_angle w first_part goto_portrait)
                (repeat None (HDCM_UNMAP_PARTICLES E)) in
  let '(black, w) := alloc_actor false w in
  let w := on_actors (g_object_ref black) w in
  let data := with_particles (list_set (particles data) 0 (Some black)) data in
  let w := store_data d (Some data) w in
  let w := on_actors (clutter_actor_set_size black (screen_width w) (screen_height w)) w in
  let w := on_actors (clutter_container_add_actor (stage E) black) w in
  let w := on_actors (clutter_actor_show black) w in
  let w :=
    if negb goto_portrait && first_part then
      let '(mask, w) := alloc_actor false w in
      let w := on_actors (g_object_ref mask) w in
      let w := store_data d (Some (with_particles
                                     (list_set (particles data) 1 (Some mask)) data)) w in
      let w := on_actors (clutter_actor_set_position mask
                            (HD_COMP_MGR_LANDSCAPE_HEIGHT E) 0) w in
      let w := on_actors (clutter_actor_set_size mask
                            (HD_COMP_MGR_LANDSCAPE_WIDTH E - HD_COMP_MGR_LANDSCAPE_HEIGHT E)
                            (HD_COMP_MGR_LANDSCAPE_HEIGHT E)) w in
      let w := on_actors (clutter_container_add_actor (render_manager E) mask) w in
      on_actors (clutter_actor_show mask) w
    else w in
  do w <- call_frame OnRotateScreen t 0 d w;
  clutter_timeline_start t w.

(** The loop over [effects_waiting]: complete the head, step to the next. *)
Fixpoint complete_effects_waiting (l : list data_id) (w : World) : result World :=
  match l with
  | [] => Ok w
  | d :: rest =>
    do w <- hd_transition_completed None d w;
    complete_effects_waiting rest (on_oc (with_effects_waiting rest) w)
  end.

Definition is_goto_portrait (d : Direction) : bool := direction_eqb d GOTO_PORTRAIT.

(** [hd_transition_rotating_fsm]; [fuel] bounds the depth of the calls the
    machine makes to itself. *)
Fixpoint hd_transition_rotating_fsm (fuel : nat) (w : World) : result World :=
  match fuel with
  | O => OutOfFuel
  | S fuel' =>
    let oc := Orientation_change w in
    let w := emit (CDebugFsm (phase oc) (new_direction oc) (direction oc)) w in
    let w := on_oc (with_timeout_id 0%nat) w in
    let w := match timer (Orientation_change w) with
             | Some _ => on_oc (with_timer None) w
             | None => w
             end in
    let case_WAITING (w : World) : result World :=
      let oc := Orientation_change w in
      if direction_eqb (direction oc) (new_direction oc) then
        let w := on_oc (with_phase FADE_IN) w in
        let w := on_actors (clutter_actor_show (render_manager E)) w in
        do w <- hd_transition_fade_and_rotate false
                  (is_goto_portrait (direction (Orientation_change w))) true w;
        Ok (hd_render_manager_restack w)
      else
        let w := on_oc (with_direction (new_direction oc)) w in
        let w := on_oc (with_phase FADE_OUT) w in
        hd_transition_rotating_fsm fuel' w in
    match phase (Orientation_change w) with
    | IDLE =>
      let w := on_oc (with_phase FADE_OUT) w in
      let w := on_oc (fun o => with_direction (new_direction o) o) w in
      hd_transition_fade_and_rotate true
        (is_goto_portrait (direction (Orientation_change w))) true w
    | FADE_OUT =>
      let oc := Orientation_change w in
      let state := goto_state oc in
      let change_state :=
        if is_goto_portrait (new_direction oc)
        then STATE_IS_PORTRAIT E state || STATE_IS_PORTRAIT_CAPABLE E state
        else negb (STATE_IS_PORTRAIT E state)
             && negb (state =? HDRM_STATE_UNDEFINED E)%Z in
      let w := if change_state
               then hd_render_manager_set_state state
                      (on_oc (with_goto_state (HDRM_STATE_UNDEFINED E)) w)
               else w in
      do w <- complete_effects_waiting (effects_waiting (Orientation_change w)) w;
      let w := on_oc (with_effects_waiting []) w in
      let oc := Orientation_change w in
      if direction_eqb (direction oc) (new_direction oc) then
        let w := on_oc (with_phase WAITING) w in
        let w := on_actors (clutter_actor_hide (render_manager E)) w in
        let w := hd_util_change_screen_orientation (wm oc)
                   (is_goto_portrait (direction oc)) w in
        let '(id, w) := g_timeout_add (damage_timeout w) w in
        let w := on_oc (with_timeout_id id) w in
        Ok (on_oc (with_timer (Some (now w))) w)
      else
        let w := on_oc (with_direction (new_direction oc)) w in
        case_WAITING w
    | WAITING => case_WAITING w
    | FADE_IN =>
      let w := on_oc (with_phase IDLE) w in
      let oc := Orientation_change w in
      if negb (direction_eqb (direction oc) (new_direction oc))
      then hd_transition_rotating_fsm fuel' w
      else Ok w
    end
  end.

Definition hd_transition_rotate_screen (fuel : nat) (wm_ : nat)
    (goto_portrait : bool) (w : World) : result (bool * World) :=
  let w := emit CDebug w in
  let w := on_oc (with_wm wm_) w in
  let w := on_oc (with_new_direction
                    (if goto_portrait then GOTO_PORTRAIT else GOTO_LANDSCAPE)) w in
  if phase_eqb (phase (Orientation_change w)) IDLE then
    if Bool.eqb goto_portrait (is_portrait w) then
      Ok (false, emit CWarning w)
    else
      do w <- hd_transition_rotating_fsm fuel w;
      Ok (true, w)
  else Ok (true, emit CDebug w).

Definition hd_transition_rotate_screen_and_change_state (state : HDRMStateEnum)
    (w : World) : World :=
  on_oc (with_goto_state state) w.

Definition hd_transition_rotate_ignore_damage (w : World) : bool * World :=
  let oc := Orientation_change w in
  if phase_eqb (phase oc) WAITING then
    if Rltb (g_timer_elapsed (timer oc) w) (damage_timeout_max w) then
      let w := if negb (Nat.eqb (timeout_id oc) 0%nat)
               then g_source_remove (timeout_id oc) w else w in
      let '(id, w) := g_timeout_add (damage_timeout w) w in
      (true, on_oc (with_timeout_id id) w)
    else (true, w)
  else (false, w).

Definition hd_transition_actor_will_go_away (hcmgrc : option client_id)
    (w : World) : result bool :=
  match hcmgrc with
  | None => Ok false
  | Some c =>
    match effect (clients w c) with
    | None => Ok false
    | Some d =>
      do data <- deref_data d w;
      if negb (is_unmap data) then Ok false
      else Ok (opt_eqb (cclient data) (Some c))
    end
  end.

(** [on_screen_size_changed]: the stage's notify::allocation callback of
    the close-app effect. *)
Definition on_screen_size_changed (d : data_id) (w : World) : result World :=
  do data <- deref_data d w;
  let g := clutter_actor_get_geometry (actors w (stage E)) in
  let scrw := geo_width g in
  let scrh := geo_height g in
  let actor := match cclient data with
               | Some c => c_actor (clients w c)
               | None => None
               end in
  let rot (ang : R) (w : World) : World :=
    match actor with
    | Some a => on_actors (clutter_actor_set_rotation a CLUTTER_Z_AXIS ang 0 0 0) w
    | None => w
    end in
  let g0 := geo data in
  let '(w, g1) :=
    if (scrh <? scrw)%Z then
      (rot (-90) w,
       mkGeo (geo_y g0) (scrh - (geo_x g0 + geo_width g0))%Z
             (geo_width g0) (geo_height g0))
    else
      (rot 90 w,
       mkGeo (scrw - (geo_y g0 + geo_height g0))%Z (geo_x g0)
             (geo_width g0) (geo_height g0)) in
  let g2 := mkGeo (geo_x g1) (geo_y g1) (geo_height g1) (geo_width g1) in
  let w := store_data d (Some (with_geo g2 data)) w in
  match actor with
  | Some a =>
    Ok (on_actors (clutter_actor_set_position a
                     (geo_x g2 + Z.quot (geo_width g2) 2)
                     (geo_y g2 + Z.quot (geo_height g2) 2))%Z w)
  | None => Ok w
  end.

End Transition.

(** ** The event loop *)

(** What the rest of the desktop decides. *)
Record External : Type := mkExternal {
  x_screen_width : Z;
  x_screen_height : Z;
  x_is_portrait : bool;
  x_rm_state : HDRMStateEnum;
  x_texture_available : bool;
  x_transitions_ini : option KeyFile }.

Definition set_external (x : External) (w : World) : World :=
  mkWorld (clients w) (actors w) (effects w) (timelines w) (next_actor w) (next_data w)
    (next_timeline w) (next_source w) (effect_running w) (Orientation_change w)
    (stage_handlers w) (sources w) (now w) (x_screen_width x) (x_screen_height x)
    (x_is_portrait x) (x_rm_state x) (x_texture_available x) (x_transitions_ini x)
    (log w).

Definition set_now (t : Z) (w : World) : World :=
  mkWorld (clients w) (actors w) (effects w) (timelines w) (next_actor w) (next_data w)
    (next_timeline w) (next_source w) (effect_running w) (Orientation_change w)
    (stage_handlers w) (sources w) t (screen_width w) (screen_height w)
    (is_portrait w) (rm_state w) (texture_available w) (transitions_ini w) (log w).

(** Everything that can happen: the public entry points being called, the
    main loop dispatching a timeline or a timeout, and the environment
    moving on. *)
Inductive Event : Type :=
| EvPopup (mgr : nat) (c : client_id) (ev : MBWMCompMgrClientEvent)
| EvFade (mgr : nat) (c : client_id) (ev : MBWMCompMgrClientEvent)
| EvCloseApp (mgr : nat) (c : client_id)
| EvCloseAppBeforeRotate (mgr : nat) (c : client_id)
| EvNotification (mgr : nat) (c : client_id) (ev : MBWMCompMgrClientEvent)
| EvSubview (mgr : nat) (subview mainview : option client_id)
            (ev : MBWMCompMgrClientEvent)
| EvStop (mgr : nat) (c : client_id)
| EvRotateScreen (wm_ : nat) (goto_portrait : bool)
| EvRotateScreenAndChangeState (state : HDRMStateEnum)
| EvIgnoreDamage
| EvNewFrame (t : timeline_id) (k : Z)   (* a running timeline reaches frame k *)
| EvCompleted (t : timeline_id)          (* a running timeline reaches its end *)
| EvTimeout (id : source_id)             (* a due timeout source is dispatched *)
| EvScreenSizeChanged                    (* notify::allocation of the stage *)
| EvClock (dt : Z)                       (* time passes *)
| EvExternal (x : External)
| EvActor (a : actor_id) (x : Actor)     (* someone else changes an actor *)
| EvClient (c : client_id) (x : Client). (* ... or a client, but for [effect] *)

Section Loop.

Variable E : Env.

(** A timeline that plays to its end: the last frame, then completed. *)
Definition timeline_completes (fuel : nat) (t : timeline_id) (w : World)
    : result World :=
  match timelines w t with
  | None => Ok w
  | Some tl =>
    if tl_running tl then
      do w <- on_timeline t (with_current_frame (n_frames tl)) w;
      do w <- emit_new_frame E t (n_frames tl) w;
      do w <- on_timeline t (with_tl_running false) w;
      do w <- match tl_completed tl with
              | Some d => hd_transition_completed E (Some t) d w
              | None => Ok w
              end;
      if tl_finished_fsm tl then hd_transition_rotating_fsm E fuel w else Ok w
    else Ok w
  end.

Definition timeline_new_frame (t : timeline_id) (k : Z) (w : World)
    : result World :=
  match timelines w t with
  | None => Ok w
  | Some tl =>
    if tl_running tl && (0 <=? k)%Z && (k <? n_frames tl)%Z then
      do w <- on_timeline t (with_current_frame k) w;
      emit_new_frame E t k w
    else Ok w
  end.

Definition source_due (id : source_id) (w : World) : bool :=
  existsb (fun s => Nat.eqb (fst s) id && (snd s <=? now w)%Z) (sources w).

(** The timeout callback is the machine itself; it returns [FALSE] and the
    source is removed. *)
Definition timeout_fires (fuel : nat) (id : source_id) (w : World)
    : result World :=
  if source_due id w then
    do w <- hd_transition_rotating_fsm E fuel w;
    Ok (g_source_remove id w)
  else Ok w.

Fixpoint screen_size_changes (l : list data_id) (w : World) : result World :=
  match l with
  | [] => Ok w
  | d :: rest =>
    do w <- on_screen_size_changed E d w;
    screen_size_changes rest w
  end.

Definition step (fuel : nat) (e : Event) (w : World) : result World :=
  match e with
  | EvPopup mgr c ev => hd_transition_popup E mgr c ev w
  | EvFade mgr c ev => hd_transition_fade E mgr c ev w
  | EvCloseApp mgr c => hd_transition_close_app E mgr c w
  | EvCloseAppBeforeRotate mgr c => hd_transition_close_app_before_rotate E mgr c w
  | EvNotification mgr c ev => hd_transition_notification E mgr c ev w
  | EvSubview mgr s m ev => hd_transition_subview E mgr s m ev w
  | EvStop mgr c => hd_transition_stop E mgr c w
  | EvRotateScreen wm_ p =>
    do r <- hd_transition_rotate_screen E fuel wm_ p w; Ok (snd r)
  | EvRotateScreenAndChangeState s =>
    Ok (hd_transition_rotate_screen_and_change_state s w)
  | EvIgnoreDamage => Ok (snd (hd_transition_rotate_ignore_damage w))
  | EvNewFrame t k => timeline_new_frame t k w
  | EvCompleted t => timeline_completes fuel t w
  | EvTimeout id => timeout_fires fuel id w
  | EvScreenSizeChanged => screen_size_changes (rev (stage_handlers w)) w
  | EvClock dt => Ok (set_now (now w + Z.max 0 dt)%Z w)
  | EvExternal x => Ok (set_external x w)
  | EvActor a x => Ok (on_actors (fun A => upd A a x) w)
  | EvClient c x => Ok (on_client c (fun old => with_effect (effect old) x) w)
  end.

Fixpoint run (fuel : nat) (evs : list Event) (w : World) : result World :=
  match evs with
  | [] => Ok w
  | e :: rest => do w <- step fuel e w; run fuel rest w
  end.

End Loop.

(** The process at startup: the static [Orientation_change] is all zero,
    nothing has been allocated, no client has an effect. *)
Definition startup (cs : client_id -> Client) (A : Actors) (first_actor : actor_id)
    (x : External) (clock : Z) : World :=
  mkWorld (fun c => with_effect None (cs c)) A (fun _ => None) (fun _ => None)
    first_actor 0%nat 0%nat 1%nat 0%Z
    (mkOC 0%nat GOTO_LANDSCAPE GOTO_LANDSCAPE IDLE 0%Z 0%nat None [])
    [] [] clock (x_screen_width x) (x_screen_height x) (x_is_portrait x)
    (x_rm_state x) (x_texture_available x) (x_transitions_ini x) [].

(** The worlds the process can be in: startup, and whatever events lead
    to.  The machine calls itself once at most, so that a fuel of two never
    runs out. *)
Inductive Reachable (E : Env) : World -> Prop :=
| reach_startup cs A first_actor x clock :
    Reachable E (startup cs A first_actor x clock)
| reach_step w fuel e w' :
    Reachable E w -> (2 <= fuel)%nat -> step E fuel e w = Ok w' ->
    Reachable E w'.

(** *** Reading the trace *)

Definition teardown_of (c : Call) : option data_id :=
  match c with CCompleted d => Some d | _ => None end.

Fixpoint teardowns (l : list Call) : list data_id :=
  match l with
  | [] => []
  | c :: rest =>
    match teardown_of c with
    | Some d => d :: teardowns rest
    | None => teardowns rest
    end
  end.

Fixpoint particle_releases (l : list Call) : list (data_id * nat) :=
  match l with
  | [] => []
  | CParticleUnref d i _ :: rest => (d, i) :: particle_releases rest
  | _ :: rest => particle_releases rest
  end.

Fixpoint screen_reconfigurations (l : list Call) : nat :=
  match l with
  | [] => 0%nat
  | CChangeScreenOrientation _ _ :: rest => S (screen_reconfigurations rest)
  | _ :: rest => screen_reconfigurations rest
  end.

(** The machine's own debug lines, oldest first: one per entry into
    [hd_transition_rotating_fsm]. *)
Fixpoint fsm_entries (l : list Call) : list (Phase * Direction * Direction) :=
  match l with
  | [] => []
  | CDebugFsm p nd d :: rest => fsm_entries rest ++ [(p, nd, d)]
  | _ :: rest => fsm_entries rest
  end.

Fixpoint effect_running_decrements (l : list Call) : nat :=
  match l with
  | [] => 0%nat
  | CSetEffectRunning false :: rest => S (effect_running_decrements rest)
  | _ :: rest => effect_running_decrements rest
  end.

(** The frames applied through a callback, newest first. *)
Fixpoint new_frames (l : list Call) : list (FrameHandler * data_id * Z) :=
  match l with
  | [] => []
  | CNewFrame h d k :: rest => (h, d, k) :: new_frames rest
  | _ :: rest => new_frames rest
  end.

(** What a run added to the trace (the trace is newest first). *)
Definition new_calls (before after : World) : list Call :=
  firstn (List.length (log after) - List.length (log before)) (log after).

(** ** A concrete environment *)

Definition default_env : Env :=
  mkEnv 8%nat 112%Z 800%Z 480%Z 0%Z 1%Z
        (fun s => (2 <=? s)%Z && (s <=? 3)%Z)
        (fun s => (s =? 3)%Z)
        (fun s => (s =? 2)%Z)
        (fun x => c_int (x * 65536))
        (fun z => (z * 65536)%Z)
        (fun z => (z / 65536)%Z)
        (fun ms => (ms * 60 / 1000)%Z)
        0%nat 1%nat 2%nat nearest_libm.


(** ** A concrete desktop

    Every client [c] is an application with the visible actor [c + 10],
    200 by 100 pixels at the origin; the screen is 800 by 480, landscape,
    and an application is in front. *)

Definition demo_client (a : actor_id) : Client :=
  mkClient true true 0%Z true (Some a) (mkFlags false false false) None 1%Z.

Definition demo_actor : Actor :=
  mkActor true false true None 0%Z 0%Z (200 * 65536)%Z (100 * 65536)%Z 0%Z 0%Z
          255%Z 1 1 (CLUTTER_Z_AXIS, 0, (0, 0, 0)%Z) 0%Z 1%Z.

Definition demo_external (portrait : bool) : External :=
  mkExternal 800%Z 480%Z portrait 2%Z true None.

Definition demo : World :=
  startup (fun c => demo_client (c + 10)%nat) (fun _ => demo_actor) 100%nat
    (demo_external false) 0%Z.

Definition demo_portrait : World :=
  startup (fun c => demo_client (c + 10)%nat) (fun _ => demo_actor) 100%nat
    (demo_external true) 0%Z.


(** The result of a run, or the world it started from. *)
Definition after (m : result World) (w : World) : World :=
  match m with Ok w' => w' | _ => w end.

(** The demo desktop after a window has faded in, its timeline has
    played to the end, and a stop has been asked for on top. *)
Definition demo_after_fade : World :=
  after (run default_env 2
           [EvFade 0%nat 0%nat MBWMCompMgrClientEventMap;
            EvCompleted 0%nat; EvStop 0%nat 0%nat] demo) demo.

(** The demo desktop while client 0 pushes the view of client 1. *)
Definition demo_sliding : World :=
  after (hd_transition_subview default_env 0%nat (Some 1%nat) (Some 0%nat)
           MBWMCompMgrClientEventMap demo) demo.

(** The demo desktop in the WAITING phase of a rotation to portrait: the
    request has been made and the fade-out has played to its end. *)
Definition demo_waits : World :=
  after (run default_env 2 [EvRotateScreen 0%nat true; EvCompleted 0%nat] demo)
        demo.

(** ... two seconds later. *)
Definition demo_waited : World :=
  after (run default_env 2 [EvClock 2000000%Z] demo_waits) demo_waits.

(** ... two seconds later, a rotation back to landscape having been asked
    for in the meantime. *)
Definition demo_turned : World :=
  after (run default_env 2 [EvRotateScreen 0%nat false; EvClock 2000000%Z]
             demo_waits) demo_waits.

(** A desktop whose clients have no actor yet. *)
Definition demo_bare : World :=
  startup (fun _ => mkClient true true 0%Z true None (mkFlags false false false)
                      None 1%Z)
          (fun _ => demo_actor) 100%nat (demo_external false) 0%Z.

Definition is_damage_or_clock (e : Event) : bool :=
  match e with
  | EvIgnoreDamage | EvClock _ => true
  | _ => false
  end.
(** ** Vocabulary of the proofs *)

(** A stretch of trace without teardown, reconfiguration or machine entry. *)
Definition quiet (l : list Call) : Prop :=
  teardowns l = [] /\ particle_releases l = []
  /\ screen_reconfigurations l = 0%nat /\ fsm_entries l = []
  /\ effect_running_decrements l = 0%nat.

(** A stretch of trace without teardown. *)
Definition silent (l : list Call) : Prop :=
  teardowns l = [] /\ particle_releases l = []
  /\ effect_running_decrements l = 0%nat.

(** Two timelines that differ in their reference count at most. *)
Definition tl_same (a b : option Timeline) : Prop :=
  match a, b with
  | Some x, Some y =>
    n_frames x = n_frames y /\ current_frame x = current_frame y
    /\ tl_running x = tl_running y /\ tl_new_frame x = tl_new_frame y
    /\ tl_completed x = tl_completed y /\ tl_finished_fsm x = tl_finished_fsm y
  | None, None => True
  | _, _ => False
  end.

(** Two effect records that agree on timeline, event and clients. *)
Definition data_same (a b : option HDEffectData) : Prop :=
  match a, b with
  | Some x, Some y =>
    timeline x = timeline y /\ event x = event y
    /\ cclient x = cclient y /\ cclient2 x = cclient2 y /\ hmgr x = hmgr y
  | None, None => True
  | _, _ => False
  end.

(** What the environment and the main loop hold, apart from the stores. *)
Definition same_env (w w' : World) : Prop :=
  now w' = now w /\ is_portrait w' = is_portrait w
  /\ transitions_ini w' = transitions_ini w
  /\ screen_width w' = screen_width w /\ screen_height w' = screen_height w
  /\ texture_available w' = texture_available w.

(** [w'] is [w] after a transition with a timeline has been started: one
    new record, one new running timeline connected to it. *)
Record Started (w w' : World) (h : FrameHandler) (fsm : bool)
    (x : HDEffectData) : Prop := mkStarted {
  st_next_data : next_data w' = S (next_data w);
  st_next_timeline : next_timeline w' = S (next_timeline w);
  st_effects : forall d,
    effects w' d = if Nat.eqb d (next_data w) then Some x else effects w d;
  st_timeline : timeline x = Some (next_timeline w);
  st_timelines : forall t,
    t <> next_timeline w -> timelines w' t = timelines w t;
  st_tl : exists tl,
    timelines w' (next_timeline w) = Some tl /\ tl_running tl = true
    /\ tl_new_frame tl = Some (h, next_data w)
    /\ tl_completed tl = Some (next_data w) /\ tl_finished_fsm tl = fsm;
  st_oc : Orientation_change w' = Orientation_change w;
  st_sources : sources w' = sources w;
  st_next_source : next_source w' = next_source w;
  st_rm_state : rm_state w' = rm_state w;
  st_env : same_env w w';
  st_log : exists l, log w' = l ++ log w /\ quiet l }.

(** [w'] is [w] after [hd_transition_completed] has torn the record [d],
    whose contents were [x], down. *)
Record TornDown (w w' : World) (d : data_id) (x : HDEffectData) : Prop :=
  mkTornDown {
  td_next_data : next_data w' = next_data w;
  td_next_timeline : next_timeline w' = next_timeline w;
  td_effects : forall d',
    effects w' d' = if Nat.eqb d' d then None else effects w d';
  td_clients : forall c,
    effect (clients w' c)
    = if opt_eqb (cclient x) (Some c) || opt_eqb (cclient2 x) (Some c)
      then None else effect (clients w c);
  td_timelines : forall t, tl_same (timelines w t) (timelines w' t);
  td_oc : Orientation_change w' = Orientation_change w;
  td_stage : stage_handlers w'
             = filter (fun k => negb (Nat.eqb k d)) (stage_handlers w);
  td_sources : sources w' = sources w;
  td_next_source : next_source w' = next_source w;
  td_rm_state : rm_state w' = rm_state w;
  td_env : same_env w w';
  td_log : exists l,
    log w' = l ++ log w /\ teardowns l = [d]
    /\ (forall p, In p (particle_releases l) -> fst p = d)
    /\ NoDup (particle_releases l)
    /\ screen_reconfigurations l = 0%nat /\ fsm_entries l = []
    /\ (effect_running_decrements l <= 1)%nat
    /\ new_frames l = [] }.

(** The ownership discipline every reachable world obeys. *)
Record Inv (w : World) : Prop := mkInv {
  (* nothing lives beyond the allocation marks *)
  inv_fresh_data : forall d, (next_data w <= d)%nat -> effects w d = None;
  inv_fresh_timeline : forall t,
    (next_timeline w <= t)%nat -> timelines w t = None;
  (* a client's effect pointer leads to a live record that names the client
     and owns a timeline *)
  inv_effect : forall c d, effect (clients w c) = Some d ->
    exists x t, effects w d = Some x /\ timeline x = Some t
                /\ (cclient x = Some c \/ cclient2 x = Some c);
  (* a live record's timeline exists and calls back with that record *)
  inv_own : forall d x t, effects w d = Some x -> timeline x = Some t ->
    exists tl h, timelines w t = Some tl /\ tl_new_frame tl = Some (h, d)
                 /\ tl_completed tl = Some d;
  (* a running timeline calls back with live records that own it *)
  inv_running : forall t tl, timelines w t = Some tl -> tl_running tl = true ->
    (forall h d, tl_new_frame tl = Some (h, d) ->
       exists x, effects w d = Some x /\ timeline x = Some t)
    /\ (forall d, tl_completed tl = Some d ->
       exists x, effects w d = Some x /\ timeline x = Some t);
  (* the deferred effects are live, have no timeline and are listed once *)
  inv_waiting : forall d, In d (effects_waiting (Orientation_change w)) ->
    exists x, effects w d = Some x /\ timeline x = None;
  inv_waiting_nodup : NoDup (effects_waiting (Orientation_change w));
  (* the stage only calls back with live records *)
  inv_stage : forall d, In d (stage_handlers w) -> effects w d <> None;
  (* what has been torn down is gone, and was torn down once *)
  inv_torn : forall d, In d (teardowns (log w)) ->
    effects w d = None /\ (d < next_data w)%nat;
  inv_torn_nodup : NoDup (teardowns (log w));
  inv_released : forall p, In p (particle_releases (log w)) ->
    effects w (fst p) = None /\ (fst p < next_data w)%nat;
  inv_released_nodup : NoDup (particle_releases (log w));
  inv_decrements :
    (effect_running_decrements (log w) <= List.length (teardowns (log w)))%nat }.

(** [w'] is [w] but for actors and for the particles and geometry of the
    record [d]. *)
Record Frame (d : data_id) (w w' : World) : Prop := mkFrame {
  fr_clients : clients w' = clients w;
  fr_timelines : timelines w' = timelines w;
  fr_next_data : next_data w' = next_data w;
  fr_next_timeline : next_timeline w' = next_timeline w;
  fr_next_source : next_source w' = next_source w;
  fr_oc : Orientation_change w' = Orientation_change w;
  fr_stage : stage_handlers w' = stage_handlers w;
  fr_sources : sources w' = sources w;
  fr_rm_state : rm_state w' = rm_state w;
  fr_env : same_env w w';
  fr_effects : forall d', d' <> d -> effects w' d' = effects w d';
  fr_data : data_same (effects w d) (effects w' d) }.

(** [m] returns a world, and that world satisfies [Q]. *)
Definition returns (m : result World) (Q : World -> Prop) : Prop :=
  exists w', m = Ok w' /\ Q w'.

(** [w'] is [w] after an effect without timeline has been put on the list
    of deferred effects. *)
Record Deferred (w w' : World) (x : HDEffectData) : Prop := mkDeferred {
  df_next_data : next_data w' = S (next_data w);
  df_next_timeline : next_timeline w' = next_timeline w;
  df_effects : forall d,
    effects w' d = if Nat.eqb d (next_data w) then Some x else effects w d;
  df_timeline : timeline x = None;
  df_timelines : forall t, timelines w' t = timelines w t;
  df_clients : forall c, effect (clients w' c) = effect (clients w c);
  df_oc : Orientation_change w'
          = with_effects_waiting
              (effects_waiting (Orientation_change w) ++ [next_data w])
              (Orientation_change w);
  df_stage : stage_handlers w' = stage_handlers w;
  df_sources : sources w' = sources w;
  df_next_source : next_source w' = next_source w;
  df_rm_state : rm_state w' = rm_state w;
  df_env : same_env w w';
  df_log : exists l, log w' = l ++ log w /\ quiet l }.


(** Two timelines with the same callbacks, the second running only if the
    first does. *)
Definition tl_calls (a b : option Timeline) : Prop :=
  match a, b with
  | Some x, Some y =>
    tl_new_frame x = tl_new_frame y /\ tl_completed x = tl_completed y
    /\ (tl_running y = true -> tl_running x = true)
  | None, None => True
  | _, _ => False
  end.

(** [w'] holds the records, callbacks and pointers of [w], and nothing has
    been torn down in between. *)
Record Similar (w w' : World) : Prop := mkSimilar {
  sim_next_data : next_data w' = next_data w;
  sim_next_timeline : next_timeline w' = next_timeline w;
  sim_effects : forall d, data_same (effects w d) (effects w' d);
  sim_clients : forall c, effect (clients w' c) = effect (clients w c);
  sim_timelines : forall t, tl_calls (timelines w t) (timelines w' t);
  sim_waiting : effects_waiting (Orientation_change w')
                = effects_waiting (Orientation_change w);
  sim_stage : stage_handlers w' = stage_handlers w;
  sim_log : exists l, log w' = l ++ log w /\ silent l }.

(** [w1] is [w] as far as the rotation machine can tell. *)
Record Calm (w w1 : World) : Prop := mkCalm {
  ca_oc : Orientation_change w1 = Orientation_change w;
  ca_sources : sources w1 = sources w;
  ca_next_source : next_source w1 = next_source w;
  ca_next_timeline : next_timeline w1 = next_timeline w;
  ca_next_data : next_data w1 = next_data w;
  ca_env : same_env w w1;
  ca_log : exists l, log w1 = l ++ log w /\ fsm_entries l = []
                     /\ screen_reconfigurations l = 0%nat }.

(** One run of the machine from [w] to [w']: where [direction] ends, the
    entries into the machine and the screen reconfigurations it made. *)
Record Machine (w w' : World) (entries : list (Phase * Direction * Direction))
    (reconfigurations : nat) : Prop := mkMachine {
  ma_direction : direction (Orientation_change w')
                 = new_direction (Orientation_change w);
  ma_new_direction : new_direction (Orientation_change w')
                     = new_direction (Orientation_change w);
  ma_wm : wm (Orientation_change w') = wm (Orientation_change w);
  ma_env : same_env w w';
  ma_log : exists l, log w' = l ++ log w /\ fsm_entries l = entries
                     /\ screen_reconfigurations l = reconfigurations }.

(** The machine has started a fade and is in phase [ph]. *)
Record Fading (w w' : World) (ph : Phase) (first_part : bool) : Prop := mkFading {
  fa_phase : phase (Orientation_change w') = ph;
  fa_timeout_id : timeout_id (Orientation_change w') = 0%nat;
  fa_timer : timer (Orientation_change w') = None;
  fa_sources : sources w' = sources w;
  fa_next_source : next_source w' = next_source w;
  fa_next_timeline : next_timeline w' = S (next_timeline w);
  fa_next_data : next_data w' = S (next_data w);
  fa_started : exists tl x,
    timelines w' (next_timeline w) = Some tl /\ tl_running tl = true
    /\ tl_new_frame tl = Some (OnRotateScreen, next_data w)
    /\ tl_completed tl = Some (next_data w) /\ tl_finished_fsm tl = true
    /\ effects w' (next_data w) = Some x /\ timeline x = Some (next_timeline w)
    /\ angle x = rotation_angle w first_part
                   (is_goto_portrait (new_direction (Orientation_change w))) }.

(** The machine has reconfigured the screen and waits for the damage to
    settle. *)
Record Armed (w w' : World) : Prop := mkArmed {
  ar_phase : phase (Orientation_change w') = WAITING;
  ar_timeout_id : timeout_id (Orientation_change w') = next_source w;
  ar_timer : timer (Orientation_change w') = Some (now w);
  ar_sources : sources w'
               = (next_source w, (now w + damage_timeout w * 1000)%Z) :: sources w;
  ar_next_source : next_source w' = S (next_source w);
  ar_next_timeline : next_timeline w' = next_timeline w;
  ar_next_data : next_data w' = next_data w;
  ar_call : exists l, log w' = l ++ log w
    /\ In (CChangeScreenOrientation (wm (Orientation_change w))
             (is_goto_portrait (new_direction (Orientation_change w)))) l }.

(** The machine is back in IDLE. *)
Record Rested (w w' : World) : Prop := mkRested {
  re_phase : phase (Orientation_change w') = IDLE;
  re_timeout_id : timeout_id (Orientation_change w') = 0%nat;
  re_timer : timer (Orientation_change w') = None;
  re_sources : sources w' = sources w;
  re_next_source : next_source w' = next_source w;
  re_next_timeline : next_timeline w' = next_timeline w;
  re_next_data : next_data w' = next_data w }.

(** What one call of the machine does, by the phase it finds and by
    whether [direction] is the requested one. *)
Definition Ran (w w' : World) : Prop :=
  let oc := Orientation_change w in
  let nd := new_direction oc in
  let d := direction oc in
  match phase oc, direction_eqb d nd with
  | IDLE, _ =>
    Fading w w' FADE_OUT true /\ Machine w w' [(IDLE, nd, d)] 0
  | FADE_OUT, true =>
    Armed w w' /\ Machine w w' [(FADE_OUT, nd, d)] 1
  | FADE_OUT, false =>
    Fading w w' FADE_IN false /\ Machine w w' [(FADE_OUT, nd, d)] 0
  | WAITING, true =>
    Fading w w' FADE_IN false /\ Machine w w' [(WAITING, nd, d)] 0
  | WAITING, false =>
    Armed w w' /\ Machine w w' [(WAITING, nd, d); (FADE_OUT, nd, nd)] 1
  | FADE_IN, true =>
    Rested w w' /\ Machine w w' [(FADE_IN, nd, d)] 0
  | FADE_IN, false =>
    Fading w w' FADE_OUT true /\ Machine w w' [(FADE_IN, nd, d); (IDLE, nd, d)] 0
  end.

(** Two states of an actor that differ in parent and reference count at
    most. *)
Definition same_looks (a b : Actor) : Prop :=
  is_actor a = is_actor b /\ is_container a = is_container b
  /\ a_visible a = a_visible b
  /\ a_x a = a_x b /\ a_y a = a_y b
  /\ a_width a = a_width b /\ a_height a = a_height b
  /\ a_anchor_x a = a_anchor_x b /\ a_anchor_y a = a_anchor_y b
  /\ a_opacity a = a_opacity b
  /\ a_scale_x a = a_scale_x b /\ a_scale_y a = a_scale_y b
  /\ a_rotation a = a_rotation b /\ a_depth a = a_depth b.
(** * Properties *)

(** ** Numbers *)

Lemma Rabs_le_between (a b : R) : Rabs a <= b -> - b <= a <= b.
Proof. unfold Rabs. destruct (Rcase_abs a); lra. Qed.

Lemma bpow_pos (e : Z) : 0 < bpow e.
Proof. apply powerRZ_lt. lra. Qed.

Lemma bpow_add (a b : Z) : bpow (a + b) = bpow a * bpow b.
Proof. apply powerRZ_add. lra. Qed.


Lemma bpow_0 : bpow 0 = 1.
Proof. reflexivity. Qed.

Lemma bpow_cancel (g : Z) : bpow g * bpow (- g) = 1.
Proof. rewrite <- bpow_add. replace (g + - g)%Z with 0%Z by lia. reflexivity. Qed.

Lemma bpow_nonneg_IZR (k : Z) : (0 <= k)%Z -> bpow k = IZR (2 ^ k).
Proof.
  intros H. unfold bpow.
  rewrite <- (Z2Nat.id k H) at 1.
  rewrite <- pow_powerRZ, pow_IZR, Z2Nat.id by exact H. reflexivity.
Qed.

Lemma bpow_ge_1 (k : Z) : (0 <= k)%Z -> 1 <= bpow k.
Proof.
  intros H. rewrite (bpow_nonneg_IZR k H). apply IZR_le.
  pose proof (Z.pow_pos_nonneg 2 k). lia.
Qed.

Lemma bpow_le (a b : Z) : (a <= b)%Z -> bpow a <= bpow b.
Proof.
  intros H. replace b with (a + (b - a))%Z by lia. rewrite bpow_add.
  pose proof (bpow_pos a).
  assert (1 <= bpow (b - a)) by (apply bpow_ge_1; lia). nra.
Qed.

Lemma Znearest_even_cases (t : R) :
  Znearest_even t = Zfloor t \/ Znearest_even t = (Zfloor t + 1)%Z.
Proof.
  unfold Znearest_even.
  destruct (Rlt_dec _ _); [now left|].
  destruct (Rlt_dec _ _); [now right|].
  destruct (Z.even _); [now left | now right].
Qed.

Lemma Znearest_even_err (t : R) : Rabs (IZR (Znearest_even t) - t) <= 1 / 2.
Proof.
  pose proof (Zfloor_bound t) as [H1 H2].
  unfold Znearest_even.
  destruct (Rlt_dec _ _) as [Ha|Ha].
  - apply Rabs_le. lra.
  - destruct (Rlt_dec _ _) as [Hb|Hb].
    + rewrite plus_IZR. apply Rabs_le. lra.
    + destruct (Z.even _); [|rewrite plus_IZR]; apply Rabs_le; lra.
Qed.

Lemma Znearest_even_IZR (z : Z) : Znearest_even (IZR z) = z.
Proof.
  unfold Znearest_even. rewrite ZfloorZ.
  destruct (Rlt_dec _ _) as [Ha|Ha]; [reflexivity|]. lra.
Qed.

Lemma Znearest_even_le (x y : R) :
  x <= y -> (Znearest_even x <= Znearest_even y)%Z.
Proof.
  intros H.
  pose proof (Zfloor_le x y H) as Hf.
  destruct (Z.eq_dec (Zfloor x) (Zfloor y)) as [E|E].
  - unfold Znearest_even. rewrite <- E.
    set (f := Zfloor x).
    destruct (Rlt_dec (x - IZR f) (1 / 2)), (Rlt_dec (y - IZR f) (1 / 2)),
             (Rlt_dec (1 / 2) (x - IZR f)), (Rlt_dec (1 / 2) (y - IZR f)),
             (Z.even f); try lia; lra.
  - destruct (Znearest_even_cases x) as [-> | ->],
             (Znearest_even_cases y) as [-> | ->]; lia.
Qed.

Lemma Znearest_even_opp (t : R) : Znearest_even (- t) = (- Znearest_even t)%Z.
Proof.
  pose proof (Zfloor_bound t) as [H1 H2].
  destruct (Req_dec t (IZR (Zfloor t))) as [E|E].
  - clear H1 H2. revert E. generalize (Zfloor t). intros z ->.
    rewrite <- opp_IZR, !Znearest_even_IZR. reflexivity.
  - assert (Hf : Zfloor (- t) = (- Zfloor t - 1)%Z).
    { apply Zfloor_eq. rewrite minus_IZR, opp_IZR. lra. }
    unfold Znearest_even. rewrite Hf, minus_IZR, opp_IZR.
    replace (Z.even (- Zfloor t - 1)) with (negb (Z.even (Zfloor t))).
    2:{ replace (- Zfloor t - 1)%Z with (- (Zfloor t + 1))%Z by lia.
        rewrite Z.even_opp, Z.add_1_r, Z.even_succ, Z.negb_even. reflexivity. }
    set (f := Zfloor t) in *.
    destruct (Rlt_dec (- t - (- IZR f - 1)) (1 / 2)), (Rlt_dec (t - IZR f) (1 / 2)),
             (Rlt_dec (1 / 2) (- t - (- IZR f - 1))), (Rlt_dec (1 / 2) (t - IZR f)),
             (Z.even f); simpl; try lia; lra.
Qed.

Lemma rnd_at_le (g : Z) (x y : R) : x <= y -> rnd_at g x <= rnd_at g y.
Proof.
  intros H. unfold rnd_at.
  pose proof (bpow_pos g). pose proof (bpow_pos (- g)).
  apply Rmult_le_compat_r; [lra|].
  apply IZR_le, Znearest_even_le. nra.
Qed.

(** A multiple of a grid step, on a grid at least as fine, is kept. *)
Lemma rnd_at_multiple (g e m : Z) :
  (g <= e)%Z -> rnd_at g (IZR m * bpow e) = IZR m * bpow e.
Proof.
  intros H. unfold rnd_at.
  replace (IZR m * bpow e * bpow (- g)) with (IZR (m * 2 ^ (e - g))).
  - rewrite Znearest_even_IZR, mult_IZR, <- bpow_nonneg_IZR by lia.
    rewrite Rmult_assoc, <- bpow_add. f_equal. f_equal. lia.
  - rewrite mult_IZR, <- bpow_nonneg_IZR by lia.
    rewrite Rmult_assoc, <- bpow_add. f_equal.
Qed.

Lemma rnd_at_opp (g : Z) (x : R) : rnd_at g (- x) = - rnd_at g x.
Proof.
  unfold rnd_at.
  replace (- x * bpow (- g)) with (- (x * bpow (- g))) by ring.
  rewrite Znearest_even_opp, opp_IZR. ring.
Qed.

Lemma rnd_at_err (g : Z) (x : R) : Rabs (rnd_at g x - x) <= bpow g / 2.
Proof.
  unfold rnd_at.
  pose proof (Znearest_even_err (x * bpow (- g))) as He.
  pose proof (bpow_pos g) as Hg.
  replace (IZR (Znearest_even (x * bpow (- g))) * bpow g - x)
    with ((IZR (Znearest_even (x * bpow (- g))) - x * bpow (- g)) * bpow g).
  - rewrite Rabs_mult, (Rabs_pos_eq (bpow g)) by lra. nra.
  - rewrite Rmult_minus_distr_r, Rmult_assoc, (Rmult_comm (bpow (- g))),
      bpow_cancel. ring.
Qed.

Lemma grid_from_range (n : nat) (prec g : Z) (a : R) :
  (g <= grid_from n prec g a <= g + Z.of_nat n)%Z.
Proof.
  revert g. induction n as [|n IH]; intros g; simpl grid_from.
  - lia.
  - destruct (Rlt_dec a (bpow (g + prec))); [lia|].
    specialize (IH (g + 1)%Z). lia.
Qed.

Lemma grid_from_below (n : nat) (prec g : Z) (a : R) :
  (grid_from n prec g a < g + Z.of_nat n)%Z ->
  a < bpow (grid_from n prec g a + prec).
Proof.
  revert g. induction n as [|n IH]; intros g; simpl grid_from.
  - lia.
  - destruct (Rlt_dec a (bpow (g + prec))); [tauto|].
    intros H. apply IH. lia.
Qed.

Lemma grid_from_above (n : nat) (prec g : Z) (a : R) :
  (g < grid_from n prec g a)%Z ->
  bpow (grid_from n prec g a - 1 + prec) <= a.
Proof.
  revert g. induction n as [|n IH]; intros g; simpl grid_from.
  - lia.
  - destruct (Rlt_dec a (bpow (g + prec))) as [Hl|Hl]; [lia|].
    intros H.
    destruct (Z.eq_dec (grid_from n prec (g + 1) a) (g + 1)) as [E|E].
    + rewrite E. replace (g + 1 - 1 + prec)%Z with (g + prec)%Z by lia. lra.
    + apply IH. pose proof (grid_from_range n prec (g + 1) a). lia.
Qed.

Lemma grid_from_le (n : nat) (prec g : Z) (a b : R) :
  a <= b -> (grid_from n prec g a <= grid_from n prec g b)%Z.
Proof.
  intros H. revert g. induction n as [|n IH]; intros g; simpl grid_from.
  - lia.
  - destruct (Rlt_dec a (bpow (g + prec))), (Rlt_dec b (bpow (g + prec))).
    + lia.
    + pose proof (grid_from_range n prec (g + 1) b). lia.
    + lra.
    + apply IH.
Qed.

Section Rounding.

Variable f : Format.
Hypothesis Hprec : (0 < f_prec f)%Z.
Hypothesis Hspan : (f_emin f <= f_emax f)%Z.

Lemma grid_range (a : R) : (f_emin f <= grid f a <= f_emax f)%Z.
Proof.
  unfold grid.
  pose proof (grid_from_range (Z.to_nat (f_emax f - f_emin f)) (f_prec f)
                              (f_emin f) a). lia.
Qed.

Lemma grid_below (a : R) :
  (grid f a < f_emax f)%Z -> a < bpow (grid f a + f_prec f).
Proof. unfold grid. intros H. apply grid_from_below. lia. Qed.

Lemma grid_above (a : R) :
  (f_emin f < grid f a)%Z -> bpow (grid f a - 1 + f_prec f) <= a.
Proof. unfold grid. apply grid_from_above. Qed.

Lemma grid_le (a b : R) : a <= b -> (grid f a <= grid f b)%Z.
Proof. unfold grid. apply grid_from_le. Qed.

Lemma grid_upper (a : R) (g0 : Z) :
  (f_emin f <= g0)%Z -> a < bpow (g0 + f_prec f) -> (grid f a <= g0)%Z.
Proof.
  intros Hg Ha.
  destruct (Z_le_gt_dec (grid f a) g0) as [H|H]; [exact H|].
  assert (Hb : bpow (grid f a - 1 + f_prec f) <= a) by (apply grid_above; lia).
  assert (bpow (g0 + f_prec f) <= bpow (grid f a - 1 + f_prec f))
    by (apply bpow_le; lia).
  lra.
Qed.

Lemma grid_lower (a : R) (g0 : Z) :
  (g0 <= f_emax f)%Z -> bpow (g0 - 1 + f_prec f) <= a -> (g0 <= grid f a)%Z.
Proof.
  intros Hg Ha.
  destruct (Z_le_gt_dec g0 (grid f a)) as [H|H]; [exact H|].
  assert (Hb : a < bpow (grid f a + f_prec f)) by (apply grid_below; lia).
  assert (bpow (grid f a + f_prec f) <= bpow (g0 - 1 + f_prec f))
    by (apply bpow_le; lia).
  lra.
Qed.

(** Every [m * 2^e] with [|m| < 2^prec] above the finest grid is a value
    of the format. *)
Lemma rnd_exact (m e : Z) :
  (f_emin f <= e)%Z -> (Z.abs m < 2 ^ f_prec f)%Z ->
  rnd f (IZR m * bpow e) = IZR m * bpow e.
Proof.
  intros He Hm. unfold rnd. apply rnd_at_multiple, grid_upper; [exact He|].
  pose proof (bpow_pos e) as Hp.
  rewrite Rabs_mult, (Rabs_pos_eq (bpow e)) by lra.
  rewrite Z.add_comm, bpow_add, (bpow_nonneg_IZR (f_prec f)) by lia.
  rewrite <- abs_IZR. apply Rmult_lt_compat_r; [exact Hp|].
  apply IZR_lt. exact Hm.
Qed.

Lemma rnd_opp (x : R) : rnd f (- x) = - rnd f x.
Proof. unfold rnd. rewrite Rabs_Ropp. apply rnd_at_opp. Qed.

Lemma rnd_0 : rnd f 0 = 0.
Proof.
  replace 0 with (IZR 0 * bpow (f_emin f)) by (simpl; ring).
  apply rnd_exact; [lia|]. simpl. apply Z.pow_pos_nonneg; lia.
Qed.

Lemma rnd_le_nonneg (x y : R) : 0 <= x -> x <= y -> rnd f x <= rnd f y.
Proof.
  intros H0 H. unfold rnd.
  rewrite (Rabs_pos_eq x), (Rabs_pos_eq y) by lra.
  pose proof (grid_le x y H) as Hg.
  pose proof (grid_range x) as Hx. pose proof (grid_range y) as Hy.
  destruct (Z.eq_dec (grid f x) (grid f y)) as [E|E].
  - rewrite E. now apply rnd_at_le.
  - set (B := bpow (grid f y - 1 + f_prec f)).
    assert (Hyb : B <= y) by (apply grid_above; lia).
    assert (Hxb : x <= B).
    { assert (x < bpow (grid f x + f_prec f)) by (apply grid_below; lia).
      assert (bpow (grid f x + f_prec f) <= B) by (apply bpow_le; lia).
      lra. }
    assert (HB : B = IZR 1 * bpow (grid f y - 1 + f_prec f)) by (unfold B; ring).
    apply Rle_trans with B.
    + rewrite <- (rnd_at_multiple (grid f x) (grid f y - 1 + f_prec f) 1) in HB
        by lia.
      rewrite HB. apply rnd_at_le. unfold B in *. lra.
    + rewrite <- (rnd_at_multiple (grid f y) (grid f y - 1 + f_prec f) 1) in HB
        by lia.
      rewrite HB. apply rnd_at_le. unfold B in *. lra.
Qed.

Lemma rnd_nonneg (x : R) : 0 <= x -> 0 <= rnd f x.
Proof. intros H. rewrite <- rnd_0. apply rnd_le_nonneg; lra. Qed.

(** Rounding keeps the order. *)
Lemma rnd_le (x y : R) : x <= y -> rnd f x <= rnd f y.
Proof.
  intros H. destruct (Rle_dec 0 x) as [Hx|Hx].
  - now apply rnd_le_nonneg.
  - destruct (Rle_dec 0 y) as [Hy|Hy].
    + apply Rle_trans with 0; [|now apply rnd_nonneg].
      assert (0 <= rnd f (- x)) by (apply rnd_nonneg; lra).
      rewrite rnd_opp in *. lra.
    + assert (rnd f (- y) <= rnd f (- x)) by (apply rnd_le_nonneg; lra).
      rewrite !rnd_opp in *. lra.
Qed.

(** The error is at most half a step of any grid that covers the value. *)
Lemma rnd_err (x : R) (g0 : Z) :
  (f_emin f <= g0)%Z -> Rabs x < bpow (g0 + f_prec f) ->
  Rabs (rnd f x - x) <= bpow g0 / 2.
Proof.
  intros Hg Hx. unfold rnd.
  pose proof (rnd_at_err (grid f (Rabs x)) x) as He.
  assert (bpow (grid f (Rabs x)) <= bpow g0)
    by (apply bpow_le, grid_upper; assumption).
  lra.
Qed.

(** A rounded value is a value of the format: rounding it again keeps it. *)
Lemma rnd_idem (x : R) : rnd f (rnd f x) = rnd f x.
Proof.
  pose proof (grid_range (Rabs x)) as Hg.
  set (g := grid f (Rabs x)) in *.
  assert (Hy : rnd f x = IZR (Znearest_even (x * bpow (- g))) * bpow g)
    by reflexivity.
  set (n := Znearest_even (x * bpow (- g))) in *.
  destruct (Z.eq_dec g (f_emax f)) as [Et|Et].
  - rewrite Hy. unfold rnd at 1. apply rnd_at_multiple.
    pose proof (grid_range (Rabs (IZR n * bpow g))). lia.
  - assert (Hx : Rabs x < bpow (g + f_prec f))
      by (apply grid_below; fold g; lia).
    set (B := bpow (g + f_prec f)) in *.
    assert (HB : rnd_at g B = B).
    { replace B with (IZR 1 * bpow (g + f_prec f)) by (unfold B; ring).
      apply rnd_at_multiple. lia. }
    apply Rabs_def2 in Hx. destruct Hx as [Hx1 Hx2].
    assert (Hu : rnd f x <= B).
    { rewrite <- HB. apply rnd_at_le. lra. }
    assert (Hl : - B <= rnd f x).
    { rewrite <- HB, <- rnd_at_opp. apply rnd_at_le. lra. }
    destruct (Req_dec (rnd f x) B) as [E1|N1].
    { rewrite E1. replace B with (IZR 1 * bpow (g + f_prec f)) by (unfold B; ring).
      apply rnd_exact; [lia|]. simpl. apply Z.pow_gt_1; lia. }
    destruct (Req_dec (rnd f x) (- B)) as [E2|N2].
    { rewrite E2.
      replace (- B) with (IZR (-1) * bpow (g + f_prec f)) by (unfold B; ring).
      apply rnd_exact; [lia|]. simpl. apply Z.pow_gt_1; lia. }
    rewrite Hy. unfold rnd at 1. apply rnd_at_multiple.
    apply grid_upper; [lia|]. rewrite <- Hy. fold B.
    apply Rabs_def1; lra.
Qed.

End Rounding.

(** ** The two formats of C *)

Lemma bpow_neg_IZR (k : Z) : (0 <= k)%Z -> bpow (- k) = / IZR (2 ^ k).
Proof.
  intros H. rewrite <- (bpow_nonneg_IZR k H).
  pose proof (bpow_cancel k). pose proof (bpow_pos k).
  apply Rmult_eq_reg_l with (bpow k); [|lra].
  rewrite Rinv_r by lra. assumption.
Qed.

Lemma fl_le (x y : R) : x <= y -> fl x <= fl y.
Proof. apply rnd_le; simpl; lia. Qed.

Lemma db_le (x y : R) : x <= y -> db x <= db y.
Proof. apply rnd_le; simpl; lia. Qed.

Lemma fl_0 : fl 0 = 0.
Proof. apply rnd_0; simpl; lia. Qed.

Lemma db_0 : db 0 = 0.
Proof. apply rnd_0; simpl; lia. Qed.

Lemma fl_opp (x : R) : fl (- x) = - fl x.
Proof. apply rnd_opp. Qed.

Lemma fl_idem (x : R) : fl (fl x) = fl x.
Proof. apply rnd_idem; simpl; lia. Qed.

(** A whole number below 2^24 in size is a [float]. *)
Lemma fl_IZR (z : Z) : (-16777216 < z < 16777216)%Z -> fl (IZR z) = IZR z.
Proof.
  intros H. replace (IZR z) with (IZR z * bpow 0) by (rewrite bpow_0; ring).
  apply rnd_exact; simpl; lia.
Qed.

(** A whole number below 2^53 in size is a [double]. *)
Lemma db_IZR (z : Z) :
  (-9007199254740992 < z < 9007199254740992)%Z -> db (IZR z) = IZR z.
Proof.
  intros H. replace (IZR z) with (IZR z * bpow 0) by (rewrite bpow_0; ring).
  apply rnd_exact; simpl; lia.
Qed.

Lemma fl_eighths (m : Z) : (-16777216 < m < 16777216)%Z -> fl (IZR m / 8) = IZR m / 8.
Proof.
  intros H.
  replace (IZR m / 8) with (IZR m * bpow (- 3))
    by (unfold bpow; simpl; lra).
  apply rnd_exact; simpl; lia.
Qed.

Lemma db_sixteenths (m : Z) :
  (-16777216 < m < 16777216)%Z -> db (IZR m / 16) = IZR m / 16.
Proof.
  intros H.
  replace (IZR m / 16) with (IZR m * bpow (- 4))
    by (unfold bpow; simpl; lra).
  apply rnd_exact; simpl; lia.
Qed.

Lemma fl_lower (z : Z) (y : R) :
  (-16777216 < z < 16777216)%Z -> IZR z <= y -> IZR z <= fl y.
Proof. intros Hz H. rewrite <- (fl_IZR z Hz). now apply fl_le. Qed.

Lemma fl_upper (z : Z) (y : R) :
  (-16777216 < z < 16777216)%Z -> y <= IZR z -> fl y <= IZR z.
Proof. intros Hz H. rewrite <- (fl_IZR z Hz). now apply fl_le. Qed.

Lemma db_lower_whole (z : Z) (y : R) :
  (-16777216 < z < 16777216)%Z -> IZR z <= y -> IZR z <= db y.
Proof. intros Hz H. rewrite <- (db_IZR z) by lia. now apply db_le. Qed.

Lemma db_upper_whole (z : Z) (y : R) :
  (-16777216 < z < 16777216)%Z -> y <= IZR z -> db y <= IZR z.
Proof. intros Hz H. rewrite <- (db_IZR z) by lia. now apply db_le. Qed.

Lemma db_lower (z : Z) (y : R) :
  (-16777216 < z < 16777216)%Z -> IZR z / 16 <= y -> IZR z / 16 <= db y.
Proof. intros Hz H. rewrite <- (db_sixteenths z Hz). now apply db_le. Qed.

Lemma db_upper (z : Z) (y : R) :
  (-16777216 < z < 16777216)%Z -> y <= IZR z / 16 -> db y <= IZR z / 16.
Proof. intros Hz H. rewrite <- (db_sixteenths z Hz). now apply db_le. Qed.

(** Just below one, a store to [float] gives one. *)
Lemma fl_near_one (y : R) : 1 - / 33554432 < y <= 1 -> fl y = 1.
Proof.
  intros [Hl Hu].
  destruct (Req_dec y 1) as [->|Hn]; [apply (fl_IZR 1); lia|].
  assert (Hg : grid binary32 (Rabs y) = (-24)%Z).
  { rewrite Rabs_pos_eq by lra. apply Z.le_antisymm.
    - apply grid_upper; [simpl; lia|]. simpl Z.add. rewrite bpow_0. lra.
    - apply grid_lower; [simpl; lia|]. simpl Z.add.
      unfold bpow; simpl. lra. }
  unfold fl, rnd. rewrite Hg. unfold rnd_at.
  change (- -24)%Z with 24%Z. change (-24)%Z with (- (24))%Z.
  rewrite (bpow_neg_IZR 24), (bpow_nonneg_IZR 24) by lia.
  change (2 ^ 24)%Z with 16777216%Z.
  pose proof (Znearest_even_err (y * 16777216)) as He.
  apply Rabs_le_between in He.
  assert (Hz : Znearest_even (y * 16777216) = 16777216%Z).
  { apply Z.le_antisymm.
    - apply Z.lt_succ_r, lt_IZR. simpl Z.succ. lra.
    - apply Z.lt_pred_le, lt_IZR. simpl Z.pred. lra. }
  rewrite Hz. lra.
Qed.

(** ** The real sine next to its top *)

Lemma PI_bounds : 31415 / 10000 < PI < 31417 / 10000.
Proof.
  pose proof (PI_2_3_7_ineq 2) as [Hl Hu].
  unfold sum_f_R0, tg_alt, PI_2_3_7_tg, Ratan_seq in Hl, Hu.
  simpl in Hl, Hu. lra.
Qed.

Lemma cos_small (t : R) : Rabs t <= 1 -> 1 - t * t / 2 <= cos t.
Proof.
  assert (Hp : forall u, 0 < u <= 1 -> 1 - u * u / 2 <= cos u).
  { intros u [H0 H1].
    replace u with (2 * (u / 2)) at 3 by field.
    rewrite cos_2a_sin.
    assert (Hs : sin (u / 2) < u / 2) by (apply sin_lt_x; lra).
    assert (Hg : 0 < sin (u / 2)).
    { apply sin_gt_0; [lra|]. pose proof PI_bounds. lra. }
    nra. }
  intros H. apply Rabs_le_between in H.
  destruct (Rtotal_order t 0) as [Hn|[->|Hq]].
  - rewrite cos_sym. replace (t * t) with (- t * - t) by ring.
    apply Hp. lra.
  - rewrite cos_0. lra.
  - apply Hp. lra.
Qed.

Lemma sin_near_half_pi (y : R) :
  15707 / 10000 <= y <= 15709 / 10000 -> 1 - 2 / 100000000 <= sin y.
Proof.
  intros H. pose proof PI_bounds as HP.
  rewrite <- cos_shift.
  assert (Ht : Rabs (PI / 2 - y) <= 2 / 10000) by (apply Rabs_le; lra).
  pose proof (cos_small (PI / 2 - y)) as Hc.
  assert (H1 : Rabs (PI / 2 - y) <= 1) by lra.
  specialize (Hc H1). apply Rabs_le_between in Ht. nra.
Qed.

(** ** The cast to [int] *)

Lemma truncate_IZR (z : Z) : truncate (IZR z) = z.
Proof.
  unfold truncate. destruct (Rle_dec 0 (IZR z)).
  - apply ZfloorZ.
  - apply Zceil_eq. lra.
Qed.

Lemma c_int_IZR (z : Z) :
  (-2147483648 <= z <= 2147483647)%Z -> c_int (IZR z) = z.
Proof.
  intros H. unfold c_int. rewrite truncate_IZR.
  unfold INT_MIN, INT_MAX.
  destruct (Z.leb_spec (-2147483648) z), (Z.leb_spec z 2147483647);
    simpl; lia.
Qed.

Lemma c_int_small (x : R) : -1 < x < 1 -> c_int x = 0%Z.
Proof.
  intros [Hl Hu]. unfold c_int.
  assert (Ht : truncate x = 0%Z).
  { unfold truncate. destruct (Rle_dec 0 x) as [H0|H0].
    - apply Zfloor_eq. simpl. lra.
    - apply Zceil_eq. simpl. lra. }
  rewrite Ht. reflexivity.
Qed.

Lemma c_guint_IZR (z : Z) : (0 <= z < 4294967296)%Z -> c_guint (IZR z) = z.
Proof.
  intros H. unfold c_guint. rewrite truncate_IZR. now apply Z.mod_small.
Qed.

(** A value too large for [int] comes out as [INT_MIN]. *)
Lemma c_int_overflow (z : Z) :
  (z < -2147483648 \/ 2147483647 < z)%Z -> c_int (IZR z) = INT_MIN.
Proof.
  intros H. unfold c_int. rewrite truncate_IZR.
  unfold INT_MIN, INT_MAX.
  destruct (Z.leb_spec (-2147483648) z), (Z.leb_spec z 2147483647);
    simpl; lia.
Qed.

(** ** The library taken for the concrete runs *)

Lemma nearest_libm_ok : libm_ok nearest_libm.
Proof.
  constructor; simpl.
  - rewrite cos_0. apply (db_IZR 1). lia.
  - intros y. pose proof (SIN_bound y) as [H1 H2]. split.
    + rewrite <- (db_IZR (-1)) by lia. now apply db_le.
    + rewrite <- (db_IZR 1) by lia. now apply db_le.
  - intros y. pose proof (COS_bound y) as [H1 H2]. split.
    + rewrite <- (db_IZR (-1)) by lia. now apply db_le.
    + rewrite <- (db_IZR 1) by lia. now apply db_le.
  - intros y. pose proof (SIN_bound y) as [H1 H2].
    assert (He : Rabs (db (sin y) - sin y) <= bpow (-52) / 2).
    { apply rnd_err; simpl; try lia.
      unfold bpow; simpl. apply Rabs_def1; lra. }
    unfold bpow in He; simpl in He. lra.
Qed.


(** ** Easing *)

Lemma in_unit_open_spec (amt : R) :
  in_unit_open amt = true <-> 0 < amt < 1.
Proof.
  unfold in_unit_open.
  destruct (Rlt_dec 0 amt), (Rlt_dec amt 1); split; intros; try lra;
    try discriminate; reflexivity.
Qed.

Lemma in_unit_open_false (amt : R) :
  ~ (0 < amt < 1) -> in_unit_open amt = false.
Proof.
  intros H. destruct (in_unit_open amt) eqn:Eq; [|reflexivity].
  apply in_unit_open_spec in Eq. contradiction.
Qed.

Lemma smooth_ramp_outside (x : R) :
  ~ (0 < x < 1) -> hd_transition_smooth_ramp x = x.
Proof.
  intros H. unfold hd_transition_smooth_ramp.
  now rewrite (in_unit_open_false x H).
Qed.

Lemma ease_in_outside (x : R) :
  ~ (0 < x < 1) -> hd_transition_ease_in x = x.
Proof.
  intros H. unfold hd_transition_ease_in.
  now rewrite (in_unit_open_false x H).
Qed.

Lemma ease_out_outside (x : R) :
  ~ (0 < x < 1) -> hd_transition_ease_out x = x.
Proof.
  intros H. unfold hd_transition_ease_out.
  now rewrite (in_unit_open_false x H).
Qed.



(** The [double] handed to [sin] when the fraction is zero stays next to
    1.570796. *)
Lemma converge_argument :
  15707 / 10000 <= db (db (0.5 * db pi_lit) * 1) <= 15709 / 10000.
Proof.
  assert (H1 : Rabs (db pi_lit - pi_lit) <= bpow (-51) / 2).
  { apply rnd_err; simpl; try lia.
    unfold bpow, pi_lit; simpl. apply Rabs_def1; lra. }
  apply Rabs_le_between in H1.
  set (p := db pi_lit) in *.
  unfold bpow in H1; simpl in H1. unfold pi_lit in H1.
  assert (H2 : Rabs (db (0.5 * p) - 0.5 * p) <= bpow (-52) / 2).
  { apply rnd_err; simpl; try lia.
    unfold bpow; simpl. apply Rabs_def1; lra. }
  apply Rabs_le_between in H2.
  unfold bpow in H2; simpl in H2.
  set (h := db (0.5 * p)) in *.
  assert (H3 : Rabs (db (h * 1) - h * 1) <= bpow (-52) / 2).
  { apply rnd_err; simpl; try lia.
    unfold bpow; simpl. apply Rabs_def1; lra. }
  apply Rabs_le_between in H3.
  unfold bpow in H3; simpl in H3.
  lra.
Qed.

(** With the fraction at zero, [converge] is stored as exactly one. *)
Lemma converge_at_rest (L : Libm) :
  libm_ok L -> fl (m_sin L (db (db (0.5 * db pi_lit) * 1))) = 1.
Proof.
  intros HL. apply fl_near_one.
  set (y := db (db (0.5 * db pi_lit) * 1)).
  pose proof (sin_near_half_pi y converge_argument) as Hs.
  pose proof (sin_close L HL y) as Hc. apply Rabs_le_between in Hc.
  pose proof (sin_range L HL y) as [_ Hu].
  lra.
Qed.

(** On a whole number that a [float] holds and an [int] takes, the
    fraction is zero and the number comes back. *)
Lemma overshoot_whole (L : Libm) (z : Z) :
  libm_ok L -> (-16777216 < z < 16777216)%Z ->
  hd_transition_overshoot L (IZR z) = IZR z.
Proof.
  intros HL Hz. unfold hd_transition_overshoot.
  rewrite c_int_IZR by lia.
  rewrite (fl_IZR z Hz).
  replace (IZR z - IZR z) with 0 by ring.
  rewrite fl_0, Rmult_0_l, db_0, (cos_zero L HL).
  replace (1 - 1) with 0 by ring. rewrite db_0, fl_0.
  replace (1 - 0) with 1 by ring. rewrite (fl_IZR 1) by lia.
  rewrite (converge_at_rest L HL).
  rewrite Rmult_0_l, db_0, Rmult_0_l, db_0, Rplus_0_r.
  replace (1 - 1) with 0 by ring. rewrite fl_0, Rplus_0_r.
  rewrite !db_IZR by lia. apply fl_IZR, Hz.
Qed.

(** While the integer part is zero the result cannot go below -3/8. *)
Lemma overshoot_floor (L : Libm) (x : R) :
  libm_ok L -> -1 < x < 1 -> -3 / 8 <= hd_transition_overshoot L x.
Proof.
  intros HL Hx. unfold hd_transition_overshoot.
  rewrite (c_int_small x Hx).
  set (amt := fl (x - fl 0)).
  set (sr := fl (db (1 - m_cos L (db (amt * db pi_lit))))).
  set (cv := fl (m_sin L (db (db (0.5 * db pi_lit) * fl (1 - amt))))).
  assert (Hsr : 0 <= sr <= 2).
  { pose proof (cos_range L HL (db (amt * db pi_lit))) as [Hc1 Hc2].
    unfold sr. split.
    - apply (fl_lower 0); [lia|]. apply (db_lower_whole 0); [lia|]. lra.
    - apply (fl_upper 2); [lia|]. apply (db_upper_whole 2); [lia|]. lra. }
  assert (Hcv : -1 <= cv <= 1).
  { pose proof (sin_range L HL (db (db (0.5 * db pi_lit) * fl (1 - amt))))
      as [Hs1 Hs2].
    unfold cv. split.
    - apply (fl_lower (-1)); [lia|]. exact Hs1.
    - apply (fl_upper 1); [lia|]. exact Hs2. }
  assert (Hk : 0 <= db 0.675 <= 11 / 16).
  { split.
    - apply (db_lower_whole 0); [lia|]. lra.
    - apply (db_upper 11); [lia|]. lra. }
  set (k := db 0.675) in *.
  assert (Hp : 0 <= db (sr * k) <= 22 / 16).
  { split.
    - apply (db_lower_whole 0); [lia|]. nra.
    - apply (db_upper 22); [lia|]. nra. }
  set (p := db (sr * k)) in *.
  assert (Hr : 0 <= fl (1 - cv)).
  { apply (fl_lower 0); [lia|]. lra. }
  simpl (IZR 0).
  destruct (Rle_dec 0 cv) as [Hpos|Hneg].
  - assert (Hq : 0 <= db (p * cv)).
    { apply (db_lower_whole 0); [lia|]. nra. }
    assert (Hs : 0 <= db (0 + db (p * cv))).
    { apply (db_lower_whole 0); [lia|]. lra. }
    assert (Ht : 0 <= db (db (0 + db (p * cv)) + fl (1 - cv))).
    { apply (db_lower_whole 0); [lia|]. lra. }
    apply Rle_trans with 0; [lra|].
    apply (fl_lower 0); [lia|]. lra.
  - assert (Hq : (-22) / 16 <= db (p * cv)).
    { apply (db_lower (-22)); [lia|]. nra. }
    assert (Hs : (-22) / 16 <= db (0 + db (p * cv))).
    { apply (db_lower (-22)); [lia|]. lra. }
    assert (Hr1 : 1 <= fl (1 - cv)).
    { apply (fl_lower 1); [lia|]. lra. }
    assert (Ht : (-6) / 16 <= db (db (0 + db (p * cv)) + fl (1 - cv))).
    { apply (db_lower (-6)); [lia|]. lra. }
    replace (-3 / 8) with (IZR (-3) / 8) by lra.
    rewrite <- (fl_eighths (-3)) by lia. apply fl_le. lra.
Qed.

(** C8, as the spec words it, fails: [hd_transition_overshoot] has no guard.
    At -1/2, which lies outside (0,1), the integer part is zero and the
    result is at least -3/8, with the library that rounds to nearest and
    with any other that meets [libm_ok]. *)
Lemma C8_overshoot_moves_outside_point :
  ~ (0 < -1/2 < 1)
  /\ hd_transition_overshoot nearest_libm (-1/2) <> -1/2
  /\ (forall L, libm_ok L -> hd_transition_overshoot L (-1/2) <> -1/2).
Proof.
  assert (Hg : forall L, libm_ok L -> hd_transition_overshoot L (-1/2) <> -1/2).
  { intros L HL. pose proof (overshoot_floor L (-1/2) HL) as H.
    assert (Hx : -1 < -1/2 < 1) by lra. specialize (H Hx). lra. }
  split; [lra|]. split; [|exact Hg].
  apply Hg, nearest_libm_ok.
Qed.

(** C8 (amended): the four easing functions are functions of their
    argument alone (overshoot also of the C library's sin and cos); none
    reads or writes the world.  Outside the open interval (0,1) the three
    guarded ones, smooth_ramp, ease_in and ease_out, return their argument
    unchanged.  overshoot has no guard.  At the boundary frames 0 and 1, and
    at every whole number below 2^24 in size, its fraction is zero,
    [converge] is stored as exactly 1.0f, and it returns its argument
    unchanged; beyond them it does not: for -1 < x < -3/8 the result is at
    least -3/8, hence not x. *)
Theorem C8_easing_outside_unit_interval (x : R) (H : ~ (0 < x < 1)) :
  hd_transition_smooth_ramp x = x
  /\ hd_transition_ease_in x = x
  /\ hd_transition_ease_out x = x
  /\ (forall L, libm_ok L ->
      forall z : Z, x = IZR z -> (-16777216 < z < 16777216)%Z ->
      hd_transition_overshoot L x = x)
  /\ (forall L, libm_ok L -> -1 < x < -3/8 ->
      -3/8 <= hd_transition_overshoot L x
      /\ hd_transition_overshoot L x <> x).
Proof.
  split; [now apply smooth_ramp_outside|].
  split; [now apply ease_in_outside|].
  split; [now apply ease_out_outside|].
  split.
  - intros L HL z -> Hz. now apply overshoot_whole.
  - intros L HL Hx.
    assert (Hf : -3/8 <= hd_transition_overshoot L x)
      by (apply overshoot_floor; [exact HL | lra]).
    split; [exact Hf | lra].
Qed.

Lemma C8_easing_outside_unit_interval_witness :
  ~ (0 < 1 < 1)
  /\ hd_transition_smooth_ramp 1 = 1
  /\ hd_transition_ease_in 1 = 1
  /\ hd_transition_ease_out 1 = 1
  /\ hd_transition_overshoot nearest_libm 1 = 1
  /\ ~ (0 < -1/2 < 1)
  /\ -3/8 <= hd_transition_overshoot nearest_libm (-1/2).
Proof.
  assert (H : ~ (0 < 1 < 1)) by lra.
  assert (H' : ~ (0 < -1/2 < 1)) by lra.
  destruct (C8_easing_outside_unit_interval 1 H) as (H1 & H2 & H3 & H4 & _).
  destruct (C8_easing_outside_unit_interval (-1/2) H') as (_ & _ & _ & _ & H5).
  assert (Hz : (-16777216 < 1 < 16777216)%Z) by lia.
  assert (Hx : -1 < -1/2 < -3/8) by lra.
  repeat split; try assumption.
  - exact (H4 nearest_libm nearest_libm_ok 1%Z eq_refl Hz).
  - exact (proj1 (H5 nearest_libm nearest_libm_ok Hx)).
Defined.
(** ** Stores and traces *)

Lemma upd_same {A} (f : nat -> A) k v : upd f k v k = v.
Proof. unfold upd. now rewrite Nat.eqb_refl. Qed.

Lemma upd_diff {A} (f : nat -> A) k v k' : k' <> k -> upd f k v k' = f k'.
Proof. unfold upd. intros H. apply Nat.eqb_neq in H. now rewrite H. Qed.

Lemma teardowns_app l m : teardowns (l ++ m) = teardowns l ++ teardowns m.
Proof.
  induction l as [|c l IH]; [reflexivity|]. simpl.
  destruct (teardown_of c); simpl; now rewrite IH.
Qed.

Lemma particle_releases_app l m :
  particle_releases (l ++ m) = particle_releases l ++ particle_releases m.
Proof.
  induction l as [|c l IH]; [reflexivity|].
  destruct c; simpl; now rewrite IH.
Qed.

Lemma screen_reconfigurations_app l m :
  screen_reconfigurations (l ++ m)
  = (screen_reconfigurations l + screen_reconfigurations m)%nat.
Proof.
  induction l as [|c l IH]; [reflexivity|].
  destruct c; simpl; now rewrite IH.
Qed.

Lemma fsm_entries_app l m : fsm_entries (l ++ m) = fsm_entries m ++ fsm_entries l.
Proof.
  induction l as [|c l IH]; simpl.
  - now rewrite app_nil_r.
  - destruct c; simpl; rewrite ?IH, ?app_assoc; reflexivity.
Qed.

Lemma effect_running_decrements_app l m :
  effect_running_decrements (l ++ m)
  = (effect_running_decrements l + effect_running_decrements m)%nat.
Proof.
  induction l as [|c l IH]; [reflexivity|].
  destruct c as [| | | | | |[|]| | | | | | |]; simpl; now rewrite IH.
Qed.

Lemma new_frames_app l m : new_frames (l ++ m) = new_frames l ++ new_frames m.
Proof.
  induction l as [|c l IH]; [reflexivity|].
  destruct c; simpl; now rewrite IH.
Qed.

Lemma quiet_nil : quiet [].
Proof. repeat split. Qed.

Lemma quiet_app l m : quiet l -> quiet m -> quiet (l ++ m).
Proof.
  intros (A1 & A2 & A3 & A4 & A5) (B1 & B2 & B3 & B4 & B5).
  unfold quiet.
  rewrite teardowns_app, particle_releases_app, screen_reconfigurations_app,
    fsm_entries_app, effect_running_decrements_app.
  rewrite A1, A2, A3, A4, A5, B1, B2, B3, B4, B5. repeat split.
Qed.

Lemma silent_nil : silent [].
Proof. repeat split. Qed.

Lemma silent_app l m : silent l -> silent m -> silent (l ++ m).
Proof.
  intros (A1 & A2 & A3) (B1 & B2 & B3). unfold silent.
  rewrite teardowns_app, particle_releases_app, effect_running_decrements_app.
  rewrite A1, A2, A3, B1, B2, B3. repeat split.
Qed.

Lemma quiet_silent l : quiet l -> silent l.
Proof. intros (A1 & A2 & _ & _ & A5). repeat split; assumption. Qed.

Lemma new_calls_app w w' l : log w' = l ++ log w -> new_calls w w' = l.
Proof.
  intros H. unfold new_calls. rewrite H, length_app.
  replace (List.length l + List.length (log w) - List.length (log w))%nat
    with (List.length l) by lia.
  rewrite firstn_app, firstn_all, Nat.sub_diag. simpl. apply app_nil_r.
Qed.

Lemma same_env_refl w : same_env w w.
Proof. repeat split. Qed.

Lemma same_env_trans w1 w2 w3 : same_env w1 w2 -> same_env w2 w3 -> same_env w1 w3.
Proof.
  unfold same_env. intros (A1 & A2 & A3 & A4 & A5 & A6) (B1 & B2 & B3 & B4 & B5 & B6).
  repeat split; congruence.
Qed.

Lemma tl_same_refl a : tl_same a a.
Proof. destruct a; simpl; auto 10. Qed.

Lemma tl_same_trans a b c : tl_same a b -> tl_same b c -> tl_same a c.
Proof.
  destruct a, b, c; simpl; try tauto.
  intros (A1 & A2 & A3 & A4 & A5 & A6) (B1 & B2 & B3 & B4 & B5 & B6).
  repeat split; congruence.
Qed.

(** ** Running the code on an arbitrary world *)

Lemma on_timeline_ok t f w tl :
  timelines w t = Some tl ->
  on_timeline t f w = Ok (set_timelines (upd (timelines w) t (Some (f tl))) w).
Proof. intros H. unfold on_timeline, deref_timeline. now rewrite H. Qed.

Lemma call_frame_ok E h t k d w tl data :
  timelines w t = Some tl -> effects w d = Some data ->
  call_frame E h t k d w
  = Ok (emit (CNewFrame h d k) (set_actors (frame_callback E h w tl k data) w)).
Proof.
  intros H1 H2. unfold call_frame, deref_timeline, deref_data.
  now rewrite H1, H2.
Qed.

(** Reduce the field reads of a world built by field updates, and nothing
    else. *)
Ltac wsimpl :=
  cbn [clients actors effects timelines next_actor next_data next_timeline
       next_source effect_running Orientation_change stage_handlers sources now
       screen_width screen_height is_portrait rm_state texture_available
       transitions_ini log
       set_clients set_actors set_effects set_timelines set_next_actor
       set_next_data set_next_timeline set_next_source
       set_effect_running_counter set_oc set_stage_handlers set_sources set_log
       set_rm_state set_now set_external
       emit on_actors on_client on_oc store_data alloc_data alloc_actor
       set_client_effect mb_wm_comp_mgr_clutter_client_set_flags
       mb_wm_comp_mgr_clutter_client_unset_flags mb_wm_object_ref
       mb_wm_object_unref hd_comp_mgr_set_effect_running hd_transition_play_sound
       ref_opt_actor hide_opt_actor unref_opt_actor release_client
       hd_util_change_screen_orientation hd_render_manager_set_state
       hd_render_manager_restack g_timeout_add g_source_remove
       bind fst snd
       n_frames current_frame tl_running tl_refs tl_new_frame tl_completed
       tl_finished_fsm with_tl_running with_current_frame with_tl_refs
       with_tl_new_frame with_tl_completed with_tl_finished_fsm
       event timeline cclient cclient_actor cclient2 cclient2_actor hmgr geo
       angle particles with_particles with_geo with_cclient with_cclient2
       wm direction new_direction phase goto_state timeout_id timer
       effects_waiting with_wm with_direction with_new_direction with_phase
       with_goto_state with_timeout_id with_timer with_effects_waiting
       has_cm_client c_type_is_app app_stack_index app_is_leader c_actor
       c_flags effect c_refs with_effect with_flags with_c_refs].

Ltac wsimpl_in H :=
  cbn [clients actors effects timelines next_actor next_data next_timeline
       next_source effect_running Orientation_change stage_handlers sources now
       screen_width screen_height is_portrait rm_state texture_available
       transitions_ini log
       set_clients set_actors set_effects set_timelines set_next_actor
       set_next_data set_next_timeline set_next_source
       set_effect_running_counter set_oc set_stage_handlers set_sources set_log
       set_rm_state set_now set_external
       emit on_actors on_client on_oc store_data alloc_data alloc_actor
       set_client_effect mb_wm_comp_mgr_clutter_client_set_flags
       mb_wm_comp_mgr_clutter_client_unset_flags mb_wm_object_ref
       mb_wm_object_unref hd_comp_mgr_set_effect_running hd_transition_play_sound
       ref_opt_actor hide_opt_actor unref_opt_actor release_client
       hd_util_change_screen_orientation hd_render_manager_set_state
       hd_render_manager_restack g_timeout_add g_source_remove
       bind fst snd
       n_frames current_frame tl_running tl_refs tl_new_frame tl_completed
       tl_finished_fsm with_tl_running with_current_frame with_tl_refs
       with_tl_new_frame with_tl_completed with_tl_finished_fsm
       event timeline cclient cclient_actor cclient2 cclient2_actor hmgr geo
       angle particles with_particles with_geo with_cclient with_cclient2
       wm direction new_direction phase goto_state timeout_id timer
       effects_waiting with_wm with_direction with_new_direction with_phase
       with_goto_state with_timeout_id with_timer with_effects_waiting
       has_cm_client c_type_is_app app_stack_index app_is_leader c_actor
       c_flags effect c_refs with_effect with_flags with_c_refs] in H.

(** *** Stepping through the code

    The code is followed one binding at a time; every intermediate world
    is named and only its defining equation is kept. *)

Lemma returns_ret w (Q : World -> Prop) : Q w -> returns (Ok w) Q.
Proof. intros H. exists w. auto. Qed.

Lemma returns_bind m k (Q : World -> Prop) :
  returns m (fun w1 => returns (k w1) Q) -> returns (bind m k) Q.
Proof.
  intros (w1 & E1 & w2 & E2 & H). exists w2. split; [|exact H].
  rewrite E1. exact E2.
Qed.

Lemma returns_weaken m (Q Q' : World -> Prop) :
  returns m Q -> (forall w, Q w -> Q' w) -> returns m Q'.
Proof. intros (w1 & E1 & H) HQ. exists w1. auto. Qed.

Lemma returns_on_timeline t f w tl (Q : World -> Prop) :
  timelines w t = Some tl ->
  (forall w1, w1 = set_timelines (upd (timelines w) t (Some (f tl))) w -> Q w1) ->
  returns (on_timeline t f w) Q.
Proof.
  intros H HQ. eexists. split; [apply on_timeline_ok; exact H|].
  apply HQ. reflexivity.
Qed.

Lemma returns_call_frame E h t k d w tl data (Q : World -> Prop) :
  timelines w t = Some tl -> effects w d = Some data ->
  (forall w1,
     w1 = emit (CNewFrame h d k) (set_actors (frame_callback E h w tl k data) w) ->
     Q w1) ->
  returns (call_frame E h t k d w) Q.
Proof.
  intros H1 H2 HQ. eexists. split; [apply call_frame_ok; eassumption|].
  apply HQ. reflexivity.
Qed.

Lemma returns_let {A} (e : A) (b : A -> result World) (Q : World -> Prop) :
  (forall x, x = e -> returns (b x) Q) -> returns (let x := e in b x) Q.
Proof. intros H. apply H. reflexivity. Qed.

(** Read the fields of named worlds through the equations that define the
    worlds, the latest world first. *)
Ltac wchase :=
  repeat (wsimpl; rewrite ?upd_same;
          match goal with
          | H : ?x = _ |- context [?x] => is_var x; rewrite H
          | H : ?f ?x = _ |- context [?f ?x] =>
            is_var x; lazymatch type of x with World => rewrite H end
          | H : timelines ?x ?t = _ |- context [timelines ?x ?t] =>
            is_var x; rewrite H
          | H : effects ?x ?d = _ |- context [effects ?x ?d] =>
            is_var x; rewrite H
          end);
  wsimpl; rewrite ?upd_same.

Ltac field_fact := wchase; reflexivity.

Ltac step_on_timeline :=
  let wn := fresh "w" in
  let Hn := fresh "Hw" in
  eapply returns_on_timeline; [field_fact | intros wn Hn; cbv beta].

(** One step through the code at the head of a [returns] goal. *)
Ltac step :=
  lazymatch goal with
  | |- returns (Ok _) _ => apply returns_ret
  | |- returns (bind _ _) _ => apply returns_bind
  | |- returns (let x := ?e in @?b x) ?Q => change (returns (b e) Q); cbv beta
  | |- returns (match ?p with (_, _) => _ end) _ =>
    let a := fresh "a" in
    let wn := fresh "w" in
    let Hp := fresh "Hp" in
    let Ha := fresh "Ha" in
    let Hn := fresh "Hw" in
    destruct p as [a wn] eqn:Hp;
    unfold hd_transition_timeline_new, clutter_timeline_new_for_duration,
      alloc_data, alloc_actor, g_timeout_add in Hp;
    injection Hp as Ha Hn;
    symmetry in Ha; symmetry in Hn
  | |- returns (on_timeline _ _ _) _ => step_on_timeline
  | |- returns (timeline_ref _ _) _ => step_on_timeline
  | |- returns (timeline_unref _ _) _ => step_on_timeline
  | |- returns (connect_new_frame _ _ _ _) _ => step_on_timeline
  | |- returns (connect_completed _ _ _) _ => step_on_timeline
  | |- returns (connect_finished_fsm _ _) _ => step_on_timeline
  | |- returns (clutter_timeline_start _ _) _ => unfold clutter_timeline_start
  | |- returns (clutter_timeline_stop _ _) _ => unfold clutter_timeline_stop
  | |- returns (call_frame _ _ _ _ _ _) _ =>
    let wn := fresh "w" in
    let Hn := fresh "Hw" in
    eapply returns_call_frame; [field_fact | field_fact | intros wn Hn; cbv beta]
  end.

Ltac quiet_log :=
  match goal with
  | |- exists l, ?a = l ++ ?b /\ _ =>
    let rec strip x acc :=
      match x with
      | b => constr:(acc)
      | ?c :: ?r => strip r constr:(acc ++ [c])
      end in
    let l := strip a constr:(@nil Call) in
    exists l; split; [reflexivity | repeat split]
  end.

(** The fields of [Started] for a world named by [step]. *)
Ltac solve_started :=
  constructor;
  [ wchase; reflexivity
  | wchase; reflexivity
  | intros ?d; wchase; unfold upd; destruct (Nat.eqb d _); reflexivity
  | wchase; reflexivity
  | intros ?t ?Ht; wchase; rewrite ?upd_diff by exact Ht; reflexivity
  | wchase; eexists; repeat split
  | wchase; reflexivity
  | wchase; reflexivity
  | wchase; reflexivity
  | wchase; reflexivity
  | repeat split; wchase; reflexivity
  | wchase; quiet_log ].

Ltac clients_effect :=
  let c' := fresh "c'" in
  intros c'; wchase; unfold upd;
  repeat match goal with
         | |- context [Nat.eqb c' ?k] => destruct (Nat.eqb_spec c' k); [subst c'|]
         end; wsimpl; try reflexivity.

Lemma data_same_refl a : data_same a a.
Proof. destruct a; simpl; auto 10. Qed.

Lemma data_same_trans a b c : data_same a b -> data_same b c -> data_same a c.
Proof.
  destruct a, b, c; simpl; try tauto.
  intros (A1 & A2 & A3 & A4 & A5) (B1 & B2 & B3 & B4 & B5).
  repeat split; congruence.
Qed.

Lemma Frame_refl d w : Frame d w w.
Proof.
  constructor; try reflexivity; auto using same_env_refl, data_same_refl.
Qed.

Lemma Frame_trans d w1 w2 w3 : Frame d w1 w2 -> Frame d w2 w3 -> Frame d w1 w3.
Proof.
  intros [] []. constructor; try congruence.
  - eapply same_env_trans; eassumption.
  - intros d' Hd. rewrite fr_effects1, fr_effects0 by exact Hd. reflexivity.
  - eapply data_same_trans; eassumption.
Qed.

Lemma fold_left_Frame {A} d (f : World -> A -> World) (l : list A) :
  (forall w a, Frame d w (f w a)) -> forall w, Frame d w (fold_left f l w).
Proof.
  intros Hf. induction l as [|a l IH]; intros w; simpl.
  - apply Frame_refl.
  - eapply Frame_trans; [apply Hf | apply IH].
Qed.

Lemma fold_left_log {A} (P : list Call -> Prop) (f : World -> A -> World)
    (l : list A) :
  P [] -> (forall a b, P a -> P b -> P (a ++ b)) ->
  (forall w a, exists k, log (f w a) = k ++ log w /\ P k) ->
  forall w, exists k, log (fold_left f l w) = k ++ log w /\ P k.
Proof.
  intros Hnil Happ Hf. induction l as [|a l IH]; intros w; simpl.
  - exists []. auto.
  - destruct (Hf w a) as (k1 & E1 & P1).
    destruct (IH (f w a)) as (k2 & E2 & P2).
    exists (k2 ++ k1). rewrite E2, E1, app_assoc. auto.
Qed.

Lemma ref_opt_actor_eq a w :
  ref_opt_actor a w
  = on_actors (match a with Some x => g_object_ref x | None => fun A => A end) w.
Proof. destruct a, w; reflexivity. Qed.

Lemma hide_opt_actor_eq a w :
  hide_opt_actor a w
  = on_actors (match a with
               | Some x => fun A =>
                   clutter_actor_set_anchor_pointu x 0 0 (clutter_actor_hide x A)
               | None => fun A => A
               end) w.
Proof. destruct a, w; reflexivity. Qed.

Lemma unref_opt_actor_eq a w :
  unref_opt_actor a w
  = on_actors (match a with Some x => g_object_unref x | None => fun A => A end) w.
Proof. destruct a, w; reflexivity. Qed.
(** ** What starting a transition does *)

Section StartSpecs.

Variable E : Env.

Lemma c_actor_object_ref c w c' :
  c_actor (clients (mb_wm_object_ref c w) c') = c_actor (clients w c').
Proof.
  wsimpl. unfold upd. destruct (Nat.eqb c' c) eqn:Hc; [|reflexivity].
  apply Nat.eqb_eq in Hc. now subst.
Qed.

Lemma fade_and_rotate_started fp gp cb w :
  returns (hd_transition_fade_and_rotate E fp gp cb w) (fun w' => exists x,
    Started w w' OnRotateScreen cb x
    /\ cclient x = None /\ cclient2 x = None
    /\ event x = (if fp then MBWMCompMgrClientEventMap
                  else MBWMCompMgrClientEventUnmap)
    /\ angle x = rotation_angle w fp gp
    /\ (forall c, clients w' c = clients w c)
    /\ stage_handlers w' = stage_handlers w
    /\ log w' = [CTimelineStart (next_timeline w);
                 CNewFrame OnRotateScreen (next_data w) 0] ++ log w).
Proof.
  unfold hd_transition_fade_and_rotate. do 6 step.
  destruct cb; repeat step;
    (destruct (negb gp && fp); repeat step;
     (eexists; split; [solve_started|]);
     repeat split; try (wchase; reflexivity);
     unfold rotation_angle, hd_transition_get_double, hd_transition_get_keyfile;
     wchase; reflexivity).
Qed.

(** The popup transition: nothing without an actor, else a started effect
    whose first frame precedes the start of its timeline. *)
Lemma popup_spec mgr c ev w actor :
  c_actor (clients w c) = Some actor ->
  returns (hd_transition_popup E mgr c ev w) (fun w' => exists x,
    Started w w' OnPopup false x
    /\ cclient x = Some c /\ cclient2 x = None /\ event x = ev
    /\ (forall c', effect (clients w' c') = effect (clients w c'))
    /\ stage_handlers w' = stage_handlers w
    /\ log w' = [CTimelineStart (next_timeline w);
                 CNewFrame OnPopup (next_data w) 0;
                 CSetEffectRunning true] ++ log w).
Proof.
  intros Ha. unfold hd_transition_popup. rewrite Ha.
  repeat step.
  eexists; split; [solve_started|].
  repeat split; try (wchase; reflexivity). clients_effect.
Qed.

Lemma popup_without_actor mgr c ev w :
  c_actor (clients w c) = None -> hd_transition_popup E mgr c ev w = Ok w.
Proof. intros Ha. unfold hd_transition_popup. now rewrite Ha. Qed.

Lemma fade_spec mgr c ev w :
  returns (hd_transition_fade E mgr c ev w) (fun w' => exists x,
    Started w w' OnFade false x
    /\ cclient x = Some c /\ cclient2 x = None /\ event x = ev
    /\ cclient_actor x = c_actor (clients w c)
    /\ (forall c', effect (clients w' c') = effect (clients w c'))
    /\ stage_handlers w' = stage_handlers w
    /\ log w' = [CTimelineStart (next_timeline w);
                 CNewFrame OnFade (next_data w) 0;
                 CSetEffectRunning true] ++ log w).
Proof.
  unfold hd_transition_fade. rewrite c_actor_object_ref.
  destruct (c_actor (clients w c)) as [actor|]; cbn [ref_opt_actor];
    repeat step;
    (eexists; split; [solve_started|]);
    repeat split; try (wchase; reflexivity); clients_effect.
Qed.

Lemma notification_spec mgr c ev w :
  returns (hd_transition_notification E mgr c ev w) (fun w' => exists x,
    Started w w' OnNotification false x
    /\ cclient x = Some c /\ cclient2 x = None /\ event x = ev
    /\ cclient_actor x = c_actor (clients w c)
    /\ (forall c', effect (clients w' c') = effect (clients w c'))
    /\ stage_handlers w' = stage_handlers w
    /\ log w' = [CTimelineStart (next_timeline w);
                 CNewFrame OnNotification (next_data w) 0;
                 CSetEffectRunning true] ++ log w).
Proof.
  unfold hd_transition_notification. rewrite c_actor_object_ref.
  destruct (c_actor (clients w c)) as [actor|]; cbn [ref_opt_actor];
    repeat step;
    (eexists; split; [solve_started|]);
    repeat split; try (wchase; reflexivity); clients_effect.
Qed.

Lemma close_app_particle_Frame d parent w i :
  Frame d w (close_app_particle d parent w i)
  /\ log (close_app_particle d parent w i) = log w.
Proof.
  unfold close_app_particle, hd_clutter_cache_get_texture.
  destruct (texture_available w); wsimpl;
    destruct (effects w d) as [x|] eqn:Hx; wsimpl;
    (split; [|reflexivity]); constructor; wsimpl;
    try reflexivity; try (repeat split; fail);
    try (intros d' Hd; now rewrite ?upd_diff by exact Hd);
    rewrite ?upd_same, Hx; simpl; auto 10.
Qed.

Lemma close_app_particles_Frame d parent l w :
  Frame d w (fold_left (close_app_particle d parent) l w)
  /\ log (fold_left (close_app_particle d parent) l w) = log w.
Proof.
  revert w. induction l as [|i l IH]; intros w; simpl.
  - split; [apply Frame_refl | reflexivity].
  - destruct (IH (close_app_particle d parent w i)) as [F1 L1].
    destruct (close_app_particle_Frame d parent w i) as [F2 L2].
    split; [eapply Frame_trans; eassumption | congruence].
Qed.

(** The close-app transition, past its guards. *)
Lemma close_app_spec mgr c w actor :
  c_type_is_app (clients w c) = true ->
  (rm_state w =? HDRM_STATE_TASK_NAV E)%Z = false ->
  (0 <? app_stack_index (clients w c))%Z && negb (app_is_leader (clients w c)) = false ->
  c_actor (clients w c) = Some actor ->
  a_visible (actors w actor) = true ->
  (geo_width (clutter_actor_get_geometry E (actors w actor)) <? 16)%Z
  || (geo_height (clutter_actor_get_geometry E (actors w actor)) <? 16)%Z = false ->
  returns (hd_transition_close_app E mgr c w) (fun w' => exists x,
    Started w w' OnClose false x
    /\ cclient x = Some c /\ cclient2 x = None
    /\ event x = MBWMCompMgrClientEventUnmap
    /\ (forall c', effect (clients w' c') = effect (clients w c'))
    /\ stage_handlers w' = next_data w :: stage_handlers w
    /\ log w' = [CPlaySound; CTimelineStart (next_timeline w);
                 CSetEffectRunning true] ++ log w).
Proof.
  intros H1 H2 H3 H4 H5 H6. unfold hd_transition_close_app.
  rewrite H1, H2, H3, H4, H5, H6. cbn [negb].
  do 8 step.
  match goal with
  | |- context [fold_left (close_app_particle ?d ?p) ?l ?W] =>
    destruct (close_app_particles_Frame d p l W) as [HF HL];
    remember W as wa eqn:Hwa;
    remember (fold_left (close_app_particle d p) l wa) as wb eqn:Hwb
  end.
  clear Hwb. destruct HF as [F1 F2 F3 F4 F5 F6 F7 F8 F9 F10 F11 F12].
  destruct F10 as (G1 & G2 & G3 & G4 & G5 & G6).
  assert (Hd1 : effects wa a0 = Some
     (mkData MBWMCompMgrClientEventUnmap (Some a) (Some c)
        (Some actor) None None (Some mgr)
        (clutter_actor_get_geometry E (actors w actor)) 0
        (repeat None (HDCM_UNMAP_PARTICLES E)))) by field_fact.
  rewrite Hd1 in F12.
  destruct (effects wb a0) as [x2|] eqn:Hx2; [|contradiction].
  simpl in F12. destruct F12 as (K1 & K2 & K3 & K4 & K5).
  assert (Hd0 : a0 = next_data w) by (wchase; reflexivity).
  repeat step.
  exists x2. split.
  { constructor.
    - wchase; reflexivity.
    - wchase; reflexivity.
    - intros d. wchase. destruct (Nat.eqb_spec d (next_data w)) as [->|Hne].
      + now rewrite <- Hd0.
      + rewrite F11 by (rewrite Hd0; exact Hne). wchase. now rewrite upd_diff.
    - rewrite <- K1. wchase. reflexivity.
    - intros t Ht; wchase; rewrite ?upd_diff by exact Ht; reflexivity.
    - wchase; eexists; repeat split.
    - wchase; reflexivity.
    - wchase; reflexivity.
    - wchase; reflexivity.
    - wchase; reflexivity.
    - repeat split; wchase; reflexivity.
    - wchase. quiet_log. }
  repeat split; try (wchase; reflexivity); try congruence.
  clients_effect.
Qed.


Lemma close_app_before_rotate_spec mgr c w actor :
  c_type_is_app (clients w c) = true ->
  (rm_state w =? HDRM_STATE_TASK_NAV E)%Z = false ->
  c_actor (clients w c) = Some actor ->
  a_visible (actors w actor) = true ->
  returns (hd_transition_close_app_before_rotate E mgr c w) (fun w' => exists x,
    Deferred w w' x /\ cclient x = Some c /\ cclient2 x = None).
Proof.
  intros H1 H2 H3 H4. unfold hd_transition_close_app_before_rotate.
  rewrite H1, H2, H3, H4. cbn [negb].
  repeat step.
  eexists. split.
  { constructor.
    - wchase; reflexivity.
    - wchase; reflexivity.
    - intros d; wchase; unfold upd; destruct (Nat.eqb d _); reflexivity.
    - wchase; reflexivity.
    - intros t; wchase; reflexivity.
    - clients_effect.
    - wchase; reflexivity.
    - wchase; reflexivity.
    - wchase; reflexivity.
    - wchase; reflexivity.
    - wchase; reflexivity.
    - repeat split; wchase; reflexivity.
    - wchase. quiet_log. }
  split; wchase; reflexivity.
Qed.

Ltac norm_c_actor :=
  repeat match goal with
  | |- context [c_actor (clients ?W ?c)] =>
    lazymatch W with
    | _ _ =>
      let H := fresh in
      assert (H : c_actor (clients W c) = c_actor (clients ltac:(
                let rec base x := lazymatch x with
                                  | ?f ?y => lazymatch type of y with
                                             | World => base y
                                             | _ => x end
                                  | _ => x end in
                let b := base W in exact b) c));
      [ wsimpl; unfold upd;
        repeat match goal with
               | |- context [Nat.eqb ?a ?b] =>
                 destruct (Nat.eqb_spec a b); [subst|]
               end; wsimpl; reflexivity
      | rewrite H; clear H ]
    end
  end.

(** A subview transition between two views that are not in transition. *)
Lemma subview_new_spec mgr sv mv ev w :
  sv <> mv ->
  has_cm_client (clients w sv) = true -> has_cm_client (clients w mv) = true ->
  STATE_IS_APP E (rm_state w) = true ->
  in_trans sv w = false -> in_trans mv w = false ->
  returns (hd_transition_subview E mgr (Some sv) (Some mv) ev w) (fun w' =>
    exists x,
    Started w w' OnSubview false x
    /\ cclient x = Some sv /\ cclient2 x = Some mv /\ event x = ev
    /\ cclient_actor x = c_actor (clients w sv)
    /\ cclient2_actor x = c_actor (clients w mv)
    /\ (forall c, effect (clients w' c)
                  = if Nat.eqb c sv || Nat.eqb c mv then Some (next_data w)
                    else effect (clients w c))
    /\ in_trans sv w' = true /\ in_trans mv w' = true
    /\ (forall c, c <> sv -> c <> mv -> c_flags (clients w' c) = c_flags (clients w c))
    /\ (forall c, has_cm_client (clients w' c) = has_cm_client (clients w c))
    /\ (forall c, c_actor (clients w' c) = c_actor (clients w c))
    /\ stage_handlers w' = stage_handlers w
    /\ log w' = [CTimelineStart (next_timeline w);
                 CNewFrame OnSubview (next_data w) 0;
                 CSetEffectRunning true] ++ log w).
Proof.
  intros Hne H1 H2 H3 H4 H5. unfold hd_transition_subview.
  cbn [opt_eqb]. pose proof Hne as Hne'. apply Nat.eqb_neq in Hne'. rewrite Hne'.
  assert (Hne2 : (mv =? sv)%nat = false) by (apply Nat.eqb_neq; congruence).
  rewrite H1, H2, H3, H4, H5. cbn [negb orb andb].
  rewrite !ref_opt_actor_eq.
  norm_c_actor.
  repeat step.
  eexists; split; [solve_started|].
  repeat split; try (wchase; reflexivity).
  - intros c. wchase. unfold upd.
    destruct (Nat.eqb_spec c sv), (Nat.eqb_spec c mv); subst; wsimpl;
      try reflexivity; contradiction.
  - unfold in_trans. wchase. unfold upd. rewrite ?Nat.eqb_refl, ?Hne', ?Hne2. wsimpl.
    rewrite ?Nat.eqb_refl, ?Hne', ?Hne2. wsimpl.
    unfold flags_or, DontUpdate_EffectRunning. cbn. rewrite ?orb_true_r. reflexivity.
  - unfold in_trans. wchase. unfold upd. rewrite ?Nat.eqb_refl, ?Hne', ?Hne2. wsimpl.
    rewrite ?Nat.eqb_refl, ?Hne', ?Hne2. wsimpl.
    unfold flags_or, DontUpdate_EffectRunning. cbn. rewrite ?orb_true_r. reflexivity.
  - intros c Hc1 Hc2. wchase. rewrite !upd_diff by assumption. reflexivity.
  - intros c. wchase. unfold upd.
    destruct (Nat.eqb_spec c sv), (Nat.eqb_spec c mv); subst; wsimpl;
      rewrite ?Nat.eqb_refl, ?Hne', ?Hne2; wsimpl; reflexivity.
  - intros c. wchase. unfold upd.
    destruct (Nat.eqb_spec c sv), (Nat.eqb_spec c mv); subst; wsimpl;
      rewrite ?Nat.eqb_refl, ?Hne', ?Hne2; wsimpl; reflexivity.
Qed.

(** The record and the timeline of a new subview transition. *)
Lemma subview_new_result mgr sv mv ev w :
  sv <> mv ->
  has_cm_client (clients w sv) = true -> has_cm_client (clients w mv) = true ->
  STATE_IS_APP E (rm_state w) = true ->
  in_trans sv w = false -> in_trans mv w = false ->
  returns (hd_transition_subview E mgr (Some sv) (Some mv) ev w) (fun w' =>
    timelines w' (next_timeline w)
    = Some (mkTimeline
              (frames_for_duration E
                 (hd_transition_get_int w "subview"
                    (if event_eqb ev MBWMCompMgrClientEventMap
                     then "duration_in"%string else "duration_out"%string) 250))
              0 true 2 (Some (OnSubview, next_data w)) (Some (next_data w)) false)
    /\ effects w' (next_data w)
       = Some (mkData ev (Some (next_timeline w)) (Some sv)
                 (c_actor (clients w sv)) (Some mv) (c_actor (clients w mv))
                 (Some mgr) (mkGeo 0 0 0 0) 0
                 (repeat None (HDCM_UNMAP_PARTICLES E)))
    /\ effect (clients w' sv) = Some (next_data w)
    /\ effect (clients w' mv) = Some (next_data w)).
Proof.
  intros Hne H1 H2 H3 H4 H5. unfold hd_transition_subview.
  cbn [opt_eqb]. pose proof Hne as Hne'. apply Nat.eqb_neq in Hne'. rewrite Hne'.
  assert (Hne2 : (mv =? sv)%nat = false) by (apply Nat.eqb_neq; congruence).
  rewrite H1, H2, H3, H4, H5. cbn [negb orb andb].
  rewrite !ref_opt_actor_eq.
  norm_c_actor.
  repeat step.
  split; [wchase; reflexivity|]. split; [wchase; reflexivity|].
  split; wchase; unfold upd; rewrite ?Nat.eqb_refl, ?Hne', ?Hne2; wsimpl;
    reflexivity.
Qed.

End StartSpecs.

(** ** The invariant under the summaries *)

Lemma data_same_Some_l x b :
  data_same (Some x) b ->
  exists y, b = Some y /\ timeline x = timeline y /\ event x = event y
            /\ cclient x = cclient y /\ cclient2 x = cclient2 y /\ hmgr x = hmgr y.
Proof. destruct b as [y|]; simpl; [|tauto]. intros H. exists y. tauto. Qed.

Lemma data_same_Some_r a y :
  data_same a (Some y) ->
  exists x, a = Some x /\ timeline x = timeline y /\ event x = event y
            /\ cclient x = cclient y /\ cclient2 x = cclient2 y /\ hmgr x = hmgr y.
Proof. destruct a as [x|]; simpl; [|tauto]. intros H. exists x. tauto. Qed.

Lemma data_same_None_l b : data_same None b -> b = None.
Proof. destruct b; simpl; tauto. Qed.

Lemma data_same_None_r a : data_same a None -> a = None.
Proof. destruct a; simpl; tauto. Qed.

Lemma tl_calls_refl a : tl_calls a a.
Proof. destruct a; simpl; auto. Qed.

Lemma tl_calls_trans a b c : tl_calls a b -> tl_calls b c -> tl_calls a c.
Proof.
  destruct a, b, c; simpl; try tauto.
  intros (A1 & A2 & A3) (B1 & B2 & B3). repeat split; try congruence. auto.
Qed.

Lemma tl_same_calls a b : tl_same a b -> tl_calls a b.
Proof.
  destruct a, b; simpl; try tauto.
  intros (A1 & A2 & A3 & A4 & A5 & A6). repeat split; congruence.
Qed.

Lemma tl_calls_Some_l x b :
  tl_calls (Some x) b ->
  exists y, b = Some y /\ tl_new_frame x = tl_new_frame y
            /\ tl_completed x = tl_completed y
            /\ (tl_running y = true -> tl_running x = true).
Proof. destruct b as [y|]; simpl; [|tauto]. intros H. exists y. tauto. Qed.

Lemma tl_calls_Some_r a y :
  tl_calls a (Some y) ->
  exists x, a = Some x /\ tl_new_frame x = tl_new_frame y
            /\ tl_completed x = tl_completed y
            /\ (tl_running y = true -> tl_running x = true).
Proof. destruct a as [x|]; simpl; [|tauto]. intros H. exists x. tauto. Qed.

Lemma tl_calls_None_l b : tl_calls None b -> b = None.
Proof. destruct b; simpl; tauto. Qed.

Lemma Similar_refl w : Similar w w.
Proof.
  constructor; try reflexivity; auto using data_same_refl, tl_calls_refl.
  exists []. split; [reflexivity | apply silent_nil].
Qed.

Lemma Similar_trans w1 w2 w3 : Similar w1 w2 -> Similar w2 w3 -> Similar w1 w3.
Proof.
  intros [A1 A2 A3 A4 A5 A6 A7 (l1 & L1 & Q1)] [B1 B2 B3 B4 B5 B6 B7 (l2 & L2 & Q2)].
  constructor; try congruence.
  - intros d. eapply data_same_trans; eauto.
  - intros t. eapply tl_calls_trans; eauto.
  - exists (l2 ++ l1). rewrite L2, L1, app_assoc. split; [reflexivity|].
    now apply silent_app.
Qed.

Lemma silent_teardowns l m : silent l -> teardowns (l ++ m) = teardowns m.
Proof. intros (H & _). now rewrite teardowns_app, H. Qed.

Lemma silent_releases l m :
  silent l -> particle_releases (l ++ m) = particle_releases m.
Proof. intros (_ & H & _). now rewrite particle_releases_app, H. Qed.

Lemma silent_decrements l m :
  silent l -> effect_running_decrements (l ++ m) = effect_running_decrements m.
Proof. intros (_ & _ & H). now rewrite effect_running_decrements_app, H. Qed.

Lemma quiet_teardowns l m : quiet l -> teardowns (l ++ m) = teardowns m.
Proof. intros H. apply silent_teardowns. now apply quiet_silent. Qed.

Lemma quiet_releases l m : quiet l -> particle_releases (l ++ m) = particle_releases m.
Proof. intros H. apply silent_releases. now apply quiet_silent. Qed.

Lemma quiet_decrements l m :
  quiet l -> effect_running_decrements (l ++ m) = effect_running_decrements m.
Proof. intros H. apply silent_decrements. now apply quiet_silent. Qed.

Lemma Inv_live_bound w d x : Inv w -> effects w d = Some x -> (d < next_data w)%nat.
Proof.
  intros I H. destruct (Nat.lt_ge_cases d (next_data w)) as [|Hge]; [assumption|].
  rewrite (inv_fresh_data _ I d Hge) in H. discriminate.
Qed.

Lemma Inv_timeline_bound w t tl :
  Inv w -> timelines w t = Some tl -> (t < next_timeline w)%nat.
Proof.
  intros I H. destruct (Nat.lt_ge_cases t (next_timeline w)) as [|Hge]; [assumption|].
  rewrite (inv_fresh_timeline _ I t Hge) in H. discriminate.
Qed.

Lemma Inv_Similar w w' : Inv w -> Similar w w' -> Inv w'.
Proof.
  intros I [S1 S2 S3 S4 S5 S6 S7 (l & L & Q)].
  constructor.
  - intros d Hd. rewrite S1 in Hd.
    apply data_same_None_l. rewrite <- (inv_fresh_data _ I d Hd). apply S3.
  - intros t Ht. rewrite S2 in Ht.
    apply tl_calls_None_l. rewrite <- (inv_fresh_timeline _ I t Ht). apply S5.
  - intros c d Hc. rewrite S4 in Hc.
    destruct (inv_effect _ I c d Hc) as (x & t & Hx & Ht & Hcc).
    pose proof (S3 d) as Hs. rewrite Hx in Hs.
    apply data_same_Some_l in Hs. destruct Hs as (y & Hy & E1 & E2 & E3 & E4 & E5).
    exists y, t. rewrite <- E1, <- E3, <- E4. auto.
  - intros d y t Hy Ht.
    pose proof (S3 d) as Hs. rewrite Hy in Hs.
    apply data_same_Some_r in Hs. destruct Hs as (x & Hx & E1 & _).
    rewrite <- E1 in Ht.
    destruct (inv_own _ I d x t Hx Ht) as (tl & h & Htl & H1 & H2).
    pose proof (S5 t) as Hc. rewrite Htl in Hc.
    apply tl_calls_Some_l in Hc. destruct Hc as (tl' & Htl' & F1 & F2 & _).
    exists tl', h. rewrite <- F1, <- F2. auto.
  - intros t tl' Htl' Hrun.
    pose proof (S5 t) as Hc. rewrite Htl' in Hc.
    apply tl_calls_Some_r in Hc. destruct Hc as (tl & Htl & F1 & F2 & F3).
    destruct (inv_running _ I t tl Htl (F3 Hrun)) as [R1 R2].
    split.
    + intros h d Hh. rewrite <- F1 in Hh.
      destruct (R1 h d Hh) as (x & Hx & Ht).
      pose proof (S3 d) as Hs. rewrite Hx in Hs.
      apply data_same_Some_l in Hs. destruct Hs as (y & Hy & E1 & _).
      exists y. rewrite <- E1. auto.
    + intros d Hd. rewrite <- F2 in Hd.
      destruct (R2 d Hd) as (x & Hx & Ht).
      pose proof (S3 d) as Hs. rewrite Hx in Hs.
      apply data_same_Some_l in Hs. destruct Hs as (y & Hy & E1 & _).
      exists y. rewrite <- E1. auto.
  - intros d Hd. rewrite S6 in Hd.
    destruct (inv_waiting _ I d Hd) as (x & Hx & Ht).
    pose proof (S3 d) as Hs. rewrite Hx in Hs.
    apply data_same_Some_l in Hs. destruct Hs as (y & Hy & E1 & _).
    exists y. rewrite <- E1. auto.
  - rewrite S6. apply (inv_waiting_nodup _ I).
  - intros d Hd. rewrite S7 in Hd. intros Hn.
    apply (inv_stage _ I d Hd).
    apply data_same_None_r. rewrite <- Hn. apply S3.
  - intros d Hd. rewrite L, (silent_teardowns _ _ Q) in Hd.
    destruct (inv_torn _ I d Hd) as [T1 T2]. rewrite S1. split; [|exact T2].
    apply data_same_None_l. rewrite <- T1. apply S3.
  - rewrite L, (silent_teardowns _ _ Q). apply (inv_torn_nodup _ I).
  - intros p Hp. rewrite L, (silent_releases _ _ Q) in Hp.
    destruct (inv_released _ I p Hp) as [T1 T2]. rewrite S1. split; [|exact T2].
    apply data_same_None_l. rewrite <- T1. apply S3.
  - rewrite L, (silent_releases _ _ Q). apply (inv_released_nodup _ I).
  - rewrite L, (silent_teardowns _ _ Q), (silent_decrements _ _ Q).
    apply (inv_decrements _ I).
Qed.

Lemma Inv_Started w w' h fsm x :
  Inv w -> Started w w' h fsm x ->
  (forall c d, effect (clients w' c) = Some d ->
     effect (clients w c) = Some d
     \/ (d = next_data w /\ (cclient x = Some c \/ cclient2 x = Some c))) ->
  (forall d, In d (stage_handlers w') -> In d (stage_handlers w) \/ d = next_data w) ->
  Inv w'.
Proof.
  intros I [S1 S2 S3 S4 S5 (tl0 & T1 & T2 & T3 & T4 & T5) S6 _ _ _ _ (l & L & Q)] Hcl Hst.
  assert (Hold : forall d y, effects w d = Some y -> effects w' d = Some y).
  { intros d y Hy. rewrite S3.
    destruct (Nat.eqb_spec d (next_data w)) as [->|]; [|exact Hy].
    pose proof (Inv_live_bound _ _ _ I Hy). lia. }
  assert (Hnone : forall d, effects w d = None -> (d < next_data w)%nat ->
                            effects w' d = None).
  { intros d Hd Hlt. rewrite S3.
    destruct (Nat.eqb_spec d (next_data w)) as [->|]; [lia|exact Hd]. }
  assert (Htold : forall t tl, timelines w t = Some tl -> timelines w' t = Some tl).
  { intros t tl Htl. rewrite S5; [exact Htl|].
    pose proof (Inv_timeline_bound _ _ _ I Htl). lia. }
  assert (Hnew : effects w' (next_data w) = Some x).
  { rewrite S3, Nat.eqb_refl. reflexivity. }
  constructor.
  - intros d Hd. rewrite S1 in Hd. rewrite S3.
    destruct (Nat.eqb_spec d (next_data w)) as [->|]; [lia|].
    apply (inv_fresh_data _ I). lia.
  - intros t Ht. rewrite S2 in Ht. rewrite S5 by lia.
    apply (inv_fresh_timeline _ I). lia.
  - intros c d Hc. destruct (Hcl c d Hc) as [Ho|[-> Hn]].
    + destruct (inv_effect _ I c d Ho) as (y & t & Hy & Ht & Hcc).
      exists y, t. auto.
    + exists x, (next_timeline w). auto.
  - intros d y t Hy Ht. rewrite S3 in Hy.
    destruct (Nat.eqb_spec d (next_data w)) as [->|].
    + injection Hy as <-. rewrite S4 in Ht. injection Ht as <-.
      exists tl0, h. auto.
    + destruct (inv_own _ I d y t Hy Ht) as (tl & h' & Htl & H1 & H2).
      exists tl, h'. auto.
  - intros t tl Htl Hrun.
    destruct (Nat.eq_dec t (next_timeline w)) as [->|Hne].
    + rewrite T1 in Htl. injection Htl as <-. split.
      * intros h' d Hh. rewrite T3 in Hh. injection Hh as <- <-.
        exists x. auto.
      * intros d Hd. rewrite T4 in Hd. injection Hd as <-. exists x. auto.
    + rewrite S5 in Htl by exact Hne.
      destruct (inv_running _ I t tl Htl Hrun) as [R1 R2]. split.
      * intros h' d Hh. destruct (R1 h' d Hh) as (y & Hy & Ht). exists y. auto.
      * intros d Hd. destruct (R2 d Hd) as (y & Hy & Ht). exists y. auto.
  - intros d Hd. rewrite S6 in Hd.
    destruct (inv_waiting _ I d Hd) as (y & Hy & Ht). exists y. auto.
  - rewrite S6. apply (inv_waiting_nodup _ I).
  - intros d Hd. destruct (Hst d Hd) as [Ho| ->].
    + pose proof (inv_stage _ I d Ho) as Hl.
      destruct (effects w d) as [y|] eqn:Hy; [|congruence].
      rewrite (Hold d y Hy). discriminate.
    + rewrite Hnew. discriminate.
  - intros d Hd. rewrite L, (quiet_teardowns _ _ Q) in Hd.
    destruct (inv_torn _ I d Hd) as [A1 A2]. rewrite S1. split; [|lia]. auto.
  - rewrite L, (quiet_teardowns _ _ Q). apply (inv_torn_nodup _ I).
  - intros p Hp. rewrite L, (quiet_releases _ _ Q) in Hp.
    destruct (inv_released _ I p Hp) as [A1 A2]. rewrite S1. split; [|lia]. auto.
  - rewrite L, (quiet_releases _ _ Q). apply (inv_released_nodup _ I).
  - rewrite L, (quiet_teardowns _ _ Q), (quiet_decrements _ _ Q).
    apply (inv_decrements _ I).
Qed.

Lemma Inv_Deferred w w' x : Inv w -> Deferred w w' x -> Inv w'.
Proof.
  intros I [S1 S2 S3 S4 S5 S6 S7 S8 _ _ _ _ (l & L & Q)].
  assert (Hold : forall d y, effects w d = Some y -> effects w' d = Some y).
  { intros d y Hy. rewrite S3.
    destruct (Nat.eqb_spec d (next_data w)) as [->|]; [|exact Hy].
    pose proof (Inv_live_bound _ _ _ I Hy). lia. }
  assert (Hnone : forall d, effects w d = None -> (d < next_data w)%nat ->
                            effects w' d = None).
  { intros d Hd Hlt. rewrite S3.
    destruct (Nat.eqb_spec d (next_data w)) as [->|]; [lia|exact Hd]. }
  assert (Hnew : effects w' (next_data w) = Some x).
  { rewrite S3, Nat.eqb_refl. reflexivity. }
  constructor.
  - intros d Hd. rewrite S1 in Hd. rewrite S3.
    destruct (Nat.eqb_spec d (next_data w)) as [->|]; [lia|].
    apply (inv_fresh_data _ I). lia.
  - intros t Ht. rewrite S2 in Ht. rewrite S5.
    apply (inv_fresh_timeline _ I). lia.
  - intros c d Hc. rewrite S6 in Hc.
    destruct (inv_effect _ I c d Hc) as (y & t & Hy & Ht & Hcc).
    exists y, t. auto.
  - intros d y t Hy Ht. rewrite S3 in Hy. rewrite S5.
    destruct (Nat.eqb_spec d (next_data w)) as [->|].
    + injection Hy as <-. congruence.
    + apply (inv_own _ I d y t Hy Ht).
  - intros t tl Htl Hrun. rewrite S5 in Htl.
    destruct (inv_running _ I t tl Htl Hrun) as [R1 R2]. split.
    + intros h' d Hh. destruct (R1 h' d Hh) as (y & Hy & Ht). exists y. auto.
    + intros d Hd. destruct (R2 d Hd) as (y & Hy & Ht). exists y. auto.
  - intros d Hd. rewrite S7 in Hd. cbn in Hd. apply in_app_or in Hd.
    destruct Hd as [Hd|[<-|[]]].
    + destruct (inv_waiting _ I d Hd) as (y & Hy & Ht). exists y. auto.
    + exists x. auto.
  - rewrite S7. cbn. apply NoDup_app.
    + apply (inv_waiting_nodup _ I).
    + constructor; [intros []|constructor].
    + intros d Hd [Heq|[]].
      destruct (inv_waiting _ I d Hd) as (y & Hy & _).
      pose proof (Inv_live_bound _ _ _ I Hy). lia.
  - intros d Hd. rewrite S8 in Hd.
    pose proof (inv_stage _ I d Hd) as Hl.
    destruct (effects w d) as [y|] eqn:Hy; [|congruence].
    rewrite (Hold d y Hy). discriminate.
  - intros d Hd. rewrite L, (quiet_teardowns _ _ Q) in Hd.
    destruct (inv_torn _ I d Hd) as [A1 A2]. rewrite S1. split; [|lia]. auto.
  - rewrite L, (quiet_teardowns _ _ Q). apply (inv_torn_nodup _ I).
  - intros p Hp. rewrite L, (quiet_releases _ _ Q) in Hp.
    destruct (inv_released _ I p Hp) as [A1 A2]. rewrite S1. split; [|lia]. auto.
  - rewrite L, (quiet_releases _ _ Q). apply (inv_released_nodup _ I).
  - rewrite L, (quiet_teardowns _ _ Q), (quiet_decrements _ _ Q).
    apply (inv_decrements _ I).
Qed.

Lemma tl_same_Some_l x b :
  tl_same (Some x) b ->
  exists y, b = Some y /\ tl_new_frame x = tl_new_frame y
            /\ tl_completed x = tl_completed y /\ tl_running x = tl_running y.
Proof. destruct b as [y|]; simpl; [|tauto]. intros H. exists y. tauto. Qed.

Lemma tl_same_Some_r a y :
  tl_same a (Some y) ->
  exists x, a = Some x /\ tl_new_frame x = tl_new_frame y
            /\ tl_completed x = tl_completed y /\ tl_running x = tl_running y.
Proof. destruct a as [x|]; simpl; [|tauto]. intros H. exists x. tauto. Qed.

Lemma tl_same_None_l b : tl_same None b -> b = None.
Proof. destruct b; simpl; tauto. Qed.

Lemma Inv_TornDown w w' d x :
  Inv w -> TornDown w w' d x -> effects w d = Some x ->
  (forall t tl, timeline x = Some t -> timelines w t = Some tl ->
                tl_running tl = false) ->
  ~ In d (effects_waiting (Orientation_change w)) ->
  Inv w'.
Proof.
  intros I [S1 S2 S3 S4 S5 S6 S7 _ _ _ _ (l & L & T1 & T2 & T3 & _ & _ & T4 & _)]
         Hx Hstop Hnw.
  pose proof (Inv_live_bound _ _ _ I Hx) as Hd.
  assert (Hold : forall d' y, d' <> d -> effects w d' = Some y ->
                              effects w' d' = Some y).
  { intros d' y Hne Hy. rewrite S3.
    destruct (Nat.eqb_spec d' d); [contradiction|exact Hy]. }
  assert (Hnone : forall d', effects w d' = None -> effects w' d' = None).
  { intros d' Hn. rewrite S3. destruct (Nat.eqb d' d); auto. }
  assert (Hgone : effects w' d = None).
  { rewrite S3, Nat.eqb_refl. reflexivity. }
  constructor.
  - intros d' Hd'. rewrite S1 in Hd'. apply Hnone. now apply (inv_fresh_data _ I).
  - intros t Ht. rewrite S2 in Ht. apply tl_same_None_l.
    rewrite <- (inv_fresh_timeline _ I t Ht). apply S5.
  - intros c d' Hc. rewrite S4 in Hc.
    destruct (opt_eqb (cclient x) (Some c) || opt_eqb (cclient2 x) (Some c)) eqn:Hb;
      [discriminate|].
    destruct (inv_effect _ I c d' Hc) as (y & t & Hy & Ht & Hcc).
    destruct (Nat.eq_dec d' d) as [->|Hne].
    + exfalso. rewrite Hx in Hy. injection Hy as <-.
      apply orb_false_elim in Hb. destruct Hb as [B1 B2].
      destruct Hcc as [Hcc|Hcc]; rewrite Hcc in *; cbn in *;
        rewrite Nat.eqb_refl in *; discriminate.
    + exists y, t. auto.
  - intros d' y t Hy Ht. rewrite S3 in Hy.
    destruct (Nat.eqb_spec d' d); [discriminate|].
    destruct (inv_own _ I d' y t Hy Ht) as (tl & h & Htl & H1 & H2).
    pose proof (S5 t) as Hs. rewrite Htl in Hs.
    apply tl_same_Some_l in Hs. destruct Hs as (tl' & Htl' & F1 & F2 & _).
    exists tl', h. rewrite <- F1, <- F2. auto.
  - intros t tl' Htl' Hrun.
    pose proof (S5 t) as Hs. rewrite Htl' in Hs.
    apply tl_same_Some_r in Hs. destruct Hs as (tl & Htl & F1 & F2 & F3).
    rewrite <- F3 in Hrun.
    destruct (inv_running _ I t tl Htl Hrun) as [R1 R2].
    assert (Hlive : forall d' y, effects w d' = Some y -> timeline y = Some t ->
                                 effects w' d' = Some y).
    { intros d' y Hy Ht. apply Hold; [|exact Hy]. intros ->.
      rewrite Hx in Hy. injection Hy as <-.
      rewrite (Hstop t tl Ht Htl) in Hrun. discriminate. }
    split.
    + intros h d' Hh. rewrite <- F1 in Hh.
      destruct (R1 h d' Hh) as (y & Hy & Ht). exists y. eauto.
    + intros d' Hd'. rewrite <- F2 in Hd'.
      destruct (R2 d' Hd') as (y & Hy & Ht). exists y. eauto.
  - intros d' Hd'. rewrite S6 in Hd'.
    destruct (inv_waiting _ I d' Hd') as (y & Hy & Ht). exists y.
    split; [|exact Ht]. apply Hold; [|exact Hy]. intros ->. contradiction.
  - rewrite S6. apply (inv_waiting_nodup _ I).
  - intros d' Hd'. rewrite S7 in Hd'. apply filter_In in Hd'.
    destruct Hd' as [Hin Hne]. apply negb_true_iff, Nat.eqb_neq in Hne.
    pose proof (inv_stage _ I d' Hin) as Hl.
    destruct (effects w d') as [y|] eqn:Hy; [|congruence].
    rewrite (Hold d' y Hne Hy). discriminate.
  - intros d' Hd'. rewrite L, teardowns_app, T1 in Hd'. rewrite S1.
    destruct Hd' as [<-|Hd']; [auto|].
    destruct (inv_torn _ I d' Hd') as [A1 A2]. auto.
  - rewrite L, teardowns_app, T1. cbn. constructor; [|apply (inv_torn_nodup _ I)].
    intros Hin. destruct (inv_torn _ I d Hin) as [A1 _]. congruence.
  - intros p Hp. rewrite L, particle_releases_app in Hp. rewrite S1.
    apply in_app_or in Hp. destruct Hp as [Hp|Hp].
    + rewrite (T2 p Hp). auto.
    + destruct (inv_released _ I p Hp) as [A1 A2]. auto.
  - rewrite L, particle_releases_app. apply NoDup_app.
    + exact T3.
    + apply (inv_released_nodup _ I).
    + intros p Hp Hp'. destruct (inv_released _ I p Hp') as [A1 _].
      rewrite (T2 p Hp) in A1. congruence.
  - rewrite L, teardowns_app, effect_running_decrements_app, T1. cbn.
    pose proof (inv_decrements _ I). lia.
Qed.

(** ** Teardown *)

Section Teardown.

Variable E : Env.

Lemma release_clients_shape x w :
  exists C A,
    release_clients x w = set_clients C (set_actors A w)
    /\ forall c, effect (C c)
                 = if opt_eqb (cclient x) (Some c) || opt_eqb (cclient2 x) (Some c)
                   then None else effect (clients w c).
Proof.
  exists (clients (release_clients x w)), (actors (release_clients x w)).
  unfold release_clients.
  destruct (cclient x) as [c1|], (cclient_actor x) as [a1|],
           (cclient2 x) as [c2|], (cclient2_actor x) as [a2|], (is_unmap x);
    (split; [try reflexivity; destruct w; reflexivity|]);
    intros c; cbn [opt_eqb orb]; unfold upd; wsimpl; unfold upd;
    repeat match goal with
           | |- context [Nat.eqb ?a ?b] => destruct (Nat.eqb_spec a b); try subst
           end; wsimpl; try reflexivity; try congruence.
Qed.

Lemma release_particle_Frame d w i :
  Frame d w (release_particle d w i)
  /\ exists k, log (release_particle d w i) = k ++ log w
     /\ teardowns k = [] /\ screen_reconfigurations k = 0%nat
     /\ fsm_entries k = [] /\ effect_running_decrements k = 0%nat
     /\ new_frames k = []
     /\ (particle_releases k = [] \/ particle_releases k = [(d, i)]).
Proof.
  unfold release_particle.
  destruct (effects w d) as [x|] eqn:Hx;
    [destruct (nth i (particles x) None) as [p|]|].
  2,3: split; [apply Frame_refl | exists []; repeat split; auto].
  split.
  - constructor; wsimpl; try reflexivity; try (repeat split; fail).
    + intros d' Hd. now rewrite upd_diff.
    + rewrite upd_same, Hx. simpl. auto.
  - exists [CParticleUnref d i p]. repeat split; auto.
Qed.

Lemma release_particles_Frame d l :
  NoDup l -> forall w,
  Frame d w (fold_left (release_particle d) l w)
  /\ exists k, log (fold_left (release_particle d) l w) = k ++ log w
     /\ teardowns k = [] /\ screen_reconfigurations k = 0%nat
     /\ fsm_entries k = [] /\ effect_running_decrements k = 0%nat
     /\ new_frames k = []
     /\ (forall p, In p (particle_releases k) -> fst p = d /\ In (snd p) l)
     /\ NoDup (particle_releases k).
Proof.
  induction l as [|i l IH]; intros Hnd w; simpl.
  - split; [apply Frame_refl|]. exists [].
    do 6 (split; [reflexivity|]). split; [intros p []|constructor].
  - inversion Hnd as [|? ? Hi Hl]; subst.
    destruct (release_particle_Frame d w i)
      as [F1 (k1 & L1 & A1 & A2 & A3 & A4 & A4' & A5)].
    destruct (IH Hl (release_particle d w i))
      as [F2 (k2 & L2 & B1 & B2 & B3 & B4 & B4' & B5 & B6)].
    split; [eapply Frame_trans; eassumption|].
    exists (k2 ++ k1). rewrite L2, L1, app_assoc.
    rewrite teardowns_app, screen_reconfigurations_app, fsm_entries_app,
      effect_running_decrements_app, particle_releases_app, new_frames_app.
    rewrite A1, A2, A3, A4, A4', B1, B2, B3, B4, B4'.
    do 6 (split; [reflexivity|]). split.
    + intros p Hp. apply in_app_or in Hp. destruct Hp as [Hp|Hp].
      * destruct (B5 p Hp). auto.
      * destruct A5 as [A5|A5]; rewrite A5 in Hp; [destruct Hp|].
        destruct Hp as [<-|[]]. simpl. auto.
    + destruct A5 as [A5|A5]; rewrite A5.
      * now rewrite app_nil_r.
      * apply NoDup_app; [exact B6 | repeat constructor; intros [] |].
        intros p Hp [<-|[]]. apply Hi. apply (B5 _ Hp).
Qed.

(** [hd_transition_completed] on a live record. *)
Lemma completed_spec tl d w x :
  effects w d = Some x ->
  (forall t, tl = Some t -> timelines w t <> None) ->
  returns (hd_transition_completed E tl d w) (fun w' => TornDown w w' d x).
Proof.
  intros Hx Htl. unfold hd_transition_completed, deref_data. rewrite Hx. cbn [bind].
  destruct (release_clients_shape x (emit (CCompleted d) w)) as (C & A & HR & HC).
  rewrite HR. clear HR.
  assert (Hu : returns (match tl with
                        | Some t => timeline_unref t (set_clients C (set_actors A (emit (CCompleted d) w)))
                        | None => Ok (set_clients C (set_actors A (emit (CCompleted d) w)))
                        end)
                 (fun w1 => clients w1 = C /\ effects w1 = effects w
                            /\ (forall t, tl_same (timelines w t) (timelines w1 t))
                            /\ next_data w1 = next_data w
                            /\ next_timeline w1 = next_timeline w
                            /\ next_source w1 = next_source w
                            /\ Orientation_change w1 = Orientation_change w
                            /\ stage_handlers w1 = stage_handlers w
                            /\ sources w1 = sources w /\ rm_state w1 = rm_state w
                            /\ same_env w w1
                            /\ log w1 = CCompleted d :: log w)).
  { destruct tl as [t|].
    - destruct (timelines w t) as [tl0|] eqn:Ht; [|now destruct (Htl t eq_refl)].
      step. subst w0. wsimpl. repeat split; try reflexivity.
      intros t'. unfold upd. destruct (Nat.eqb_spec t' t) as [->|].
      + rewrite Ht. simpl. auto 10.
      + apply tl_same_refl.
    - step. wsimpl. repeat split; try reflexivity. intros t'. apply tl_same_refl. }
  step. eapply returns_weaken; [exact Hu|]. clear Hu. cbv beta.
  intros w1 (U1 & U2 & U3 & U4 & U5 & U6 & U7 & U8 & U9 & U10 & U11 & U12).
  remember (match hmgr x with
            | Some m => hd_comp_mgr_set_effect_running m false w1
            | None => w1
            end) as w2 eqn:Hw2.
  assert (V : clients w2 = clients w1 /\ effects w2 = effects w1
              /\ timelines w2 = timelines w1
              /\ next_data w2 = next_data w1
              /\ next_timeline w2 = next_timeline w1
              /\ next_source w2 = next_source w1
              /\ Orientation_change w2 = Orientation_change w1
              /\ stage_handlers w2 = stage_handlers w1
              /\ sources w2 = sources w1 /\ rm_state w2 = rm_state w1
              /\ same_env w1 w2
              /\ exists k, log w2 = k ++ log w1 /\ teardowns k = []
                   /\ particle_releases k = [] /\ screen_reconfigurations k = 0%nat
                   /\ fsm_entries k = [] /\ (effect_running_decrements k <= 1)%nat
                   /\ new_frames k = []).
  { subst w2. destruct (hmgr x); wsimpl; repeat split; try reflexivity.
    - exists [CSetEffectRunning false]. repeat split. cbn. lia.
    - exists []. repeat split. cbn. lia. }
  clear Hw2.
  destruct V as (V1 & V2 & V3 & V4 & V5 & V6 & V7 & V8 & V9 & V10 & V11
                 & k2 & K1 & K2 & K3 & K4 & K5 & K6 & K7).
  destruct (release_particles_Frame d _ (seq_NoDup (HDCM_UNMAP_PARTICLES E) 0) w2)
    as [[F1 F2 F3 F4 F5 F6 F7 F8 F9 F10 F11 F12]
        (k3 & L1 & L2 & L3 & L4 & L5 & L5' & L6 & L7)].
  remember (fold_left (release_particle d) (seq 0 (HDCM_UNMAP_PARTICLES E)) w2)
    as w3 eqn:Hw3.
  clear Hw3. step.
  constructor; wsimpl.
  - congruence.
  - congruence.
  - intros d'. unfold upd. destruct (Nat.eqb_spec d' d) as [->|Hne]; [reflexivity|].
    rewrite F11 by exact Hne. congruence.
  - intros c. rewrite F1, V1, U1. apply HC.
  - intros t. rewrite F2, V3. apply U3.
  - congruence.
  - congruence.
  - congruence.
  - congruence.
  - congruence.
  - eapply same_env_trans; [exact U11|]. eapply same_env_trans; eassumption.
  - exists (k3 ++ k2 ++ [CCompleted d]). rewrite L1, K1, U12.
    rewrite <- !app_assoc.
    rewrite !teardowns_app, !particle_releases_app, !screen_reconfigurations_app,
      !fsm_entries_app, !effect_running_decrements_app, !new_frames_app.
    rewrite L2, L3, L4, L5, L5', K2, K3, K4, K5, K7. cbn. rewrite app_nil_r.
    repeat split; auto.
    + intros p Hp. apply (L6 p Hp).
    + lia.
Qed.

End Teardown.

(** ** Replacing a client of a running subview transition *)

Lemma Inv_repoint w w' d x x' t :
  Inv w -> effects w d = Some x -> timeline x = Some t ->
  effects w' d = Some x' -> timeline x' = timeline x ->
  (forall d', d' <> d -> effects w' d' = effects w d') ->
  (forall c d', effect (clients w' c) = Some d' ->
     (d' = d /\ (cclient x' = Some c \/ cclient2 x' = Some c))
     \/ (d' <> d /\ effect (clients w c) = Some d')) ->
  timelines w' = timelines w ->
  next_data w' = next_data w -> next_timeline w' = next_timeline w ->
  effects_waiting (Orientation_change w') = effects_waiting (Orientation_change w) ->
  stage_handlers w' = stage_handlers w -> log w' = log w ->
  Inv w'.
Proof.
  intros I Hx Ht Hx' Ht' Hoth Hcl S1 S2 S3 S4 S5 S6.
  assert (Hlive : forall d' y, effects w d' = Some y ->
            exists y', effects w' d' = Some y' /\ timeline y' = timeline y).
  { intros d' y Hy. destruct (Nat.eq_dec d' d) as [->|Hne].
    - rewrite Hx in Hy. injection Hy as <-. exists x'. auto.
    - exists y. rewrite Hoth by exact Hne. auto. }
  assert (Hback : forall d' y', effects w' d' = Some y' ->
            exists y, effects w d' = Some y /\ timeline y' = timeline y).
  { intros d' y' Hy. destruct (Nat.eq_dec d' d) as [->|Hne].
    - rewrite Hx' in Hy. injection Hy as <-. exists x. auto.
    - exists y'. rewrite <- Hoth by exact Hne. auto. }
  assert (Hnone : forall d', effects w d' = None -> effects w' d' = None).
  { intros d' Hn. destruct (Nat.eq_dec d' d) as [->|Hne]; [congruence|].
    now rewrite Hoth. }
  constructor.
  - intros d' Hd. rewrite S2 in Hd. apply Hnone. now apply (inv_fresh_data _ I).
  - intros t' Hd. rewrite S3 in Hd. rewrite S1. now apply (inv_fresh_timeline _ I).
  - intros c d' Hc. destruct (Hcl c d' Hc) as [[-> Hcc]|[Hne Ho]].
    + exists x', t. rewrite Ht'. auto.
    + destruct (inv_effect _ I c d' Ho) as (y & t' & Hy & Hty & Hcc).
      exists y, t'. rewrite Hoth by exact Hne. auto.
  - intros d' y' t' Hy Hty. rewrite S1.
    destruct (Hback d' y' Hy) as (y & Hy0 & Heq). rewrite Heq in Hty.
    apply (inv_own _ I d' y t' Hy0 Hty).
  - intros t' tl Htl Hrun. rewrite S1 in Htl.
    destruct (inv_running _ I t' tl Htl Hrun) as [R1 R2]. split.
    + intros h d' Hh. destruct (R1 h d' Hh) as (y & Hy & Hty).
      destruct (Hlive d' y Hy) as (y' & Hy' & Heq). exists y'. rewrite Heq. auto.
    + intros d' Hd. destruct (R2 d' Hd) as (y & Hy & Hty).
      destruct (Hlive d' y Hy) as (y' & Hy' & Heq). exists y'. rewrite Heq. auto.
  - intros d' Hd. rewrite S4 in Hd.
    destruct (inv_waiting _ I d' Hd) as (y & Hy & Hty).
    destruct (Hlive d' y Hy) as (y' & Hy' & Heq). exists y'. rewrite Heq. auto.
  - rewrite S4. apply (inv_waiting_nodup _ I).
  - intros d' Hd. rewrite S5 in Hd. pose proof (inv_stage _ I d' Hd) as Hl.
    destruct (effects w d') as [y|] eqn:Hy; [|congruence].
    destruct (Hlive d' y Hy) as (y' & Hy' & _). congruence.
  - intros d' Hd. rewrite S6 in Hd. destruct (inv_torn _ I d' Hd) as [A1 A2].
    rewrite S2. auto.
  - rewrite S6. apply (inv_torn_nodup _ I).
  - intros p Hp. rewrite S6 in Hp. destruct (inv_released _ I p Hp) as [A1 A2].
    rewrite S2. auto.
  - rewrite S6. apply (inv_released_nodup _ I).
  - rewrite S6. apply (inv_decrements _ I).
Qed.

Lemma replace_subview_spec d x sv old w :
  effects w d = Some x -> cclient x = Some old -> sv <> old ->
  let w' := subview_replace_subview d x sv w in
  effects w' d = Some (with_cclient (Some sv) (c_actor (clients w sv)) x)
  /\ (forall d', d' <> d -> effects w' d' = effects w d')
  /\ (forall c, effect (clients w' c)
                = if Nat.eqb c sv then Some d
                  else if Nat.eqb c old then None else effect (clients w c))
  /\ (forall c, c_flags (clients w' c)
                = if Nat.eqb c sv
                  then flags_or (c_flags (clients w sv)) DontUpdate_EffectRunning
                  else if Nat.eqb c old
                  then flags_clear (c_flags (clients w old)) DontUpdate_EffectRunning
                  else c_flags (clients w c))
  /\ timelines w' = timelines w /\ next_data w' = next_data w
  /\ next_timeline w' = next_timeline w
  /\ Orientation_change w' = Orientation_change w
  /\ stage_handlers w' = stage_handlers w /\ log w' = log w
  /\ sources w' = sources w /\ rm_state w' = rm_state w.
Proof.
  intros Hx Hc Hne. unfold subview_replace_subview. rewrite Hc.
  rewrite hide_opt_actor_eq, unref_opt_actor_eq, ref_opt_actor_eq.
  assert (Hne' : (sv =? old)%nat = false) by now apply Nat.eqb_neq.
  cbv zeta. wsimpl. rewrite !upd_same. wsimpl.
  repeat split; try reflexivity.
  - unfold upd. rewrite Hne'. reflexivity.
  - intros d' Hd. now rewrite upd_diff.
  - intros c. unfold upd.
    destruct (Nat.eqb_spec c sv) as [->|]; wsimpl; [reflexivity|].
    destruct (Nat.eqb_spec c old) as [->|]; wsimpl; reflexivity.
  - intros c. unfold upd.
    destruct (Nat.eqb_spec c sv) as [->|]; wsimpl.
    + rewrite Hne'. reflexivity.
    + destruct (Nat.eqb_spec c old) as [->|]; wsimpl; reflexivity.
Qed.

Lemma replace_mainview_spec d x mv old w :
  effects w d = Some x -> cclient2 x = Some old -> mv <> old ->
  let w' := subview_replace_mainview d x mv w in
  effects w' d = Some (with_cclient2 (Some mv) (c_actor (clients w mv)) x)
  /\ (forall d', d' <> d -> effects w' d' = effects w d')
  /\ (forall c, effect (clients w' c)
                = if Nat.eqb c mv then Some d
                  else if Nat.eqb c old then None else effect (clients w c))
  /\ (forall c, c_flags (clients w' c)
                = if Nat.eqb c mv
                  then flags_or (c_flags (clients w mv)) DontUpdate_EffectRunning
                  else if Nat.eqb c old
                  then flags_clear (c_flags (clients w old)) DontUpdate_EffectRunning
                  else c_flags (clients w c))
  /\ timelines w' = timelines w /\ next_data w' = next_data w
  /\ next_timeline w' = next_timeline w
  /\ Orientation_change w' = Orientation_change w
  /\ stage_handlers w' = stage_handlers w /\ log w' = log w
  /\ sources w' = sources w /\ rm_state w' = rm_state w.
Proof.
  intros Hx Hc Hne. unfold subview_replace_mainview. rewrite Hc.
  rewrite hide_opt_actor_eq, unref_opt_actor_eq, ref_opt_actor_eq.
  assert (Hne' : (mv =? old)%nat = false) by now apply Nat.eqb_neq.
  cbv zeta. wsimpl. rewrite !upd_same. wsimpl.
  repeat split; try reflexivity.
  - unfold upd. rewrite Hne'. reflexivity.
  - intros d' Hd. now rewrite upd_diff.
  - intros c. unfold upd.
    destruct (Nat.eqb_spec c mv) as [->|]; wsimpl; [reflexivity|].
    destruct (Nat.eqb_spec c old) as [->|]; wsimpl; reflexivity.
  - intros c. unfold upd.
    destruct (Nat.eqb_spec c mv) as [->|]; wsimpl.
    + rewrite Hne'. reflexivity.
    + destruct (Nat.eqb_spec c old) as [->|]; wsimpl; reflexivity.
Qed.

(** ** The invariant under the entry points *)

Lemma opt_eqb_Some a c : opt_eqb a (Some c) = true -> a = Some c.
Proof.
  destruct a as [k|]; simpl; [|discriminate].
  intros H. apply Nat.eqb_eq in H. now subst.
Qed.

Lemma Similar_same w w' l :
  next_data w' = next_data w -> next_timeline w' = next_timeline w ->
  effects w' = effects w ->
  (forall c, effect (clients w' c) = effect (clients w c)) ->
  timelines w' = timelines w ->
  effects_waiting (Orientation_change w')
  = effects_waiting (Orientation_change w) ->
  stage_handlers w' = stage_handlers w ->
  log w' = l ++ log w -> silent l -> Similar w w'.
Proof.
  intros H1 H2 H3 H4 H5 H6 H7 H8 H9. constructor; auto.
  - intros d. rewrite H3. apply data_same_refl.
  - intros t. rewrite H5. apply tl_calls_refl.
  - exists l. auto.
Qed.

Lemma Inv_no_pointer_to_fresh w c : Inv w -> effect (clients w c) <> Some (next_data w).
Proof.
  intros I H. destruct (inv_effect _ I c _ H) as (x & t & Hx & _).
  pose proof (Inv_live_bound _ _ _ I Hx). lia.
Qed.

Section EntryInv.

Variable E : Env.

Ltac keep_pointers Hcl :=
  let c := fresh "c" in let d := fresh "d" in let Hc := fresh "Hc" in
  intros c d Hc; left; rewrite <- Hcl; exact Hc.

Lemma popup_Inv mgr c ev w : Inv w -> returns (hd_transition_popup E mgr c ev w) Inv.
Proof.
  intros I. destruct (c_actor (clients w c)) as [actor|] eqn:Ha.
  - eapply returns_weaken; [apply (popup_spec E mgr c ev w actor Ha)|].
    intros w' (x & St & _ & _ & _ & Hcl & Hst & _).
    eapply Inv_Started; [exact I | exact St | keep_pointers Hcl |].
    intros d Hd. left. now rewrite <- Hst.
  - rewrite popup_without_actor by exact Ha. now apply returns_ret.
Qed.

Lemma fade_Inv mgr c ev w : Inv w -> returns (hd_transition_fade E mgr c ev w) Inv.
Proof.
  intros I. eapply returns_weaken; [apply fade_spec|].
  intros w' (x & St & _ & _ & _ & _ & Hcl & Hst & _).
  eapply Inv_Started; [exact I | exact St | keep_pointers Hcl |].
  intros d Hd. left. now rewrite <- Hst.
Qed.

Lemma notification_Inv mgr c ev w :
  Inv w -> returns (hd_transition_notification E mgr c ev w) Inv.
Proof.
  intros I. eapply returns_weaken; [apply notification_spec|].
  intros w' (x & St & _ & _ & _ & _ & Hcl & Hst & _).
  eapply Inv_Started; [exact I | exact St | keep_pointers Hcl |].
  intros d Hd. left. now rewrite <- Hst.
Qed.

Lemma close_app_Inv mgr c w : Inv w -> returns (hd_transition_close_app E mgr c w) Inv.
Proof.
  intros I.
  destruct (c_type_is_app (clients w c)) eqn:H1.
  2:{ unfold hd_transition_close_app. rewrite H1. now apply returns_ret. }
  destruct (rm_state w =? HDRM_STATE_TASK_NAV E)%Z eqn:H2.
  { unfold hd_transition_close_app. rewrite H1, H2. now apply returns_ret. }
  destruct ((0 <? app_stack_index (clients w c))%Z
            && negb (app_is_leader (clients w c))) eqn:H3.
  { unfold hd_transition_close_app. rewrite H1, H2, H3. apply returns_ret.
    eapply Inv_Similar; [exact I|].
    apply (Similar_same _ _ [CDebug]); try reflexivity. repeat split. }
  destruct (c_actor (clients w c)) as [actor|] eqn:H4.
  2:{ unfold hd_transition_close_app. rewrite H1, H2, H3, H4. now apply returns_ret. }
  destruct (a_visible (actors w actor)) eqn:H5.
  2:{ unfold hd_transition_close_app. rewrite H1, H2, H3, H4, H5.
      now apply returns_ret. }
  destruct ((geo_width (clutter_actor_get_geometry E (actors w actor)) <? 16)%Z
            || (geo_height (clutter_actor_get_geometry E (actors w actor)) <? 16)%Z)
    eqn:H6.
  { unfold hd_transition_close_app. rewrite H1, H2, H3, H4, H5, H6.
    now apply returns_ret. }
  eapply returns_weaken; [apply (close_app_spec E mgr c w actor H1 H2 H3 H4 H5 H6)|].
  intros w' (x & St & _ & _ & _ & Hcl & Hst & _).
  eapply Inv_Started; [exact I | exact St | keep_pointers Hcl |].
  intros d Hd. rewrite Hst in Hd. destruct Hd as [<-|Hd]; auto.
Qed.

Lemma close_app_before_rotate_Inv mgr c w :
  Inv w -> returns (hd_transition_close_app_before_rotate E mgr c w) Inv.
Proof.
  intros I.
  destruct (c_type_is_app (clients w c)) eqn:H1.
  2:{ unfold hd_transition_close_app_before_rotate. rewrite H1. now apply returns_ret. }
  destruct (rm_state w =? HDRM_STATE_TASK_NAV E)%Z eqn:H2.
  { unfold hd_transition_close_app_before_rotate. rewrite H1, H2.
    now apply returns_ret. }
  destruct (c_actor (clients w c)) as [actor|] eqn:H4.
  2:{ unfold hd_transition_close_app_before_rotate. rewrite H1, H2, H4.
      now apply returns_ret. }
  destruct (a_visible (actors w actor)) eqn:H5.
  2:{ unfold hd_transition_close_app_before_rotate. rewrite H1, H2, H4, H5.
      now apply returns_ret. }
  eapply returns_weaken;
    [apply (close_app_before_rotate_spec E mgr c w actor H1 H2 H4 H5)|].
  intros w' (x & Df & _). eapply Inv_Deferred; eassumption.
Qed.

(** A request between two views that are both in transition is dropped. *)
Lemma subview_both_in_trans mgr sv mv ev w :
  in_trans sv w = true -> in_trans mv w = true ->
  hd_transition_subview E mgr (Some sv) (Some mv) ev w
  = Ok (if Nat.eqb sv mv then emit CCritical w else w).
Proof.
  intros H1 H2. unfold hd_transition_subview. cbn [opt_eqb].
  destruct (Nat.eqb sv mv); [reflexivity|].
  rewrite H1, H2. cbn [andb].
  destruct (negb (has_cm_client (clients w sv)) || negb (has_cm_client (clients w mv))
            || negb (STATE_IS_APP E (rm_state w))); reflexivity.
Qed.

(** The second push of a series: the mainview we leave is still sliding
    in, and the running effect takes our subview in its place. *)
Lemma subview_push_over mgr sv mv w d x :
  sv <> mv ->
  has_cm_client (clients w sv) = true -> has_cm_client (clients w mv) = true ->
  STATE_IS_APP E (rm_state w) = true ->
  in_trans sv w = false -> in_trans mv w = true ->
  effect (clients w mv) = Some d -> effects w d = Some x ->
  event x = MBWMCompMgrClientEventMap -> cclient x = Some mv ->
  hd_transition_subview E mgr (Some sv) (Some mv) MBWMCompMgrClientEventMap w
  = Ok (subview_replace_subview d x sv w).
Proof.
  intros Hne H1 H2 H3 H4 H5 H6 H7 H8 H9. unfold hd_transition_subview.
  cbn [opt_eqb]. apply Nat.eqb_neq in Hne. rewrite Hne.
  rewrite H1, H2, H3, H4, H5, H6. cbn [negb orb andb event_eqb].
  unfold deref_data. rewrite H7. cbn [bind]. unfold is_map. rewrite H8, H9.
  cbn [event_eqb opt_eqb]. rewrite Nat.eqb_refl. reflexivity.
Qed.

(** The second pop of a series, the same the other way round. *)
Lemma subview_pop_over mgr sv mv w d x :
  sv <> mv ->
  has_cm_client (clients w sv) = true -> has_cm_client (clients w mv) = true ->
  STATE_IS_APP E (rm_state w) = true ->
  in_trans sv w = true -> in_trans mv w = false ->
  effect (clients w sv) = Some d -> effects w d = Some x ->
  event x = MBWMCompMgrClientEventUnmap -> cclient2 x = Some sv ->
  hd_transition_subview E mgr (Some sv) (Some mv) MBWMCompMgrClientEventUnmap w
  = Ok (subview_replace_mainview d x mv w).
Proof.
  intros Hne H1 H2 H3 H4 H5 H6 H7 H8 H9. unfold hd_transition_subview.
  cbn [opt_eqb]. apply Nat.eqb_neq in Hne. rewrite Hne.
  rewrite H1, H2, H3, H4, H5, H6. cbn [negb orb andb event_eqb].
  unfold deref_data. rewrite H7. cbn [bind]. unfold is_unmap. rewrite H8, H9.
  cbn [event_eqb opt_eqb]. rewrite Nat.eqb_refl. reflexivity.
Qed.

Lemma event_eqb_eq a b : event_eqb a b = true -> a = b.
Proof. destruct a, b; simpl; congruence. Qed.

Lemma subview_Inv mgr s m ev w :
  Inv w -> returns (hd_transition_subview E mgr s m ev w) Inv.
Proof.
  intros I.
  destruct (opt_eqb s m) eqn:Hsm.
  { unfold hd_transition_subview. rewrite Hsm. apply returns_ret.
    eapply Inv_Similar; [exact I|].
    apply (Similar_same _ _ [CCritical]); try reflexivity. repeat split. }
  destruct s as [sv|].
  2:{ unfold hd_transition_subview. rewrite Hsm. destruct m; now apply returns_ret. }
  destruct m as [mv|].
  2:{ unfold hd_transition_subview. rewrite Hsm. now apply returns_ret. }
  cbn [opt_eqb] in Hsm. assert (Hne : sv <> mv) by now apply Nat.eqb_neq.
  destruct (has_cm_client (clients w sv)) eqn:H1.
  2:{ unfold hd_transition_subview. cbn [opt_eqb]. rewrite Hsm, H1.
      now apply returns_ret. }
  destruct (has_cm_client (clients w mv)) eqn:H2.
  2:{ unfold hd_transition_subview. cbn [opt_eqb]. rewrite Hsm, H1, H2.
      now apply returns_ret. }
  destruct (STATE_IS_APP E (rm_state w)) eqn:H3.
  2:{ unfold hd_transition_subview. cbn [opt_eqb]. rewrite Hsm, H1, H2, H3.
      now apply returns_ret. }
  destruct (in_trans sv w) eqn:H4, (in_trans mv w) eqn:H5.
  - rewrite subview_both_in_trans by assumption. rewrite Hsm. now apply returns_ret.
  - (* the subview is in transition *)
    destruct (event_eqb ev MBWMCompMgrClientEventUnmap) eqn:Hev.
    2:{ unfold hd_transition_subview. cbn [opt_eqb].
        rewrite Hsm, H1, H2, H3, H4, H5, Hev. now apply returns_ret. }
    apply event_eqb_eq in Hev. subst ev.
    destruct (effect (clients w sv)) as [d|] eqn:He.
    2:{ unfold hd_transition_subview. cbn [opt_eqb].
        rewrite Hsm, H1, H2, H3, H4, H5, He. now apply returns_ret. }
    destruct (inv_effect _ I sv d He) as (x & t & Hx & Ht & Hcc).
    destruct (is_unmap x && opt_eqb (cclient2 x) (Some sv)) eqn:Hc.
    2:{ unfold hd_transition_subview, deref_data. cbn [opt_eqb].
        rewrite Hsm, H1, H2, H3, H4, H5, He, Hx. cbn [negb orb andb event_eqb bind].
        rewrite Hc. now apply returns_ret. }
    apply andb_prop in Hc. destruct Hc as [Hc1 Hc2].
    apply event_eqb_eq in Hc1. apply opt_eqb_Some in Hc2.
    rewrite (subview_pop_over mgr sv mv w d x) by assumption.
    apply returns_ret.
    assert (Hne' : mv <> sv) by congruence.
    destruct (replace_mainview_spec d x mv sv w Hx Hc2 Hne')
      as (R1 & R2 & R3 & R4 & R5 & R6 & R7 & R8 & R9 & R10 & _).
    eapply (Inv_repoint w _ d x _ t); try eassumption; try reflexivity.
    + intros c d' Hc. rewrite R3 in Hc.
      destruct (Nat.eqb_spec c mv) as [->|Hcm].
      { injection Hc as <-. left. split; [reflexivity|]. right. reflexivity. }
      destruct (Nat.eqb_spec c sv) as [->|Hcs]; [discriminate|].
      destruct (Nat.eq_dec d' d) as [->|Hd]; [|now right].
      left. split; [reflexivity|].
      destruct (inv_effect _ I c d Hc) as (y & t' & Hy & _ & Hcy).
      rewrite Hx in Hy. injection Hy as <-.
      destruct Hcy as [Hcy|Hcy]; [now left|congruence].
    + now rewrite R8.
  - (* the mainview is in transition *)
    destruct (event_eqb ev MBWMCompMgrClientEventMap) eqn:Hev.
    2:{ unfold hd_transition_subview. cbn [opt_eqb].
        rewrite Hsm, H1, H2, H3, H4, H5, Hev. now apply returns_ret. }
    apply event_eqb_eq in Hev. subst ev.
    destruct (effect (clients w mv)) as [d|] eqn:He.
    2:{ unfold hd_transition_subview. cbn [opt_eqb].
        rewrite Hsm, H1, H2, H3, H4, H5, He. now apply returns_ret. }
    destruct (inv_effect _ I mv d He) as (x & t & Hx & Ht & Hcc).
    destruct (is_map x && opt_eqb (cclient x) (Some mv)) eqn:Hc.
    2:{ unfold hd_transition_subview, deref_data. cbn [opt_eqb].
        rewrite Hsm, H1, H2, H3, H4, H5, He, Hx. cbn [negb orb andb event_eqb bind].
        rewrite Hc. now apply returns_ret. }
    apply andb_prop in Hc. destruct Hc as [Hc1 Hc2].
    apply event_eqb_eq in Hc1. apply opt_eqb_Some in Hc2.
    rewrite (subview_push_over mgr sv mv w d x) by assumption.
    apply returns_ret.
    destruct (replace_subview_spec d x sv mv w Hx Hc2 Hne)
      as (R1 & R2 & R3 & R4 & R5 & R6 & R7 & R8 & R9 & R10 & _).
    eapply (Inv_repoint w _ d x _ t); try eassumption; try reflexivity.
    + intros c d' Hc. rewrite R3 in Hc.
      destruct (Nat.eqb_spec c sv) as [->|Hcs].
      { injection Hc as <-. left. split; [reflexivity|]. left. reflexivity. }
      destruct (Nat.eqb_spec c mv) as [->|Hcm]; [discriminate|].
      destruct (Nat.eq_dec d' d) as [->|Hd]; [|now right].
      left. split; [reflexivity|].
      destruct (inv_effect _ I c d Hc) as (y & t' & Hy & _ & Hcy).
      rewrite Hx in Hy. injection Hy as <-.
      destruct Hcy as [Hcy|Hcy]; [congruence|now right].
    + now rewrite R8.
  - eapply returns_weaken;
      [apply (subview_new_spec E mgr sv mv ev w Hne H1 H2 H3 H4 H5)|].
    intros w' (x & St & Hc1 & Hc2 & _ & _ & _ & Hcl & _ & _ & _ & _ & _ & Hst & _).
    eapply Inv_Started; [exact I | exact St | |].
    + intros c d Hc. rewrite Hcl in Hc.
      destruct (Nat.eqb_spec c sv) as [->|]; cbn [orb] in Hc.
      { injection Hc as <-. right. auto. }
      destruct (Nat.eqb_spec c mv) as [->|].
      { injection Hc as <-. right. auto. }
      now left.
    + intros d Hd. left. now rewrite <- Hst.
Qed.

End EntryInv.

(** ** The invariant under the main loop's callbacks *)

Lemma Similar_frame w A h d k : Similar w (emit (CNewFrame h d k) (set_actors A w)).
Proof. apply (Similar_same _ _ [CNewFrame h d k]); try reflexivity. repeat split. Qed.

Lemma Similar_timeline w t tl tl' c :
  timelines w t = Some tl ->
  tl_new_frame tl' = tl_new_frame tl -> tl_completed tl' = tl_completed tl ->
  (tl_running tl' = true -> tl_running tl = true) -> silent [c] ->
  Similar w (emit c (set_timelines (upd (timelines w) t (Some tl')) w)).
Proof.
  intros H1 H2 H3 H4 H5. constructor; wsimpl; try reflexivity.
  - intros d. apply data_same_refl.
  - intros t'. unfold upd. destruct (Nat.eqb_spec t' t) as [->|].
    + rewrite H1. simpl. auto.
    + apply tl_calls_refl.
  - exists [c]. auto.
Qed.

Lemma Similar_timeline' w t tl tl' :
  timelines w t = Some tl ->
  tl_new_frame tl' = tl_new_frame tl -> tl_completed tl' = tl_completed tl ->
  (tl_running tl' = true -> tl_running tl = true) ->
  Similar w (set_timelines (upd (timelines w) t (Some tl')) w).
Proof.
  intros H1 H2 H3 H4. constructor; wsimpl; try reflexivity.
  - intros d. apply data_same_refl.
  - intros t'. unfold upd. destruct (Nat.eqb_spec t' t) as [->|].
    + rewrite H1. simpl. auto.
    + apply tl_calls_refl.
  - exists []. split; [reflexivity | apply silent_nil].
Qed.

Section LoopInv.

Variable E : Env.

Lemma emit_new_frame_ok t k w tl h d x :
  timelines w t = Some tl -> tl_new_frame tl = Some (h, d) ->
  effects w d = Some x ->
  emit_new_frame E t k w
  = Ok (emit (CNewFrame h d k) (set_actors (frame_callback E h w tl k x) w)).
Proof.
  intros H1 H2 H3. unfold emit_new_frame, deref_timeline. rewrite H1. cbn [bind].
  rewrite H2. now apply call_frame_ok.
Qed.

Lemma emit_new_frame_none t k w tl :
  timelines w t = Some tl -> tl_new_frame tl = None -> emit_new_frame E t k w = Ok w.
Proof.
  intros H1 H2. unfold emit_new_frame, deref_timeline. rewrite H1. cbn [bind].
  now rewrite H2.
Qed.

(** [hd_transition_stop] on a client with an effect: the timeline is
    stopped, its callback runs with the number of frames, and the record
    is torn down. *)
Lemma stop_unfold mgr c w d x t tl h :
  effect (clients w c) = Some d -> effects w d = Some x -> timeline x = Some t ->
  timelines w t = Some tl -> tl_new_frame tl = Some (h, d) ->
  hd_transition_stop E mgr c w
  = let tl0 := with_current_frame 0 (with_tl_running false tl) in
    let w0 := emit (CTimelineStop t)
                (set_timelines (upd (timelines w) t (Some tl0)) w) in
    hd_transition_completed E (Some t) d
      (emit (CNewFrame h d (n_frames tl))
         (set_actors (frame_callback E h w0 tl0 (n_frames tl) x) w0)).
Proof.
  intros H1 H2 H3 H4 H5. unfold hd_transition_stop, deref_data, deref_timeline.
  rewrite H1, H2. cbn [bind]. rewrite H3, H4. cbn [bind].
  unfold clutter_timeline_stop. rewrite (on_timeline_ok _ _ _ _ H4). cbn [bind].
  cbv zeta.
  erewrite emit_new_frame_ok; [reflexivity | wsimpl; apply upd_same | exact H5
                               | exact H2].
Qed.

Lemma stop_without_effect mgr c w :
  effect (clients w c) = None -> hd_transition_stop E mgr c w = Ok w.
Proof. intros H. unfold hd_transition_stop. now rewrite H. Qed.

Lemma stop_Inv mgr c w : Inv w -> returns (hd_transition_stop E mgr c w) Inv.
Proof.
  intros I. destruct (effect (clients w c)) as [d|] eqn:He.
  2:{ rewrite stop_without_effect by exact He. now apply returns_ret. }
  destruct (inv_effect _ I c d He) as (x & t & Hx & Ht & _).
  destruct (inv_own _ I d x t Hx Ht) as (tl & h & Htl & Hh & _).
  rewrite (stop_unfold mgr c w d x t tl h He Hx Ht Htl Hh). cbv zeta.
  set (tl0 := with_current_frame 0 (with_tl_running false tl)).
  set (w0 := emit (CTimelineStop t) (set_timelines (upd (timelines w) t (Some tl0)) w)).
  set (w1 := emit _ (set_actors _ w0)).
  assert (S0 : Similar w w0).
  { apply (Similar_timeline w t tl tl0); auto; try discriminate. repeat split. }
  assert (S1 : Similar w0 w1) by apply Similar_frame.
  assert (I1 : Inv w1).
  { eapply Inv_Similar; [|exact S1]. eapply Inv_Similar; [exact I|exact S0]. }
  assert (Ht1 : timelines w1 t = Some tl0) by (subst w1 w0; wsimpl; apply upd_same).
  eapply returns_weaken.
  - apply (completed_spec E (Some t) d w1 x).
    + exact Hx.
    + intros t' Heq. injection Heq as <-. rewrite Ht1. discriminate.
  - cbv beta. intros w' T. eapply Inv_TornDown; [exact I1 | exact T | exact Hx | |].
    + intros t' tl' Ht' Htl'. rewrite Ht in Ht'. injection Ht' as <-.
      rewrite Ht1 in Htl'. injection Htl' as <-. reflexivity.
    + intros Hin. change (In d (effects_waiting (Orientation_change w))) in Hin.
      destruct (inv_waiting _ I d Hin) as (y & Hy & Hty). congruence.
Qed.

Lemma timeline_new_frame_Inv t k w :
  Inv w -> returns (timeline_new_frame E t k w) Inv.
Proof.
  intros I. unfold timeline_new_frame.
  destruct (timelines w t) as [tl|] eqn:Htl; [|now apply returns_ret].
  destruct (tl_running tl && (0 <=? k)%Z && (k <? n_frames tl)%Z) eqn:Hc;
    [|now apply returns_ret].
  apply andb_prop in Hc. destruct Hc as [Hc _].
  apply andb_prop in Hc. destruct Hc as [Hrun _].
  rewrite (on_timeline_ok _ _ _ _ Htl). cbn [bind].
  set (w0 := set_timelines _ w).
  assert (S0 : Similar w w0) by (apply (Similar_timeline' w t tl); auto).
  assert (Ht0 : timelines w0 t = Some (with_current_frame k tl))
    by (subst w0; wsimpl; apply upd_same).
  destruct (tl_new_frame tl) as [[h d]|] eqn:Hh.
  - destruct (inv_running _ I t tl Htl Hrun) as [R1 _].
    destruct (R1 h d Hh) as (x & Hx & _).
    rewrite (emit_new_frame_ok t k w0 _ h d x Ht0 Hh Hx).
    apply returns_ret.
    eapply Inv_Similar; [|apply Similar_frame]. eapply Inv_Similar; eassumption.
  - rewrite (emit_new_frame_none t k w0 _ Ht0 Hh). apply returns_ret.
    eapply Inv_Similar; eassumption.
Qed.

Lemma on_screen_size_changed_Similar d w x :
  effects w d = Some x ->
  returns (on_screen_size_changed E d w) (fun w' => Similar w w').
Proof.
  intros Hx. unfold on_screen_size_changed, deref_data. rewrite Hx. cbn [bind].
  cbv zeta.
  destruct (match cclient x with
            | Some c => c_actor (clients w c)
            | None => None
            end) as [a|];
    destruct (geo_height (clutter_actor_get_geometry E (actors w (stage E)))
              <? geo_width (clutter_actor_get_geometry E (actors w (stage E))))%Z;
    apply returns_ret; constructor; wsimpl; try reflexivity;
    try (intros d'; unfold upd; destruct (Nat.eqb_spec d' d) as [->|];
         [rewrite Hx; simpl; auto 10 | apply data_same_refl]);
    try (intros t; apply tl_calls_refl);
    (exists []; split; [reflexivity | apply silent_nil]).
Qed.

Lemma screen_size_changes_Similar l w :
  (forall d, In d l -> effects w d <> None) ->
  returns (screen_size_changes E l w) (fun w' => Similar w w').
Proof.
  revert w. induction l as [|d l IH]; intros w Hl; cbn [screen_size_changes].
  - apply returns_ret. apply Similar_refl.
  - destruct (effects w d) as [x|] eqn:Hx; [|now destruct (Hl d (or_introl eq_refl))].
    apply returns_bind. eapply returns_weaken;
      [apply (on_screen_size_changed_Similar d w x Hx)|].
    cbv beta. intros w1 S1. eapply returns_weaken; [apply IH|].
    + intros d' Hd' Hn. apply (Hl d' (or_intror Hd')).
      apply data_same_None_r. rewrite <- Hn. apply (sim_effects _ _ S1).
    + cbv beta. intros w2 S2. eapply Similar_trans; eassumption.
Qed.

Lemma rotate_ignore_damage_Similar w :
  Similar w (snd (hd_transition_rotate_ignore_damage w)).
Proof.
  unfold hd_transition_rotate_ignore_damage.
  destruct (phase_eqb (phase (Orientation_change w)) WAITING); [|apply Similar_refl].
  destruct (Rltb _ _); [|apply Similar_refl].
  destruct (negb (Nat.eqb (timeout_id (Orientation_change w)) 0%nat));
    cbn [g_timeout_add snd]; apply (Similar_same _ _ []); try reflexivity;
    apply silent_nil.
Qed.

End LoopInv.
(** ** The rotation machine *)

Lemma on_oc_waiting_twice l l' w :
  on_oc (with_effects_waiting l) (on_oc (with_effects_waiting l') w)
  = on_oc (with_effects_waiting l) w.
Proof. reflexivity. Qed.

Lemma on_oc_waiting_id w :
  on_oc (with_effects_waiting (effects_waiting (Orientation_change w))) w = w.
Proof. destruct w as [? ? ? ? ? ? ? ? ? [] ? ? ? ? ? ? ? ? ? ?]. reflexivity. Qed.

Lemma timer_reset w :
  match timer (Orientation_change w) with
  | Some _ => on_oc (with_timer None) w
  | None => w
  end = on_oc (with_timer None) w.
Proof.
  destruct w as [? ? ? ? ? ? ? ? ? [? ? ? ? ? ? [z|] ?] ? ? ? ? ? ? ? ? ? ?];
    reflexivity.
Qed.

Lemma Inv_waiting_sub w l :
  Inv w -> NoDup l ->
  (forall d, In d l -> In d (effects_waiting (Orientation_change w))) ->
  Inv (on_oc (with_effects_waiting l) w).
Proof. intros [] Hnd Hsub. constructor; wsimpl; auto. Qed.

Lemma Calm_refl w : Calm w w.
Proof.
  constructor; try reflexivity; [apply same_env_refl|].
  exists []. repeat split.
Qed.

Lemma Calm_trans w1 w2 w3 : Calm w1 w2 -> Calm w2 w3 -> Calm w1 w3.
Proof.
  intros [A1 A2 A3 A4 A5 A6 (l1 & L1 & P1 & Q1)] [B1 B2 B3 B4 B5 B6 (l2 & L2 & P2 & Q2)].
  constructor; try congruence.
  - eapply same_env_trans; eassumption.
  - exists (l2 ++ l1). rewrite L2, L1, app_assoc.
    rewrite fsm_entries_app, screen_reconfigurations_app, P1, P2, Q1, Q2.
    repeat split.
Qed.

Lemma TornDown_Calm w w1 d x f :
  TornDown w w1 d x -> Calm (on_oc f w) (on_oc f w1).
Proof.
  intros [T1 T2 _ _ _ T6 _ T8 T9 _ T11 (l & L & _ & _ & _ & L4 & L5 & _)].
  constructor; wsimpl; try congruence; try assumption.
  exists l. auto.
Qed.

Lemma TornDown_on_oc w w1 d x f :
  TornDown w w1 d x -> TornDown (on_oc f w) (on_oc f w1) d x.
Proof. intros []. constructor; wsimpl; try assumption. congruence. Qed.

Ltac enter_machine :=
  cbn [hd_transition_rotating_fsm]; cbv zeta; rewrite timer_reset;
  match goal with
  | |- context [on_oc (with_timer None) ?W] =>
    let we := fresh "we" in
    let Hwe := fresh "Hwe" in
    remember (on_oc (with_timer None) W) as we eqn:Hwe
  end.

Ltac facts := first [ wchase; reflexivity
                    | intros ?c; wchase; reflexivity
                    | repeat split; wchase; reflexivity ].

Section Machine.

Variable E : Env.

(** The loop over the deferred effects completes each of them. *)
Lemma drain_spec l : forall w,
  Inv (on_oc (with_effects_waiting l) w) ->
  returns (complete_effects_waiting E l w) (fun w' =>
    Inv (on_oc (with_effects_waiting []) w')
    /\ Calm (on_oc (with_effects_waiting []) w) (on_oc (with_effects_waiting []) w')
    /\ rm_state w' = rm_state w).
Proof.
  induction l as [|d rest IH]; intros w I; cbn [complete_effects_waiting].
  - apply returns_ret. split; [exact I|]. split; [apply Calm_refl | reflexivity].
  - destruct (inv_waiting _ I d (or_introl eq_refl)) as (x & Hx & Ht).
    change (effects w d = Some x) in Hx.
    pose proof (inv_waiting_nodup _ I) as Hnd. cbn in Hnd.
    inversion Hnd as [|? ? Hd Hrest]; subst.
    apply returns_bind. eapply returns_weaken.
    + apply (completed_spec E None d w x Hx). intros t Heq. discriminate.
    + cbv beta. intros w1 T.
      assert (I1 : Inv (on_oc (with_effects_waiting rest) w1)).
      { eapply (Inv_TornDown (on_oc (with_effects_waiting rest) w)).
        - rewrite <- (on_oc_waiting_twice rest (d :: rest) w).
          apply Inv_waiting_sub; [exact I | exact Hrest |].
          intros d' Hd'. right. exact Hd'.
        - apply TornDown_on_oc. exact T.
        - exact Hx.
        - intros t tl Heq. congruence.
        - exact Hd. }
      eapply returns_weaken.
      * apply IH. rewrite on_oc_waiting_twice. exact I1.
      * cbv beta. intros w' (I' & C' & R'). split; [exact I'|]. split.
        -- eapply Calm_trans; [|exact C'].
           rewrite on_oc_waiting_twice. eapply TornDown_Calm. exact T.
        -- rewrite R'. wsimpl. apply (td_rm_state _ _ _ _ T).
Qed.

Lemma Fading_pre w W w' ph fp :
  sources W = sources w -> next_source W = next_source w ->
  next_timeline W = next_timeline w -> next_data W = next_data w ->
  transitions_ini W = transitions_ini w ->
  new_direction (Orientation_change W) = new_direction (Orientation_change w) ->
  Fading W w' ph fp -> Fading w w' ph fp.
Proof.
  intros H1 H2 H3 H4 H5 H6 [F1 F2 F3 F4 F5 F6 F7 F8].
  constructor; try congruence.
  rewrite <- H3, <- H4, <- H6.
  replace (rotation_angle w) with (rotation_angle W); [exact F8|].
  unfold rotation_angle, hd_transition_get_double, hd_transition_get_keyfile.
  now rewrite H5.
Qed.

Lemma Armed_pre w W w' :
  sources W = sources w -> next_source W = next_source w ->
  next_timeline W = next_timeline w -> next_data W = next_data w ->
  transitions_ini W = transitions_ini w -> now W = now w ->
  new_direction (Orientation_change W) = new_direction (Orientation_change w) ->
  wm (Orientation_change W) = wm (Orientation_change w) ->
  (exists l, log W = l ++ log w) ->
  Armed W w' -> Armed w w'.
Proof.
  intros H1 H2 H3 H4 H5 H6 H7 H8 (l0 & L0) [F1 F2 F3 F4 F5 F6 F7 (l & L & Hin)].
  assert (Hd : damage_timeout W = damage_timeout w).
  { unfold damage_timeout, hd_transition_get_double, hd_transition_get_keyfile.
    now rewrite H5. }
  constructor; try congruence.
  exists (l ++ l0). rewrite L, L0, app_assoc. split; [reflexivity|].
  apply in_or_app. left. rewrite <- H7, <- H8. exact Hin.
Qed.

Lemma Rested_pre w W w' :
  sources W = sources w -> next_source W = next_source w ->
  next_timeline W = next_timeline w -> next_data W = next_data w ->
  Rested W w' -> Rested w w'.
Proof. intros H1 H2 H3 H4 []. constructor; congruence. Qed.

Lemma Machine_pre w W w' e1 e2 r1 r2 nd :
  new_direction (Orientation_change W) = nd ->
  new_direction (Orientation_change w) = nd ->
  wm (Orientation_change W) = wm (Orientation_change w) ->
  same_env w W ->
  (exists l, log W = l ++ log w /\ fsm_entries l = e1
             /\ screen_reconfigurations l = r1) ->
  Machine W w' e2 r2 -> Machine w w' (e1 ++ e2) (r1 + r2).
Proof.
  intros H1 H2 H3 H4 (l0 & L0 & P0 & Q0) [M1 M2 M3 M4 (l & L & P & Q)].
  constructor; try congruence.
  - eapply same_env_trans; eassumption.
  - exists (l ++ l0). rewrite L, L0, app_assoc.
    rewrite fsm_entries_app, screen_reconfigurations_app, P, Q, P0, Q0.
    repeat split. lia.
Qed.

(** A fade started by the machine, in a world [W] that holds what [b]
    holds. *)
Lemma machine_fades b W fp k :
  Inv b ->
  next_data W = next_data b -> next_timeline W = next_timeline b ->
  effects W = effects b ->
  (forall c, effect (clients W c) = effect (clients b c)) ->
  timelines W = timelines b ->
  effects_waiting (Orientation_change W) = effects_waiting (Orientation_change b) ->
  stage_handlers W = stage_handlers b ->
  log W = k ++ log b -> silent k ->
  sources W = sources b -> next_source W = next_source b -> same_env b W ->
  new_direction (Orientation_change W) = new_direction (Orientation_change b) ->
  wm (Orientation_change W) = wm (Orientation_change b) ->
  timeout_id (Orientation_change W) = 0%nat ->
  timer (Orientation_change W) = None ->
  direction (Orientation_change W) = new_direction (Orientation_change W) ->
  returns (hd_transition_fade_and_rotate E fp
             (is_goto_portrait (direction (Orientation_change W))) true W)
    (fun w' => Inv w' /\ Fading b w' (phase (Orientation_change W)) fp
               /\ Machine b w' (fsm_entries k) (screen_reconfigurations k)
               /\ effects_waiting (Orientation_change w')
                  = effects_waiting (Orientation_change b)).
Proof.
  intros I A1 A2 A3 A4 A5 A6 A7 A8 A9 B1 B2 B3 B4 B5 C1 C2 C3.
  assert (IW : Inv W).
  { eapply Inv_Similar; [exact I|]. now apply (Similar_same b W k). }
  eapply returns_weaken; [apply fade_and_rotate_started|].
  cbv beta. intros w' (x & St & _ & _ & _ & Hang & Hcl & Hst & Hlog).
  split.
  { eapply Inv_Started; [exact IW | exact St | |].
    - intros c d Hc. left. now rewrite <- Hcl.
    - intros d Hd. left. now rewrite <- Hst. }
  destruct St as [S1 S2 S3 S4 S5 (tl & T1 & T2 & T3 & T4 & T5) S6 S7 S8 S9 S10
                    (l & L & Q)].
  split; [|split].
  - constructor; try congruence.
    rewrite <- A1, <- A2. exists tl, x. repeat split; try assumption.
    + rewrite S3, Nat.eqb_refl. reflexivity.
    + rewrite Hang, C3, B4. unfold rotation_angle, hd_transition_get_double,
        hd_transition_get_keyfile.
      destruct B3 as (_ & _ & B3 & _). now rewrite B3.
  - constructor; try congruence.
    + eapply same_env_trans; eassumption.
    + exists (l ++ k). rewrite L, A8, app_assoc.
      rewrite fsm_entries_app, screen_reconfigurations_app.
      destruct Q as (_ & _ & Q3 & Q4 & _). rewrite Q3, Q4, app_nil_r. auto.
  - now rewrite S6.
Qed.

Lemma fsm_IDLE fuel w :
  Inv w -> phase (Orientation_change w) = IDLE ->
  returns (hd_transition_rotating_fsm E (S fuel) w) (fun w' =>
    Inv w' /\ Fading w w' FADE_OUT true
    /\ Machine w w' [(IDLE, new_direction (Orientation_change w),
                            direction (Orientation_change w))] 0
    /\ effects_waiting (Orientation_change w')
       = effects_waiting (Orientation_change w)).
Proof.
  intros I Hp. enter_machine.
  assert (Hpe : phase (Orientation_change we) = IDLE) by (wchase; exact Hp).
  rewrite Hpe. cbv iota. rewrite Hp in Hwe.
  match goal with
  | |- returns (hd_transition_fade_and_rotate _ _ _ _ ?W0) _ =>
    remember W0 as W eqn:HW
  end.
  eapply returns_weaken.
  - apply (machine_fades w W true
             [CDebugFsm IDLE (new_direction (Orientation_change w))
                (direction (Orientation_change w))] I); facts.
  - cbv beta. intros w' (I' & F & M & Hwt).
    replace (phase (Orientation_change W)) with FADE_OUT in F by facts.
    auto.
Qed.

Lemma fsm_WAITING_settled fuel w :
  Inv w -> phase (Orientation_change w) = WAITING ->
  direction (Orientation_change w) = new_direction (Orientation_change w) ->
  returns (hd_transition_rotating_fsm E (S fuel) w) (fun w' =>
    Inv w' /\ Fading w w' FADE_IN false
    /\ Machine w w' [(WAITING, new_direction (Orientation_change w),
                               direction (Orientation_change w))] 0
    /\ effects_waiting (Orientation_change w')
       = effects_waiting (Orientation_change w)).
Proof.
  intros I Hp Hd. enter_machine.
  assert (Hpe : phase (Orientation_change we) = WAITING) by (wchase; exact Hp).
  rewrite Hpe. cbv iota. rewrite Hp in Hwe.
  assert (Hde : direction_eqb (direction (Orientation_change we))
                  (new_direction (Orientation_change we)) = true).
  { wchase. rewrite Hd. now destruct (new_direction (Orientation_change w)). }
  rewrite Hde. apply returns_bind.
  match goal with
  | |- returns (hd_transition_fade_and_rotate _ _ _ _ ?W0) _ =>
    remember W0 as W eqn:HW
  end.
  eapply returns_weaken.
  - apply (machine_fades w W false
             [CDebugFsm WAITING (new_direction (Orientation_change w))
                (direction (Orientation_change w))] I); try facts.
    wchase. exact Hd.
  - cbv beta. intros w' (I' & F & M & Hwt).
    replace (phase (Orientation_change W)) with FADE_IN in F by facts.
    apply returns_ret. split; [|split; [|split]].
    + eapply Inv_Similar; [exact I'|].
      apply (Similar_same _ _ [CRenderManagerRestack]); try reflexivity.
      repeat split.
    + destruct F as [F1 F2 F3 F4 F5 F6 F7 F8]. constructor; assumption.
    + destruct M as [M1 M2 M3 M4 (l & L & P & Q)]. constructor; try assumption.
      exists (CRenderManagerRestack :: l). wsimpl. rewrite L. auto.
    + exact Hwt.
Qed.

Lemma fsm_FADE_IN_settled fuel w :
  Inv w -> phase (Orientation_change w) = FADE_IN ->
  direction (Orientation_change w) = new_direction (Orientation_change w) ->
  returns (hd_transition_rotating_fsm E (S fuel) w) (fun w' =>
    Inv w' /\ Rested w w'
    /\ Machine w w' [(FADE_IN, new_direction (Orientation_change w),
                              direction (Orientation_change w))] 0
    /\ effects_waiting (Orientation_change w')
       = effects_waiting (Orientation_change w)).
Proof.
  intros I Hp Hd. enter_machine.
  assert (Hpe : phase (Orientation_change we) = FADE_IN) by (wchase; exact Hp).
  rewrite Hpe. cbv iota. rewrite Hp in Hwe.
  assert (Hde : direction_eqb
                  (direction (Orientation_change (on_oc (with_phase IDLE) we)))
                  (new_direction (Orientation_change (on_oc (with_phase IDLE) we)))
                = true).
  { wchase. rewrite Hd. now destruct (new_direction (Orientation_change w)). }
  rewrite Hde. cbn [negb]. apply returns_ret.
  remember (on_oc (with_phase IDLE) we) as W eqn:HW.
  split; [|split; [|split]].
  - eapply Inv_Similar; [exact I|].
    apply (Similar_same w W [CDebugFsm FADE_IN (new_direction (Orientation_change w))
                               (direction (Orientation_change w))]); try facts.
  - constructor; facts.
  - constructor; try facts.
    + wchase. exact Hd.
    + wchase. quiet_log.
  - facts.
Qed.

End Machine.
(** ** The rotation machine, phase by phase *)

Lemma direction_eqb_eq a b : direction_eqb a b = true -> a = b.
Proof. destruct a, b; simpl; congruence. Qed.

Lemma direction_eqb_refl a : direction_eqb a a = true.
Proof. now destruct a. Qed.

Lemma direction_eqb_neq a b : a <> b -> direction_eqb a b = false.
Proof. destruct a, b; simpl; congruence. Qed.

Lemma Similar_same_ex w w' :
  next_data w' = next_data w -> next_timeline w' = next_timeline w ->
  effects w' = effects w ->
  (forall c, effect (clients w' c) = effect (clients w c)) ->
  timelines w' = timelines w ->
  effects_waiting (Orientation_change w')
  = effects_waiting (Orientation_change w) ->
  stage_handlers w' = stage_handlers w ->
  (exists l, log w' = l ++ log w /\ silent l) -> Similar w w'.
Proof.
  intros H1 H2 H3 H4 H5 H6 H7 (l & H8 & H9). now apply (Similar_same w w' l).
Qed.

Lemma Machine_pre0 w W w' e r nd :
  new_direction (Orientation_change W) = nd ->
  new_direction (Orientation_change w) = nd ->
  wm (Orientation_change W) = wm (Orientation_change w) ->
  same_env w W ->
  (exists l, log W = l ++ log w /\ fsm_entries l = e
             /\ screen_reconfigurations l = 0%nat) ->
  Machine W w' [] r -> Machine w w' e r.
Proof.
  intros H1 H2 H3 H4 H5 M.
  pose proof (Machine_pre w W w' e [] 0 r nd H1 H2 H3 H4 H5 M) as R.
  now rewrite app_nil_r in R.
Qed.

Ltac prefix_log :=
  match goal with
  | |- exists l, ?a = l ++ ?b =>
    let rec strip x acc :=
      match x with
      | b => constr:(acc)
      | ?c :: ?r => strip r constr:(acc ++ [c])
      end in
    let l := strip a constr:(@nil Call) in
    exists l; reflexivity
  end.

Ltac mfacts :=
  first [ wchase; reflexivity
        | intros ?c; wchase; reflexivity
        | repeat split; wchase; reflexivity
        | unfold damage_timeout, rotation_angle, hd_transition_get_double,
            hd_transition_get_keyfile; wchase; reflexivity
        | wchase; quiet_log
        | wchase; prefix_log
        | wchase; assumption ].

Section Machine2.

Variable E : Env.

Lemma fsm_FADE_IN_again_at fuel fuel' w :
  fuel' = S fuel ->
  Inv w -> phase (Orientation_change w) = FADE_IN ->
  direction (Orientation_change w) <> new_direction (Orientation_change w) ->
  returns (hd_transition_rotating_fsm E (S fuel') w) (fun w' =>
    Inv w' /\ Fading w w' FADE_OUT true
    /\ Machine w w' [(FADE_IN, new_direction (Orientation_change w),
                              direction (Orientation_change w));
                     (IDLE, new_direction (Orientation_change w),
                            direction (Orientation_change w))] 0
    /\ effects_waiting (Orientation_change w')
       = effects_waiting (Orientation_change w)).
Proof.
  intros Hfuel I Hp Hd. enter_machine.
  assert (Hpe : phase (Orientation_change we) = FADE_IN) by (wchase; exact Hp).
  rewrite Hpe. cbv iota. rewrite Hp in Hwe.
  assert (Hde : direction_eqb
                  (direction (Orientation_change (on_oc (with_phase IDLE) we)))
                  (new_direction (Orientation_change (on_oc (with_phase IDLE) we)))
                = false).
  { wchase. now apply direction_eqb_neq. }
  rewrite Hde. cbn [negb].
  remember (on_oc (with_phase IDLE) we) as W eqn:HW.
  assert (IW : Inv W).
  { eapply Inv_Similar; [exact I|].
    apply (Similar_same w W [CDebugFsm FADE_IN (new_direction (Orientation_change w))
                               (direction (Orientation_change w))]); try facts. }
  subst fuel'.
  eapply returns_weaken; [apply (fsm_IDLE E fuel W IW); facts|].
  cbv beta. intros w' (I' & F & M & Hwt).
  split; [exact I'|]. split; [|split].
  - eapply Fading_pre; [..|exact F]; facts.
  - replace (new_direction (Orientation_change W))
      with (new_direction (Orientation_change w)) in M by facts.
    replace (direction (Orientation_change W))
      with (direction (Orientation_change w)) in M by facts.
    apply (Machine_pre w W w'
             [(FADE_IN, new_direction (Orientation_change w),
                        direction (Orientation_change w))] _ 0 0
             (new_direction (Orientation_change w))); try facts; try exact M.
    wchase. quiet_log.
  - rewrite Hwt. facts.
Qed.

Lemma fsm_FADE_OUT fuel w :
  Inv w -> phase (Orientation_change w) = FADE_OUT ->
  returns (hd_transition_rotating_fsm E (S fuel) w) (fun w' =>
    Inv w' /\ effects_waiting (Orientation_change w') = []
    /\ if direction_eqb (direction (Orientation_change w))
                        (new_direction (Orientation_change w))
       then Armed w w'
            /\ Machine w w' [(FADE_OUT, new_direction (Orientation_change w),
                                        direction (Orientation_change w))] 1
       else Fading w w' FADE_IN false
            /\ Machine w w' [(FADE_OUT, new_direction (Orientation_change w),
                                        direction (Orientation_change w))] 0).
Proof.
  intros I Hp. enter_machine.
  assert (Hpe : phase (Orientation_change we) = FADE_OUT) by (wchase; exact Hp).
  rewrite Hpe. cbv iota. rewrite Hp in Hwe.
  match goal with
  | |- returns (bind (complete_effects_waiting _ _ ?X) _) _ =>
    remember X as W0 eqn:HW0
  end.
  assert (F0 : Inv W0
               /\ (exists k, log W0 = k ++ log w
                    /\ fsm_entries k = [(FADE_OUT, new_direction (Orientation_change w),
                                                   direction (Orientation_change w))]
                    /\ screen_reconfigurations k = 0%nat)
               /\ sources W0 = sources w /\ next_source W0 = next_source w
               /\ next_timeline W0 = next_timeline w /\ next_data W0 = next_data w
               /\ same_env w W0
               /\ exists g, Orientation_change W0
                    = mkOC (wm (Orientation_change w))
                        (direction (Orientation_change w))
                        (new_direction (Orientation_change w)) FADE_OUT g 0%nat None
                        (effects_waiting (Orientation_change w))).
  { match goal with
    | _ : W0 = (if ?c then _ else _) |- _ => destruct c
    end.
    all: split; [eapply Inv_Similar; [exact I|]; apply Similar_same_ex; mfacts|].
    all: repeat split; try mfacts.
    all: eexists; wchase;
      cbv [with_timer with_timeout_id with_goto_state]; wsimpl; rewrite Hp;
      reflexivity. }
  clear HW0 Hwe Hpe we.
  destruct F0 as (I0 & (k0 & K1 & K2 & K3) & G1 & G2 & G3 & G4 & G5 & g & G6).
  apply returns_bind. eapply returns_weaken;
    [apply drain_spec; rewrite on_oc_waiting_id; exact I0|].
  cbv beta. intros wd (Id & Cd & Rd).
  remember (on_oc (with_effects_waiting []) wd) as b eqn:Hb. clear Hb.
  destruct Cd as [C1 C2 C3 C4 C5 C6 (lc & C7 & C8 & C9)].
  wsimpl_in C1. wsimpl_in C2. wsimpl_in C3. wsimpl_in C4. wsimpl_in C5. wsimpl_in C7.
  assert (C6' : same_env w b).
  { eapply same_env_trans; [exact G5|]. exact C6. }
  clear C6 G5. destruct C6' as (N1 & N2 & N3 & N4 & N5 & N6).
  assert (Lb : exists l, log b = l ++ log w
                 /\ fsm_entries l = [(FADE_OUT, new_direction (Orientation_change w),
                                                direction (Orientation_change w))]
                 /\ screen_reconfigurations l = 0%nat).
  { exists (lc ++ k0). rewrite C7, K1, app_assoc.
    rewrite fsm_entries_app, screen_reconfigurations_app, K2, K3, C8, C9. auto. }
  clear C7 K1 K2 K3 C8 C9 Rd.
  assert (Hdb : direction_eqb (direction (Orientation_change b))
                  (new_direction (Orientation_change b))
                = direction_eqb (direction (Orientation_change w))
                    (new_direction (Orientation_change w))) by mfacts.
  rewrite Hdb. clear Hdb.
  destruct (direction_eqb (direction (Orientation_change w))
              (new_direction (Orientation_change w))) eqn:Hd.
  - (* the screen is reconfigured *)
    apply direction_eqb_eq in Hd.
    repeat step.
    match goal with
    | |- Inv ?X /\ _ => remember X as w' eqn:Hw'
    end.
    assert (A : Armed b w').
    { constructor;
        first [ wchase; reflexivity
              | unfold damage_timeout, hd_transition_get_double,
                  hd_transition_get_keyfile; wchase; reflexivity
              | wchase; quiet_log; left; wchase; rewrite Hd; reflexivity ]. }
    assert (M : Machine b w' [] 1).
    { constructor; mfacts. }
    split; [|split; [|split]].
    + eapply Inv_Similar; [exact Id|]. apply Similar_same_ex; mfacts.
    + mfacts.
    + destruct Lb as (l & L1 & _). eapply Armed_pre; [..|exact A]; try mfacts.
      exists l. exact L1.
    + apply (Machine_pre0 w b w' _ _ (new_direction (Orientation_change w)));
        try mfacts; try exact M; try exact Lb; repeat split; assumption.
  - (* the direction has changed meanwhile: fade back in *)
    match goal with
    | |- context [direction_eqb ?a ?c] =>
      replace (direction_eqb a c) with true
        by (wsimpl; symmetry; apply direction_eqb_refl)
    end.
    apply returns_bind.
    match goal with
    | |- returns (hd_transition_fade_and_rotate _ _ _ _ ?W0) _ =>
      remember W0 as W eqn:HW
    end.
    eapply returns_weaken.
    + apply (machine_fades E b W false [] Id); try mfacts; repeat split.
    + cbv beta. intros w1 (I1 & F & M & Hwt).
      replace (phase (Orientation_change W)) with FADE_IN in F by mfacts.
      apply returns_ret. split; [|split; [|split]].
      * eapply Inv_Similar; [exact I1|].
        apply (Similar_same _ _ [CRenderManagerRestack]); try reflexivity.
        repeat split.
      * wsimpl. rewrite Hwt. mfacts.
      * assert (F' : Fading b (hd_render_manager_restack w1) FADE_IN false).
        { destruct F as [F1 F2 F3 F4 F5 F6 F7 F8]. constructor; assumption. }
        eapply Fading_pre; [..|exact F']; mfacts.
      * assert (M' : Machine b (hd_render_manager_restack w1) [] 0).
        { destruct M as [M1 M2 M3 M4 (l & L & P & Q)]. constructor; try assumption.
          exists (CRenderManagerRestack :: l). wsimpl. rewrite L. auto. }
        apply (Machine_pre0 w b _ _ _ (new_direction (Orientation_change w)));
          try mfacts; try exact M'; try exact Lb; repeat split; assumption.
Qed.

Lemma fsm_WAITING_back_at fuel fuel' w :
  fuel' = S fuel ->
  Inv w -> phase (Orientation_change w) = WAITING ->
  direction (Orientation_change w) <> new_direction (Orientation_change w) ->
  returns (hd_transition_rotating_fsm E (S fuel') w) (fun w' =>
    Inv w' /\ effects_waiting (Orientation_change w') = []
    /\ Armed w w'
    /\ Machine w w' [(WAITING, new_direction (Orientation_change w),
                              direction (Orientation_change w));
                     (FADE_OUT, new_direction (Orientation_change w),
                                new_direction (Orientation_change w))] 1).
Proof.
  intros Hfuel I Hp Hd. enter_machine.
  assert (Hpe : phase (Orientation_change we) = WAITING) by (wchase; exact Hp).
  rewrite Hpe. cbv iota. rewrite Hp in Hwe.
  assert (Hde : direction_eqb (direction (Orientation_change we))
                  (new_direction (Orientation_change we)) = false).
  { wchase. now apply direction_eqb_neq. }
  rewrite Hde.
  match goal with
  | |- returns (hd_transition_rotating_fsm _ _ ?W0) _ => remember W0 as W eqn:HW
  end.
  assert (IW : Inv W).
  { eapply Inv_Similar; [exact I|]. apply Similar_same_ex; mfacts. }
  assert (HpW : phase (Orientation_change W) = FADE_OUT) by mfacts.
  assert (HdW : direction_eqb (direction (Orientation_change W))
                  (new_direction (Orientation_change W)) = true).
  { wchase. apply direction_eqb_refl. }
  subst fuel'.
  eapply returns_weaken; [apply (fsm_FADE_OUT fuel W IW HpW)|].
  cbv beta. rewrite HdW. intros w' (I' & Hwt & A & M).
  split; [exact I'|]. split; [exact Hwt|]. split.
  - eapply Armed_pre; [..|exact A]; try mfacts.
  - replace (new_direction (Orientation_change W))
      with (new_direction (Orientation_change w)) in M by mfacts.
    replace (direction (Orientation_change W))
      with (new_direction (Orientation_change w)) in M by mfacts.
    apply (Machine_pre w W w'
             [(WAITING, new_direction (Orientation_change w),
                        direction (Orientation_change w))] _ 0 1
             (new_direction (Orientation_change w))); try mfacts; try exact M.
Qed.

(** The machine returns whenever it may call itself once. *)
Lemma fsm_spec fuel w :
  Inv w -> (2 <= fuel)%nat ->
  returns (hd_transition_rotating_fsm E fuel w) (fun w' => Inv w' /\ Ran w w').
Proof.
  intros I Hf. destruct fuel as [|[|f]]; try lia. unfold Ran. cbv zeta.
  destruct (phase (Orientation_change w)) eqn:Hp;
    destruct (direction_eqb (direction (Orientation_change w))
                (new_direction (Orientation_change w))) eqn:Hd.
  - eapply returns_weaken; [apply (fsm_IDLE E (S f) w I Hp)|]. cbv beta. tauto.
  - eapply returns_weaken; [apply (fsm_IDLE E (S f) w I Hp)|]. cbv beta. tauto.
  - eapply returns_weaken; [apply (fsm_FADE_OUT (S f) w I Hp)|]. cbv beta.
    rewrite Hd. tauto.
  - eapply returns_weaken; [apply (fsm_FADE_OUT (S f) w I Hp)|]. cbv beta.
    rewrite Hd. tauto.
  - apply direction_eqb_eq in Hd.
    eapply returns_weaken; [apply (fsm_WAITING_settled E (S f) w I Hp Hd)|].
    cbv beta. tauto.
  - assert (Hne : direction (Orientation_change w)
                  <> new_direction (Orientation_change w)).
    { intros Heq. rewrite Heq, direction_eqb_refl in Hd. discriminate. }
    eapply returns_weaken;
      [apply (fsm_WAITING_back_at f (S f) w eq_refl I Hp Hne)|].
    cbv beta. tauto.
  - apply direction_eqb_eq in Hd.
    eapply returns_weaken; [apply (fsm_FADE_IN_settled E (S f) w I Hp Hd)|].
    cbv beta. tauto.
  - assert (Hne : direction (Orientation_change w)
                  <> new_direction (Orientation_change w)).
    { intros Heq. rewrite Heq, direction_eqb_refl in Hd. discriminate. }
    eapply returns_weaken;
      [apply (fsm_FADE_IN_again_at f (S f) w eq_refl I Hp Hne)|].
    cbv beta. tauto.
Qed.

Lemma Ran_Calm w wd w' : Calm w wd -> Ran wd w' -> Ran w w'.
Proof.
  intros [C1 C2 C3 C4 C5 C6 C7]. unfold Ran. cbv zeta. rewrite C1.
  assert (P1 : transitions_ini wd = transitions_ini w) by apply C6.
  assert (P2 : now wd = now w) by apply C6.
  assert (P3 : exists l, log wd = l ++ log w).
  { destruct C7 as (l & L & _). eauto. }
  assert (P4 : new_direction (Orientation_change wd)
               = new_direction (Orientation_change w)) by now rewrite C1.
  assert (P5 : wm (Orientation_change wd) = wm (Orientation_change w))
    by now rewrite C1.
  assert (MP : forall e r, Machine wd w' e r -> Machine w w' e r).
  { intros e r M.
    exact (Machine_pre w wd w' [] e 0 r (new_direction (Orientation_change w))
             P4 eq_refl P5 C6 C7 M). }
  assert (FP : forall ph fp, Fading wd w' ph fp -> Fading w w' ph fp).
  { intros ph fp F. eapply Fading_pre; [..|exact F]; assumption. }
  assert (AP : Armed wd w' -> Armed w w').
  { intros A. eapply Armed_pre; [..|exact A]; assumption. }
  assert (RP : Rested wd w' -> Rested w w').
  { intros R. eapply Rested_pre; [..|exact R]; assumption. }
  destruct (phase (Orientation_change w));
    destruct (direction_eqb (direction (Orientation_change w))
                (new_direction (Orientation_change w)));
    intros [A B]; split; auto.
Qed.

End Machine2.

(** ** Every event keeps the invariant *)

Section StepInv.

Variable E : Env.

Lemma rotate_screen_unfold fuel wm_ gp w :
  hd_transition_rotate_screen E fuel wm_ gp w
  = let W := on_oc (with_new_direction
                      (if gp then GOTO_PORTRAIT else GOTO_LANDSCAPE))
               (on_oc (with_wm wm_) (emit CDebug w)) in
    if phase_eqb (phase (Orientation_change w)) IDLE then
      if Bool.eqb gp (is_portrait w) then Ok (false, emit CWarning W)
      else do w' <- hd_transition_rotating_fsm E fuel W; Ok (true, w')
    else Ok (true, emit CDebug W).
Proof. reflexivity. Qed.

Lemma rotate_screen_Inv fuel wm_ gp w :
  Inv w -> (2 <= fuel)%nat ->
  returns (do r <- hd_transition_rotate_screen E fuel wm_ gp w; Ok (snd r)) Inv.
Proof.
  intros I Hf. rewrite rotate_screen_unfold. cbv zeta.
  set (W := on_oc _ (on_oc (with_wm wm_) (emit CDebug w))).
  assert (IW : Inv W).
  { eapply Inv_Similar; [exact I|]. apply (Similar_same w W [CDebug]);
      try reflexivity; repeat split. }
  destruct (phase_eqb (phase (Orientation_change w)) IDLE).
  - destruct (Bool.eqb gp (is_portrait w)).
    + cbn [bind snd]. apply returns_ret. eapply Inv_Similar; [exact IW|].
      apply (Similar_same _ _ [CWarning]); try reflexivity; repeat split.
    + destruct (fsm_spec E fuel W IW Hf) as (w' & Hw' & I' & _).
      rewrite Hw'. cbn [bind snd]. now apply returns_ret.
  - cbn [bind snd]. apply returns_ret. eapply Inv_Similar; [exact IW|].
    apply (Similar_same _ _ [CDebug]); try reflexivity; repeat split.
Qed.


Lemma TornDown_Calm0 w w1 d x : TornDown w w1 d x -> Calm w w1.
Proof.
  intros [T1 T2 _ _ _ T6 _ T8 T9 _ T11 (l & L & _ & _ & _ & L4 & L5 & _)].
  constructor; try assumption. exists l. auto.
Qed.

Lemma Calm_same w w' l :
  Orientation_change w' = Orientation_change w -> sources w' = sources w ->
  next_source w' = next_source w -> next_timeline w' = next_timeline w ->
  next_data w' = next_data w -> same_env w w' ->
  log w' = l ++ log w -> fsm_entries l = [] ->
  screen_reconfigurations l = 0%nat -> Calm w w'.
Proof. intros. constructor; try assumption. exists l. auto. Qed.

Lemma emit_new_frame_calm t k w tl :
  timelines w t = Some tl ->
  (forall h d, tl_new_frame tl = Some (h, d) -> effects w d <> None) ->
  returns (emit_new_frame E t k w) (fun w' =>
    Similar w w' /\ Calm w w' /\ timelines w' = timelines w
    /\ effects w' = effects w).
Proof.
  intros Htl Hlive. destruct (tl_new_frame tl) as [[h d]|] eqn:Hh.
  - destruct (effects w d) as [x|] eqn:Hx; [|now destruct (Hlive h d eq_refl)].
    rewrite (emit_new_frame_ok E t k w tl h d x Htl Hh Hx). apply returns_ret.
    split; [apply Similar_frame|]. split; [|split; wsimpl; reflexivity].
    apply (Calm_same _ _ [CNewFrame h d k]); try reflexivity; repeat split.
  - rewrite (emit_new_frame_none E t k w tl Htl Hh). apply returns_ret.
    split; [apply Similar_refl|]. split; [apply Calm_refl|]. split; reflexivity.
Qed.

Lemma timeline_completes_spec fuel t w :
  Inv w -> (2 <= fuel)%nat ->
  returns (timeline_completes E fuel t w) (fun w' =>
    Inv w'
    /\ forall tl, timelines w t = Some tl -> tl_running tl = true ->
                  tl_finished_fsm tl = true -> Ran w w').
Proof.
  intros I Hf. unfold timeline_completes.
  destruct (timelines w t) as [tl|] eqn:Htl.
  2:{ apply returns_ret. split; [exact I|]. intros tl H. discriminate. }
  destruct (tl_running tl) eqn:Hrun.
  2:{ apply returns_ret. split; [exact I|]. intros tl' H H'.
      injection H as <-. congruence. }
  destruct (inv_running _ I t tl Htl Hrun) as [R1 R2].
  rewrite (on_timeline_ok _ _ _ _ Htl). cbn [bind].
  set (tl1 := with_current_frame (n_frames tl) tl).
  set (w1 := set_timelines (upd (timelines w) t (Some tl1)) w).
  assert (S1 : Similar w w1) by (apply (Similar_timeline' w t tl); auto).
  assert (C1 : Calm w w1).
  { apply (Calm_same _ _ []); try reflexivity; repeat split. }
  assert (Ht1 : timelines w1 t = Some tl1) by (subst w1; wsimpl; apply upd_same).
  apply returns_bind. eapply returns_weaken.
  { apply (emit_new_frame_calm t (n_frames tl) w1 tl1 Ht1).
    intros h d Hh. destruct (R1 h d Hh) as (x & Hx & _).
    change (effects w d <> None). congruence. }
  cbv beta. intros w2 (S2 & C2 & T2 & E2).
  assert (Ht2 : timelines w2 t = Some tl1) by now rewrite T2.
  rewrite (on_timeline_ok _ _ _ _ Ht2). cbn [bind].
  set (w3 := set_timelines _ w2).
  assert (S3 : Similar w2 w3).
  { apply (Similar_timeline' w2 t tl1); auto; discriminate. }
  assert (C3 : Calm w2 w3).
  { apply (Calm_same _ _ []); try reflexivity; repeat split. }
  assert (I3 : Inv w3).
  { eapply Inv_Similar; [|exact S3]. eapply Inv_Similar; [|exact S2].
    eapply Inv_Similar; eassumption. }
  assert (Cw3 : Calm w w3).
  { eapply Calm_trans; [exact C1|]. eapply Calm_trans; eassumption. }
  assert (Ht3 : timelines w3 t = Some (with_tl_running false tl1))
    by (subst w3; wsimpl; apply upd_same).
  assert (E3 : effects w3 = effects w) by (subst w3; wsimpl; exact E2).
  assert (W3 : effects_waiting (Orientation_change w3)
               = effects_waiting (Orientation_change w)).
  { now rewrite (ca_oc _ _ Cw3). }
  apply returns_bind.
  assert (H4 : returns (match tl_completed tl with
                        | Some d => hd_transition_completed E (Some t) d w3
                        | None => Ok w3
                        end) (fun w4 => Inv w4 /\ Calm w w4)).
  { destruct (tl_completed tl) as [d|] eqn:Hc.
    - destruct (R2 d eq_refl) as (x & Hx & Hxt).
      assert (Hx3 : effects w3 d = Some x) by now rewrite E3.
      eapply returns_weaken.
      + apply (completed_spec E (Some t) d w3 x Hx3).
        intros t' Heq. injection Heq as <-. rewrite Ht3. discriminate.
      + cbv beta. intros w4 T. split.
        * eapply Inv_TornDown; [exact I3 | exact T | exact Hx3 | |].
          -- intros t' tl' Ht' Htl'. rewrite Hxt in Ht'. injection Ht' as <-.
             rewrite Ht3 in Htl'. injection Htl' as <-. reflexivity.
          -- rewrite W3. intros Hin.
             destruct (inv_waiting _ I d Hin) as (y & Hy & Hyt). congruence.
        * eapply Calm_trans; [exact Cw3|]. eapply TornDown_Calm0. exact T.
    - apply returns_ret. auto. }
  eapply returns_weaken; [exact H4|]. cbv beta. intros w4 (I4 & C4).
  destruct (tl_finished_fsm tl) eqn:Hfsm.
  - eapply returns_weaken; [apply (fsm_spec E fuel w4 I4 Hf)|].
    cbv beta. intros w' (I' & R'). split; [exact I'|].
    intros _ _ _ _. eapply Ran_Calm; eassumption.
  - apply returns_ret. split; [exact I4|]. intros tl' H _ H'.
    injection H as <-. congruence.
Qed.

Lemma timeout_fires_spec fuel id w :
  Inv w -> (2 <= fuel)%nat ->
  returns (timeout_fires E fuel id w) (fun w'' =>
    Inv w''
    /\ (source_due id w = true ->
        exists w', Ran w w' /\ w'' = g_source_remove id w')).
Proof.
  intros I Hf. unfold timeout_fires. destruct (source_due id w).
  - apply returns_bind. eapply returns_weaken; [apply (fsm_spec E fuel w I Hf)|].
    cbv beta. intros w' (I' & R'). apply returns_ret. split.
    + eapply Inv_Similar; [exact I'|].
      apply (Similar_same _ _ []); try reflexivity. apply silent_nil.
    + intros _. exists w'. auto.
  - apply returns_ret. split; [exact I|]. discriminate.
Qed.

(** Whatever happens, the world stays well formed. *)
Lemma step_Inv fuel e w :
  Inv w -> (2 <= fuel)%nat -> returns (step E fuel e w) Inv.
Proof.
  intros I Hf. destruct e; cbn [step].
  - now apply popup_Inv.
  - now apply fade_Inv.
  - now apply close_app_Inv.
  - now apply close_app_before_rotate_Inv.
  - now apply notification_Inv.
  - now apply subview_Inv.
  - now apply stop_Inv.
  - now apply rotate_screen_Inv.
  - apply returns_ret. eapply Inv_Similar; [exact I|].
    apply (Similar_same _ _ []); try reflexivity. apply silent_nil.
  - apply returns_ret. eapply Inv_Similar; [exact I|].
    apply rotate_ignore_damage_Similar.
  - now apply timeline_new_frame_Inv.
  - eapply returns_weaken; [now apply timeline_completes_spec|]. cbv beta. tauto.
  - eapply returns_weaken; [now apply timeout_fires_spec|]. cbv beta. tauto.
  - eapply returns_weaken.
    + apply screen_size_changes_Similar. intros d Hd.
      apply (inv_stage _ I). now apply in_rev.
    + cbv beta. intros w'. now apply Inv_Similar.
  - apply returns_ret. eapply Inv_Similar; [exact I|].
    apply (Similar_same _ _ []); try reflexivity. apply silent_nil.
  - apply returns_ret. eapply Inv_Similar; [exact I|].
    apply (Similar_same _ _ []); try reflexivity. apply silent_nil.
  - apply returns_ret. eapply Inv_Similar; [exact I|].
    apply (Similar_same _ _ []); try reflexivity. apply silent_nil.
  - apply returns_ret. eapply Inv_Similar; [exact I|].
    apply (Similar_same _ _ []); try reflexivity; [|apply silent_nil].
    intros c'. wsimpl. unfold upd.
    destruct (Nat.eqb_spec c' c) as [->|]; reflexivity.
Qed.

Lemma startup_Inv cs A first_actor x clock : Inv (startup cs A first_actor x clock).
Proof.
  constructor; cbn; try tauto; try discriminate; try constructor; try lia;
    intros; try discriminate; try contradiction.
Qed.

Lemma Reachable_Inv w : Reachable E w -> Inv w.
Proof.
  induction 1 as [|w fuel e w' _ IH Hf Hs].
  - apply startup_Inv.
  - destruct (step_Inv fuel e w IH Hf) as (w1 & Hw1 & I1). congruence.
Qed.

Lemma Reachable_run fuel evs : forall w,
  Reachable E w -> (2 <= fuel)%nat -> forall w0,
  Reachable E w0 -> Reachable E (after (run E fuel evs w) w0).
Proof.
  induction evs as [|e evs IH]; intros w Hr Hf w0 Hr0; cbn [run].
  - exact Hr.
  - destruct (step E fuel e w) as [w1| |] eqn:Hs; cbn [bind]; try exact Hr0.
    apply IH; try assumption. exact (reach_step E w fuel e w1 Hr Hf Hs).
Qed.

End StepInv.
(** ** Forced stop against natural completion *)

Section Settle.

Variable E : Env.






End Settle.
(** ** What the teardown leaves of the actors *)

Lemma same_looks_refl a : same_looks a a.
Proof. repeat split. Qed.

Lemma same_looks_trans a b c : same_looks a b -> same_looks b c -> same_looks a c.
Proof.
  unfold same_looks. intros H1 H2.
  repeat match goal with H : _ /\ _ |- _ => destruct H end.
  repeat split; congruence.
Qed.

Lemma on_actor_looks k f A :
  (forall x, same_looks x (f x)) -> forall a, same_looks (A a) (on_actor k f A a).
Proof.
  intros Hf a. unfold on_actor, upd. destruct (Nat.eqb_spec a k) as [->|].
  - apply Hf.
  - apply same_looks_refl.
Qed.

Lemma g_object_unref_looks k A a : same_looks (A a) (g_object_unref k A a).
Proof. apply on_actor_looks. intros x. repeat split. Qed.

Lemma remove_from_container_parent_looks k A a :
  same_looks (A a) (remove_from_container_parent k A a).
Proof.
  unfold remove_from_container_parent.
  destruct (a_parent (A k)) as [p|]; [|apply same_looks_refl].
  destruct (is_container (A p)); [|apply same_looks_refl].
  apply on_actor_looks. intros x. repeat split.
Qed.

Lemma release_clients_looks x w a :
  same_looks (actors w a) (actors (release_clients x w) a).
Proof.
  unfold release_clients.
  destruct (cclient x) as [c1|], (cclient_actor x) as [a1|],
           (cclient2 x) as [c2|], (cclient2_actor x) as [a2|], (is_unmap x);
    wsimpl;
    repeat first [ apply same_looks_refl
                 | eapply same_looks_trans; [|apply g_object_unref_looks]
                 | eapply same_looks_trans;
                   [|apply remove_from_container_parent_looks] ].
Qed.

Lemma release_particle_looks d w i a :
  same_looks (actors w a) (actors (release_particle d w i) a).
Proof.
  unfold release_particle.
  destruct (effects w d) as [x|]; [|apply same_looks_refl].
  destruct (nth i (particles x) None) as [p|]; [|apply same_looks_refl].
  wsimpl. eapply same_looks_trans; [|apply g_object_unref_looks].
  apply remove_from_container_parent_looks.
Qed.

Lemma release_particles_looks d l a : forall w,
  same_looks (actors w a) (actors (fold_left (release_particle d) l w) a).
Proof.
  induction l as [|i l IH]; intros w; cbn [fold_left].
  - apply same_looks_refl.
  - eapply same_looks_trans; [apply release_particle_looks | apply IH].
Qed.


Section Looks.

Variable E : Env.

(** The teardown changes no actor but in its parent and its reference
    count. *)
Lemma completed_keeps_looks tl d w w' :
  hd_transition_completed E tl d w = Ok w' ->
  forall a, same_looks (actors w a) (actors w' a).
Proof.
  unfold hd_transition_completed, deref_data.
  destruct (effects w d) as [x|]; [|discriminate]. cbn [bind].
  intros H a.
  assert (H0 : same_looks (actors w a)
                 (actors (release_clients x (emit (CCompleted d) w)) a)).
  { apply (release_clients_looks x (emit (CCompleted d) w) a). }
  set (R := release_clients x (emit (CCompleted d) w)) in *.
  destruct tl as [t|].
  - unfold timeline_unref, on_timeline, deref_timeline in H.
    destruct (timelines R t) as [ta|]; [|discriminate].
    cbn [bind] in H. injection H as <-. wsimpl.
    eapply same_looks_trans; [exact H0|].
    eapply same_looks_trans; [|apply release_particles_looks].
    destruct (hmgr x); wsimpl; apply same_looks_refl.
  - cbn [bind] in H. injection H as <-. wsimpl.
    eapply same_looks_trans; [exact H0|].
    eapply same_looks_trans; [|apply release_particles_looks].
    destruct (hmgr x); wsimpl; apply same_looks_refl.
Qed.



End Looks.

(** * The claims *)

(** C7 (counterexample): the desktop is in portrait, the machine is idle,
    and portrait is requested.  [hd_transition_rotate_screen] returns
    [FALSE], but [new_direction] of the singleton has gone from landscape
    to portrait, and [wm] has been overwritten. *)
Lemma C7_rejection_records_the_request :
  exists w',
    hd_transition_rotate_screen default_env 2 7%nat true demo_portrait
    = Ok (false, w')
    /\ phase (Orientation_change demo_portrait) = IDLE
    /\ is_portrait demo_portrait = true
    /\ new_direction (Orientation_change demo_portrait) = GOTO_LANDSCAPE
    /\ new_direction (Orientation_change w') = GOTO_PORTRAIT
    /\ wm (Orientation_change demo_portrait) = 0%nat
    /\ wm (Orientation_change w') = 7%nat.
Proof. eexists. split; [reflexivity|]. repeat split. Qed.

(** C7 (amended): a request for the orientation the screen already has,
    made while the machine is idle, is answered with [FALSE];
    [direction], [phase], [goto_state], the timeout, the timer and the
    deferred effects are untouched, as are the stores and the sources,
    but [wm] and [new_direction] hold the request. *)
Theorem C7_rejected_rotation_keeps_the_machine (E : Env) (fuel wm_ : nat)
    (gp : bool) (w : World) :
  phase (Orientation_change w) = IDLE -> gp = is_portrait w ->
  exists w',
    hd_transition_rotate_screen E fuel wm_ gp w = Ok (false, w')
    /\ direction (Orientation_change w') = direction (Orientation_change w)
    /\ phase (Orientation_change w') = phase (Orientation_change w)
    /\ goto_state (Orientation_change w') = goto_state (Orientation_change w)
    /\ timeout_id (Orientation_change w') = timeout_id (Orientation_change w)
    /\ timer (Orientation_change w') = timer (Orientation_change w)
    /\ effects_waiting (Orientation_change w')
       = effects_waiting (Orientation_change w)
    /\ new_direction (Orientation_change w')
       = (if gp then GOTO_PORTRAIT else GOTO_LANDSCAPE)
    /\ wm (Orientation_change w') = wm_
    /\ clients w' = clients w /\ actors w' = actors w /\ effects w' = effects w
    /\ timelines w' = timelines w /\ sources w' = sources w
    /\ log w' = [CWarning; CDebug] ++ log w.
Proof.
  intros Hp Hg. rewrite rotate_screen_unfold. cbv zeta. rewrite Hp, <- Hg.
  cbn [phase_eqb]. rewrite Bool.eqb_reflx. eexists. split; [reflexivity|].
  repeat split; wsimpl; try reflexivity; congruence.
Qed.

Lemma C7_rejected_rotation_keeps_the_machine_witness :
  exists w',
    hd_transition_rotate_screen default_env 2 7%nat true demo_portrait
    = Ok (false, w')
    /\ direction (Orientation_change w')
       = direction (Orientation_change demo_portrait)
    /\ phase (Orientation_change w') = phase (Orientation_change demo_portrait)
    /\ goto_state (Orientation_change w')
       = goto_state (Orientation_change demo_portrait)
    /\ timeout_id (Orientation_change w')
       = timeout_id (Orientation_change demo_portrait)
    /\ timer (Orientation_change w') = timer (Orientation_change demo_portrait)
    /\ effects_waiting (Orientation_change w')
       = effects_waiting (Orientation_change demo_portrait)
    /\ new_direction (Orientation_change w') = GOTO_PORTRAIT
    /\ wm (Orientation_change w') = 7%nat
    /\ clients w' = clients demo_portrait /\ actors w' = actors demo_portrait
    /\ effects w' = effects demo_portrait
    /\ timelines w' = timelines demo_portrait
    /\ sources w' = sources demo_portrait
    /\ log w' = [CWarning; CDebug] ++ log demo_portrait.
Proof.
  apply (C7_rejected_rotation_keeps_the_machine default_env 2 7 true demo_portrait);
    reflexivity.
Defined.

(** C9 (counterexample): the first part of a rotation to portrait, with
    the default angle of 40 degrees.  The test [first_part == goto_portrait]
    holds, and the angle of the effect is the negated one. *)
Lemma C9_angle_negated_when_the_test_holds :
  exists w' x,
    hd_transition_fade_and_rotate default_env true true true demo = Ok w'
    /\ effects w' 0%nat = Some x
    /\ Bool.eqb true true = true
    /\ hd_transition_get_double demo "rotate" "angle" 40 = 40
    /\ angle x = -40.
Proof.
  destruct (fade_and_rotate_started default_env true true true demo)
    as (w' & Hw' & x & St & _ & _ & _ & Ha & _).
  exists w', x. split; [exact Hw'|]. split.
  { rewrite (st_effects _ _ _ _ _ St). reflexivity. }
  split; [reflexivity|]. split; [reflexivity|].
  rewrite Ha. unfold rotation_angle.
  change (hd_transition_get_double demo "rotate" "angle" 40) with (IZR 40).
  cbn [Bool.eqb]. rewrite (fl_IZR 40) by lia.
  replace (40 * -1) with (IZR (-40)) by lra. apply fl_IZR. lia.
Qed.

(** C9 (amended): the angle the effect of a rotation fade is given is the
    configured angle ([rotate]/[angle] of transitions.ini, 40 by default)
    as a [float], multiplied by -1 exactly when
    [first_part == goto_portrait] is true. *)
Theorem C9_rotation_angle_sign (E : Env) (first_part goto_portrait cb : bool)
    (w : World) :
  exists w' x,
    hd_transition_fade_and_rotate E first_part goto_portrait cb w = Ok w'
    /\ effects w' (next_data w) = Some x
    /\ angle x = (if Bool.eqb first_part goto_portrait
                  then fl (hd_transition_get_double w "rotate" "angle" 40) * -1
                  else fl (hd_transition_get_double w "rotate" "angle" 40)).
Proof.
  destruct (fade_and_rotate_started E first_part goto_portrait cb w)
    as (w' & Hw' & x & St & _ & _ & _ & Ha & _).
  exists w', x. split; [exact Hw'|]. split.
  - rewrite (st_effects _ _ _ _ _ St), Nat.eqb_refl. reflexivity.
  - rewrite Ha. unfold rotation_angle.
    destruct (Bool.eqb first_part goto_portrait); [|reflexivity].
    set (a := fl (hd_transition_get_double w "rotate" "angle" 40)).
    replace (a * -1) with (- a) by ring.
    unfold a. now rewrite fl_opp, fl_idem.
Qed.







(** C1: in every world the process can reach, no record has been torn
    down twice ([hd_transition_completed] has run at most once on it,
    whether the timeline completed, [hd_transition_stop] forced it or the
    machine drained the deferred effects), no particle or decoration actor
    of a record has been released twice, the count of running effects has
    gone down at most once per record torn down, and what has been torn
    down is gone; and whatever happens next, the code returns: it never
    meets a record it has freed. *)
Theorem C1_teardown_at_most_once (E : Env) (w : World) :
  Reachable E w ->
  NoDup (teardowns (log w))
  /\ NoDup (particle_releases (log w))
  /\ (effect_running_decrements (log w) <= List.length (teardowns (log w)))%nat
  /\ (forall d, In d (teardowns (log w)) -> effects w d = None)
  /\ forall fuel e, (2 <= fuel)%nat -> exists w', step E fuel e w = Ok w'.
Proof.
  intros Hr. pose proof (Reachable_Inv E w Hr) as I.
  split; [apply (inv_torn_nodup _ I)|].
  split; [apply (inv_released_nodup _ I)|].
  split; [apply (inv_decrements _ I)|].
  split; [intros d Hd; apply (inv_torn _ I d Hd)|].
  intros fuel e Hf. destruct (step_Inv E fuel e w I Hf) as (w' & Hw' & _).
  exists w'. exact Hw'.
Qed.


Lemma C1_teardown_at_most_once_witness :
  NoDup (teardowns (log demo_after_fade))
  /\ NoDup (particle_releases (log demo_after_fade))
  /\ (effect_running_decrements (log demo_after_fade)
      <= List.length (teardowns (log demo_after_fade)))%nat
  /\ (forall d, In d (teardowns (log demo_after_fade)) ->
                effects demo_after_fade d = None)
  /\ forall fuel e, (2 <= fuel)%nat ->
       exists w', step default_env fuel e demo_after_fade = Ok w'.
Proof.
  apply (C1_teardown_at_most_once default_env demo_after_fade).
  apply Reachable_run.
  - apply reach_startup.
  - apply le_n.
  - apply reach_startup.
Defined.






Lemma damage_timeout_same_ini w w' :
  transitions_ini w' = transitions_ini w -> damage_timeout w' = damage_timeout w.
Proof.
  intros H. unfold damage_timeout, hd_transition_get_double,
    hd_transition_get_keyfile. now rewrite H.
Qed.

Lemma prefix_unique (l l' m : list Call) : l ++ m = l' ++ m -> l = l'.
Proof. apply app_inv_tail. Qed.

(** C3: from IDLE in landscape, a request to rotate to portrait, followed
    by the end of the fade-out, the debounce timeout and the end of the
    fade-in, takes the machine through IDLE, FADE_OUT, WAITING, FADE_IN and
    back to IDLE; the machine is entered four times, [direction] ends as
    portrait, and [hd_util_change_screen_orientation] is called exactly
    once, for portrait. *)
Theorem C3_rotation_to_portrait_runs_through (E : Env) (fuel wm_ : nat)
    (dt : Z) (w : World) :
  Reachable E w -> (2 <= fuel)%nat ->
  phase (Orientation_change w) = IDLE -> is_portrait w = false ->
  (damage_timeout w * 1000 <= dt)%Z ->
  exists w1 w2 w3 w4 w5,
    step E fuel (EvRotateScreen wm_ true) w = Ok w1
    /\ step E fuel (EvCompleted (next_timeline w)) w1 = Ok w2
    /\ step E fuel (EvClock dt) w2 = Ok w3
    /\ step E fuel (EvTimeout (next_source w)) w3 = Ok w4
    /\ step E fuel (EvCompleted (S (next_timeline w))) w4 = Ok w5
    /\ map (fun x => phase (Orientation_change x)) [w; w1; w2; w3; w4; w5]
       = [IDLE; FADE_OUT; WAITING; WAITING; FADE_IN; IDLE]
    /\ direction (Orientation_change w5) = GOTO_PORTRAIT
    /\ fsm_entries (new_calls w w5)
       = [(IDLE, GOTO_PORTRAIT, direction (Orientation_change w));
          (FADE_OUT, GOTO_PORTRAIT, GOTO_PORTRAIT);
          (WAITING, GOTO_PORTRAIT, GOTO_PORTRAIT);
          (FADE_IN, GOTO_PORTRAIT, GOTO_PORTRAIT)]
    /\ screen_reconfigurations (new_calls w w5) = 1%nat
    /\ In (CChangeScreenOrientation wm_ true) (new_calls w w5).
Proof.
  intros Hr Hf Hp Hl Hdt. pose proof (Reachable_Inv E w Hr) as I.
  (* the request enters the machine *)
  pose (W := on_oc (with_new_direction GOTO_PORTRAIT)
               (on_oc (with_wm wm_) (emit CDebug w))).
  assert (IW : Inv W).
  { eapply Inv_Similar; [exact I|].
    apply (Similar_same w W [CDebug]); try reflexivity; repeat split. }
  destruct (fsm_spec E fuel W IW Hf) as (w1 & Hw1 & I1 & R1).
  assert (S1 : step E fuel (EvRotateScreen wm_ true) w = Ok w1).
  { cbn [step]. rewrite rotate_screen_unfold. cbv zeta. rewrite Hp, Hl.
    cbn [phase_eqb Bool.eqb]. fold W. rewrite Hw1. reflexivity. }
  unfold Ran in R1. cbv zeta in R1.
  assert (HpW : phase (Orientation_change W) = IDLE) by exact Hp.
  rewrite HpW in R1. clear HpW.
  change (new_direction (Orientation_change W)) with GOTO_PORTRAIT in R1.
  change (direction (Orientation_change W))
    with (direction (Orientation_change w)) in R1.
  destruct R1 as [[Fp1 _ _ Fs1 Fns1 Fnt1 _ (tl1 & x1 & Htl1 & Hrun1 & _ & _ & Hfin1 & _)]
                  [Md1 Mn1 Mw1 Me1 (l1 & L1 & P1 & Q1)]].
  change (new_direction (Orientation_change W)) with GOTO_PORTRAIT in Md1, Mn1.
  change (wm (Orientation_change W)) with wm_ in Mw1.
  change (next_timeline W) with (next_timeline w) in Fnt1, Htl1.
  change (next_source W) with (next_source w) in Fns1.
  change (sources W) with (sources w) in Fs1.
  change (log W) with (CDebug :: log w) in L1.
  destruct Me1 as (En1 & _ & Ei1 & _).
  change (now W) with (now w) in En1.
  change (transitions_ini W) with (transitions_ini w) in Ei1.
  (* the fade-out ends *)
  destruct (timeline_completes_spec E fuel (next_timeline w) w1 I1 Hf)
    as (w2 & Hw2 & I2 & R2).
  specialize (R2 tl1 Htl1 Hrun1 Hfin1).
  unfold Ran in R2. cbv zeta in R2. rewrite Fp1, Md1, Mn1 in R2.
  cbn [direction_eqb] in R2.
  destruct R2 as [[Ap2 At2 _ As2 Ans2 Ant2 _ (la & La & Ina)]
                  [Md2 Mn2 Mw2 Me2 (l2 & L2 & P2 & Q2)]].
  rewrite Mn1 in Md2, Mn2. rewrite Mw1, Mn1 in Ina.
  cbn [is_goto_portrait direction_eqb] in Ina.
  assert (la = l2) by (apply (prefix_unique la l2 (log w1)); congruence).
  subst la. clear La.
  destruct Me2 as (En2 & _ & Ei2 & _).
  (* time passes *)
  pose (w3 := set_now (now w2 + Z.max 0 dt)%Z w2).
  assert (S3 : step E fuel (EvClock dt) w2 = Ok w3) by reflexivity.
  assert (I3 : Inv w3).
  { destruct (step_Inv E fuel (EvClock dt) w2 I2 Hf) as (w3' & H3 & I3).
    rewrite S3 in H3. injection H3 as <-. exact I3. }
  (* the timeout fires *)
  destruct (timeout_fires_spec E fuel (next_source w) w3 I3 Hf)
    as (w4 & Hw4 & I4 & T4).
  assert (Hdue : source_due (next_source w) w3 = true).
  { unfold source_due.
    change (sources w3) with (sources w2). change (now w3) with (now w2 + Z.max 0 dt)%Z.
    rewrite As2, Fns1. cbn [existsb fst snd]. rewrite Nat.eqb_refl.
    rewrite (damage_timeout_same_ini w w1 Ei1), En2.
    destruct (Z.leb_spec (now w1 + damage_timeout w * 1000)
                         (now w1 + Z.max 0 dt)); [reflexivity | lia]. }
  destruct (T4 Hdue) as (w' & R4 & E4). clear T4.
  unfold Ran in R4. cbv zeta in R4.
  change (Orientation_change w3) with (Orientation_change w2) in R4.
  rewrite Ap2, Md2, Mn2 in R4. cbn [direction_eqb] in R4.
  destruct R4 as [[Fp4 _ _ _ _ Fnt4 _ (tl4 & x4 & Htl4 & Hrun4 & _ & _ & Hfin4 & _)]
                  [Md4 Mn4 _ _ (l4 & L4 & P4 & Q4)]].
  change (Orientation_change w3) with (Orientation_change w2) in Md4, Mn4.
  rewrite Mn2 in Md4, Mn4.
  change (next_timeline w3) with (next_timeline w2) in Htl4.
  rewrite Ant2, Fnt1 in Htl4.
  change (log w3) with (log w2) in L4.
  (* the fade-in ends *)
  assert (Htl4' : timelines w4 (S (next_timeline w)) = Some tl4)
    by (rewrite E4; exact Htl4).
  destruct (timeline_completes_spec E fuel (S (next_timeline w)) w4 I4 Hf)
    as (w5 & Hw5 & I5 & R5).
  specialize (R5 tl4 Htl4' Hrun4 Hfin4).
  unfold Ran in R5. cbv zeta in R5.
  assert (Ho4 : Orientation_change w4 = Orientation_change w')
    by (rewrite E4; reflexivity).
  rewrite Ho4, Fp4, Md4, Mn4 in R5. cbn [direction_eqb] in R5.
  destruct R5 as [[Rp5 _ _ _ _ _ _] [Md5 _ _ _ (l5 & L5 & P5 & Q5)]].
  rewrite Ho4, Mn4 in Md5.
  assert (Hl4 : log w4 = log w') by (rewrite E4; reflexivity).
  assert (Hlog : log w5 = (l5 ++ l4 ++ l2 ++ l1 ++ [CDebug]) ++ log w).
  { rewrite L5, Hl4, L4, L2, L1. rewrite <- !app_assoc. reflexivity. }
  exists w1, w2, w3, w4, w5.
  split; [exact S1|]. split; [exact Hw2|]. split; [exact S3|].
  split; [exact Hw4|]. split; [exact Hw5|].
  split.
  { cbn [map]. change (Orientation_change w3) with (Orientation_change w2).
    rewrite Hp, Fp1, Ap2, Ho4, Fp4, Rp5. reflexivity. }
  split; [exact Md5|].
  rewrite (new_calls_app w w5 _ Hlog).
  split.
  { rewrite !fsm_entries_app, P1, P2, P4, P5. reflexivity. }
  split.
  { rewrite !screen_reconfigurations_app, Q1, Q2, Q4, Q5. reflexivity. }
  apply in_or_app. right. apply in_or_app. right. apply in_or_app. left.
  exact Ina.
Qed.

Lemma C3_rotation_to_portrait_runs_through_witness :
  exists w1 w2 w3 w4 w5,
    step default_env 2 (EvRotateScreen 0%nat true) demo = Ok w1
    /\ step default_env 2 (EvCompleted (next_timeline demo)) w1 = Ok w2
    /\ step default_env 2 (EvClock 50000%Z) w2 = Ok w3
    /\ step default_env 2 (EvTimeout (next_source demo)) w3 = Ok w4
    /\ step default_env 2 (EvCompleted (S (next_timeline demo))) w4 = Ok w5
    /\ map (fun x => phase (Orientation_change x)) [demo; w1; w2; w3; w4; w5]
       = [IDLE; FADE_OUT; WAITING; WAITING; FADE_IN; IDLE]
    /\ direction (Orientation_change w5) = GOTO_PORTRAIT
    /\ fsm_entries (new_calls demo w5)
       = [(IDLE, GOTO_PORTRAIT, direction (Orientation_change demo));
          (FADE_OUT, GOTO_PORTRAIT, GOTO_PORTRAIT);
          (WAITING, GOTO_PORTRAIT, GOTO_PORTRAIT);
          (FADE_IN, GOTO_PORTRAIT, GOTO_PORTRAIT)]
    /\ screen_reconfigurations (new_calls demo w5) = 1%nat
    /\ In (CChangeScreenOrientation 0%nat true) (new_calls demo w5).
Proof.
  apply (C3_rotation_to_portrait_runs_through default_env 2 0%nat 50000%Z demo).
  - apply reach_startup.
  - apply le_n.
  - reflexivity.
  - reflexivity.
  - change (damage_timeout demo) with (c_guint (IZR 50)).
    rewrite (c_guint_IZR 50) by lia. lia.
Defined.

(** ** The WAITING phase *)

Lemma elapsed_grows (tm : option Z) (t : Z) (w : World) :
  (now w <= t)%Z -> g_timer_elapsed tm w <= g_timer_elapsed tm (set_now t w).
Proof.
  intros H. destruct tm as [start|]; cbn [g_timer_elapsed]; [|lra].
  apply db_le. apply Rmult_le_compat_r; [lra|].
  apply IZR_le. cbn [now set_now]. lia.
Qed.

Lemma ignore_damage_at_ceiling (w : World) :
  phase (Orientation_change w) = WAITING ->
  damage_timeout_max w <= g_timer_elapsed (timer (Orientation_change w)) w ->
  hd_transition_rotate_ignore_damage w = (true, w).
Proof.
  intros Hp Hc. unfold hd_transition_rotate_ignore_damage.
  rewrite Hp. cbn [phase_eqb]. unfold Rltb.
  destruct (Rlt_dec _ _) as [Hl|Hl]; [lra | reflexivity].
Qed.

Lemma set_now_now (w : World) : set_now (now w) w = w.
Proof. destruct w. reflexivity. Qed.

(** At the ceiling, damage queries and the clock leave everything but the
    clock where it is. *)
Lemma damage_and_clock_at_ceiling (E : Env) (fuel : nat) (evs : list Event) :
  forall w,
  phase (Orientation_change w) = WAITING ->
  damage_timeout_max w <= g_timer_elapsed (timer (Orientation_change w)) w ->
  Forall (fun e => is_damage_or_clock e = true) evs ->
  exists t, (now w <= t)%Z /\ run E fuel evs w = Ok (set_now t w).
Proof.
  induction evs as [|e evs IH]; intros w Hp Hc Hall.
  - exists (now w). split; [lia|]. cbn [run]. now rewrite set_now_now.
  - inversion Hall as [|e' evs' He Hrest]; subst.
    destruct e; try discriminate He.
    + cbn [run step]. rewrite (ignore_damage_at_ceiling w Hp Hc).
      cbn [snd bind]. now apply IH.
    + cbn [run step bind].
      set (w' := set_now (now w + Z.max 0 dt)%Z w).
      assert (Hn : (now w <= now w + Z.max 0 dt)%Z) by lia.
      destruct (IH w') as (t & Ht & Hrun); [exact Hp | | exact Hrest |].
      * apply Rle_trans with (g_timer_elapsed (timer (Orientation_change w)) w);
          [exact Hc | apply (elapsed_grows _ _ w Hn)].
      * exists t. unfold w' in Ht, Hrun. cbn [now set_now] in Ht.
        split; [lia | exact Hrun].
Qed.

(** A request for portrait made in IDLE and landscape, then the end of the
    fade-out, leave the machine in WAITING with its timer started and its
    timeout pending. *)
Lemma rotation_reaches_waiting (E : Env) (fuel wm_ : nat) (w : World) :
  Reachable E w -> (2 <= fuel)%nat ->
  phase (Orientation_change w) = IDLE -> is_portrait w = false ->
  exists w2,
    run E fuel [EvRotateScreen wm_ true; EvCompleted (next_timeline w)] w = Ok w2
    /\ phase (Orientation_change w2) = WAITING
    /\ direction (Orientation_change w2) = GOTO_PORTRAIT
    /\ new_direction (Orientation_change w2) = GOTO_PORTRAIT
    /\ timeout_id (Orientation_change w2) = next_source w
    /\ timer (Orientation_change w2) = Some (now w)
    /\ sources w2 = (next_source w, (now w + damage_timeout w * 1000)%Z) :: sources w
    /\ now w2 = now w
    /\ transitions_ini w2 = transitions_ini w.
Proof.
  intros Hr Hf Hp Hl. pose proof (Reachable_Inv E w Hr) as I.
  pose (W := on_oc (with_new_direction GOTO_PORTRAIT)
               (on_oc (with_wm wm_) (emit CDebug w))).
  assert (IW : Inv W).
  { eapply Inv_Similar; [exact I|].
    apply (Similar_same w W [CDebug]); try reflexivity; repeat split. }
  destruct (fsm_spec E fuel W IW Hf) as (w1 & Hw1 & I1 & R1).
  assert (S1 : step E fuel (EvRotateScreen wm_ true) w = Ok w1).
  { cbn [step]. rewrite rotate_screen_unfold. cbv zeta. rewrite Hp, Hl.
    cbn [phase_eqb Bool.eqb]. fold W. rewrite Hw1. reflexivity. }
  unfold Ran in R1. cbv zeta in R1.
  assert (HpW : phase (Orientation_change W) = IDLE) by exact Hp.
  rewrite HpW in R1. clear HpW.
  destruct R1 as [[Fp1 _ _ Fs1 Fns1 Fnt1 _ (tl1 & x1 & Htl1 & Hrun1 & _ & _ & Hfin1 & _)]
                  [Md1 Mn1 _ Me1 _]].
  change (new_direction (Orientation_change W)) with GOTO_PORTRAIT in Md1, Mn1.
  change (next_timeline W) with (next_timeline w) in Htl1.
  change (next_source W) with (next_source w) in Fns1.
  change (sources W) with (sources w) in Fs1.
  destruct Me1 as (En1 & _ & Ei1 & _).
  change (now W) with (now w) in En1.
  change (transitions_ini W) with (transitions_ini w) in Ei1.
  destruct (timeline_completes_spec E fuel (next_timeline w) w1 I1 Hf)
    as (w2 & Hw2 & I2 & R2).
  specialize (R2 tl1 Htl1 Hrun1 Hfin1).
  unfold Ran in R2. cbv zeta in R2. rewrite Fp1, Md1, Mn1 in R2.
  cbn [direction_eqb] in R2.
  destruct R2 as [[Ap2 At2 Atm2 As2 _ _ _ _] [Md2 Mn2 _ Me2 _]].
  rewrite Mn1 in Md2, Mn2.
  destruct Me2 as (En2 & _ & Ei2 & _).
  exists w2. split.
  { cbn [run]. rewrite S1. cbn [bind]. cbn [step] in Hw2 |- *. rewrite Hw2.
    reflexivity. }
  split; [exact Ap2|]. split; [exact Md2|]. split; [exact Mn2|].
  split; [now rewrite At2, Fns1|]. split; [now rewrite Atm2, En1|].
  split.
  { rewrite As2, Fns1, Fs1, En1, (damage_timeout_same_ini w w1 Ei1).
    reflexivity. }
  split; [now rewrite En2, En1 | now rewrite Ei2, Ei1].
Qed.

(** *** The concrete desktops in WAITING *)

Lemma demo_damage_timeout : damage_timeout demo = 50%Z.
Proof.
  change (damage_timeout demo) with (c_guint (IZR 50)).
  apply c_guint_IZR. lia.
Qed.

Lemma demo_reachable : Reachable default_env demo.
Proof. unfold demo. apply reach_startup. Qed.

Lemma demo_waits_spec :
  Reachable default_env demo_waits
  /\ phase (Orientation_change demo_waits) = WAITING
  /\ direction (Orientation_change demo_waits) = GOTO_PORTRAIT
  /\ new_direction (Orientation_change demo_waits) = GOTO_PORTRAIT
  /\ timeout_id (Orientation_change demo_waits) = 1%nat
  /\ timer (Orientation_change demo_waits) = Some 0%Z
  /\ sources demo_waits = [(1%nat, 50000%Z)]
  /\ now demo_waits = 0%Z
  /\ transitions_ini demo_waits = None.
Proof.
  assert (Hr : Reachable default_env demo_waits).
  { apply Reachable_run; [apply demo_reachable | apply le_n | apply demo_reachable]. }
  split; [exact Hr|].
  destruct (rotation_reaches_waiting default_env 2 0%nat demo demo_reachable
              (le_n 2) eq_refl eq_refl)
    as (w2 & Hrun & H1 & H2 & H3 & H4 & H5 & H6 & H7 & H8).
  change (next_timeline demo) with 0%nat in Hrun.
  unfold demo_waits. rewrite Hrun. cbn [after].
  rewrite demo_damage_timeout in H6.
  repeat split; assumption.
Qed.

Lemma demo_waited_eq : demo_waited = set_now 2000000%Z demo_waits.
Proof.
  destruct demo_waits_spec as (_ & _ & _ & _ & _ & _ & _ & Hn & _).
  unfold demo_waited. cbn [run step bind after]. rewrite Hn. reflexivity.
Qed.

Lemma demo_turned_eq :
  demo_turned
  = set_now 2000000%Z
      (emit CDebug (on_oc (with_new_direction GOTO_LANDSCAPE)
                      (on_oc (with_wm 0%nat) (emit CDebug demo_waits)))).
Proof.
  destruct demo_waits_spec as (_ & Hp & _ & _ & _ & _ & _ & Hn & _).
  unfold demo_turned. cbn [run step]. rewrite rotate_screen_unfold. cbv zeta.
  rewrite Hp. cbn [phase_eqb bind snd step after]. 
  cbn [now emit on_oc set_oc set_log]. rewrite Hn. reflexivity.
Qed.

Lemma two_seconds : db (IZR (2000000 - 0) / 1000000) = 2.
Proof.
  replace (IZR (2000000 - 0) / 1000000) with (IZR 2) by (simpl; lra).
  apply db_IZR. lia.
Qed.

Lemma one_second : db (1000 / 1000) = 1.
Proof.
  replace (1000 / 1000) with (IZR 1) by lra. apply db_IZR. lia.
Qed.

Lemma no_time : db (IZR (0 - 0) / 1000000) = 0.
Proof.
  replace (IZR (0 - 0) / 1000000) with 0 by (simpl; lra). apply db_0.
Qed.

Lemma demo_waits_below_ceiling :
  g_timer_elapsed (timer (Orientation_change demo_waits)) demo_waits
  < damage_timeout_max demo_waits.
Proof.
  destruct demo_waits_spec as (_ & _ & _ & _ & _ & Ht & _ & Hn & Hi).
  unfold damage_timeout_max, hd_transition_get_double, hd_transition_get_keyfile.
  rewrite Ht, Hi. cbn [g_timer_elapsed]. rewrite Hn, no_time, one_second. lra.
Qed.

(** Two seconds into a WAITING that started at time 0 with the timeout 1
    due after 50 ms and a ceiling of one second. *)
Lemma two_seconds_into_waiting (W : World) :
  phase (Orientation_change W) = WAITING ->
  timeout_id (Orientation_change W) = 1%nat ->
  timer (Orientation_change W) = Some 0%Z ->
  sources W = [(1%nat, 50000%Z)] ->
  transitions_ini W = None ->
  phase (Orientation_change (set_now 2000000%Z W)) = WAITING
  /\ direction (Orientation_change (set_now 2000000%Z W))
     = direction (Orientation_change W)
  /\ new_direction (Orientation_change (set_now 2000000%Z W))
     = new_direction (Orientation_change W)
  /\ timeout_id (Orientation_change (set_now 2000000%Z W)) = 1%nat
  /\ damage_timeout_max (set_now 2000000%Z W)
     <= g_timer_elapsed (timer (Orientation_change (set_now 2000000%Z W)))
                        (set_now 2000000%Z W)
  /\ source_due 1%nat (set_now 2000000%Z W) = true.
Proof.
  intros Hp Hid Ht Hs Hi.
  split; [exact Hp|]. split; [reflexivity|]. split; [reflexivity|].
  split; [exact Hid|]. split.
  - unfold damage_timeout_max, hd_transition_get_double,
      hd_transition_get_keyfile.
    cbn [Orientation_change transitions_ini set_now]. rewrite Ht, Hi.
    cbn [g_timer_elapsed now set_now].
    rewrite two_seconds, one_second. lra.
  - unfold source_due. cbn [sources now set_now]. rewrite Hs. reflexivity.
Qed.

(** A request for landscape recorded while the machine is not in IDLE. *)
Lemma landscape_request_recorded (W : World) :
  let W' := emit CDebug (on_oc (with_new_direction GOTO_LANDSCAPE)
                           (on_oc (with_wm 0%nat) (emit CDebug W))) in
  phase (Orientation_change W') = phase (Orientation_change W)
  /\ direction (Orientation_change W') = direction (Orientation_change W)
  /\ new_direction (Orientation_change W') = GOTO_LANDSCAPE
  /\ timeout_id (Orientation_change W') = timeout_id (Orientation_change W)
  /\ timer (Orientation_change W') = timer (Orientation_change W)
  /\ sources W' = sources W
  /\ transitions_ini W' = transitions_ini W.
Proof. repeat split. Qed.

Lemma demo_waited_spec :
  Reachable default_env demo_waited
  /\ phase (Orientation_change demo_waited) = WAITING
  /\ direction (Orientation_change demo_waited) = GOTO_PORTRAIT
  /\ new_direction (Orientation_change demo_waited) = GOTO_PORTRAIT
  /\ timeout_id (Orientation_change demo_waited) = 1%nat
  /\ damage_timeout_max demo_waited
     <= g_timer_elapsed (timer (Orientation_change demo_waited)) demo_waited
  /\ source_due 1%nat demo_waited = true.
Proof.
  destruct demo_waits_spec as (Hr & Hp & Hd & Hnd & Hid & Ht & Hs & Hn & Hi).
  split.
  { apply Reachable_run; [exact Hr | apply le_n | exact Hr]. }
  rewrite demo_waited_eq.
  destruct (two_seconds_into_waiting demo_waits Hp Hid Ht Hs Hi)
    as (H1 & H2 & H3 & H4 & H5 & H6).
  rewrite Hd in H2. rewrite Hnd in H3.
  repeat split; assumption.
Qed.

Lemma demo_turned_spec :
  Reachable default_env demo_turned
  /\ phase (Orientation_change demo_turned) = WAITING
  /\ direction (Orientation_change demo_turned) = GOTO_PORTRAIT
  /\ new_direction (Orientation_change demo_turned) = GOTO_LANDSCAPE
  /\ timeout_id (Orientation_change demo_turned) = 1%nat
  /\ damage_timeout_max demo_turned
     <= g_timer_elapsed (timer (Orientation_change demo_turned)) demo_turned
  /\ source_due 1%nat demo_turned = true.
Proof.
  destruct demo_waits_spec as (Hr & Hp & Hd & Hnd & Hid & Ht & Hs & Hn & Hi).
  split.
  { apply Reachable_run; [exact Hr | apply le_n | exact Hr]. }
  rewrite demo_turned_eq.
  destruct (landscape_request_recorded demo_waits)
    as (G1 & G2 & G3 & G4 & G5 & G6 & G7).
  rewrite Hp in G1. rewrite Hd in G2. rewrite Hid in G4. rewrite Ht in G5.
  rewrite Hs in G6. rewrite Hi in G7.
  destruct (two_seconds_into_waiting _ G1 G4 G5 G6 G7)
    as (H1 & H2 & H3 & H4 & H5 & H6).
  rewrite G2 in H2. rewrite G3 in H3.
  repeat split; assumption.
Qed.

Lemma source_due_later (id : source_id) (w w1 : World) :
  sources w1 = sources w -> (now w <= now w1)%Z ->
  source_due id w = true -> source_due id w1 = true.
Proof.
  intros Hs Hn. unfold source_due. rewrite Hs. clear Hs.
  induction (sources w) as [|s l IH]; cbn [existsb]; [discriminate|].
  intros H. apply orb_true_iff in H. apply orb_true_iff.
  destruct H as [H|H]; [left | right; now apply IH].
  apply andb_true_iff in H. destruct H as [H1 H2].
  apply andb_true_iff. split; [exact H1|].
  apply Z.leb_le in H2. apply Z.leb_le. lia.
Qed.

(** C4, as the spec words it, fails when another rotation has been asked
    for while the machine waits: two seconds into WAITING, past the
    ceiling of one second, with the timeout due, the firing timeout finds
    [direction] different from [new_direction] and the machine is in
    WAITING again when the callback returns. *)
Lemma C4_timer_fire_reenters_waiting :
  Reachable default_env demo_turned
  /\ phase (Orientation_change demo_turned) = WAITING
  /\ damage_timeout_max demo_turned
     <= g_timer_elapsed (timer (Orientation_change demo_turned)) demo_turned
  /\ source_due 1%nat demo_turned = true
  /\ exists w2,
       step default_env 2 (EvTimeout 1%nat) demo_turned = Ok w2
       /\ phase (Orientation_change w2) = WAITING.
Proof.
  destruct demo_turned_spec as (Hr & Hp & Hd & Hnd & Hid & Hc & Hdue).
  split; [exact Hr|]. split; [exact Hp|]. split; [exact Hc|].
  split; [exact Hdue|].
  destruct (timeout_fires_spec default_env 2 1%nat demo_turned
              (Reachable_Inv default_env demo_turned Hr) (le_n 2))
    as (w2 & Hw2 & _ & T).
  destruct (T Hdue) as (w' & R & E2).
  exists w2. split; [exact Hw2|].
  unfold Ran in R. cbv zeta in R. rewrite Hp, Hd, Hnd in R.
  cbn [direction_eqb] in R. destruct R as [[Ap _ _ _ _ _ _ _] _].
  rewrite E2. exact Ap.
Qed.

(** C4 (amended): in WAITING a damage query re-arms the debounce timeout
    exactly while the time since WAITING was entered is below
    damage_timeout_max, and leaves the ceiling's own timer alone.  From
    the ceiling on a query changes nothing, and no run of queries and
    clock ticks touches the machine or the pending timeouts, so the
    pending timeout comes due and fires.  The firing timeout runs the
    machine from WAITING: to FADE_IN when [direction] is [new_direction];
    when another rotation was asked for meanwhile, through FADE_OUT into
    a new WAITING with a new timer and one more screen reconfiguration. *)
Theorem C4_ceiling_ends_the_resets (E : Env) (fuel : nat) (w : World)
    (evs : list Event) :
  Reachable E w -> (2 <= fuel)%nat ->
  phase (Orientation_change w) = WAITING ->
  let oc := Orientation_change w in
  (g_timer_elapsed (timer oc) w < damage_timeout_max w ->
   exists w',
     hd_transition_rotate_ignore_damage w = (true, w')
     /\ sources w'
        = (next_source w, (now w + damage_timeout w * 1000)%Z)
          :: (if Nat.eqb (timeout_id oc) 0 then sources w
              else filter (fun s => negb (Nat.eqb (fst s) (timeout_id oc)))
                          (sources w))
     /\ Orientation_change w' = with_timeout_id (next_source w) oc)
  /\ (damage_timeout_max w <= g_timer_elapsed (timer oc) w ->
      Forall (fun e => is_damage_or_clock e = true) evs ->
      hd_transition_rotate_ignore_damage w = (true, w)
      /\ exists w1,
           run E fuel evs w = Ok w1
           /\ Orientation_change w1 = oc /\ sources w1 = sources w
           /\ (now w <= now w1)%Z
           /\ damage_timeout_max w1 <= g_timer_elapsed (timer oc) w1
           /\ (source_due (timeout_id oc) w1 = true ->
               exists w2,
                 step E fuel (EvTimeout (timeout_id oc)) w1 = Ok w2
                 /\ (direction oc = new_direction oc ->
                     phase (Orientation_change w2) = FADE_IN
                     /\ fsm_entries (new_calls w1 w2)
                        = [(WAITING, new_direction oc, direction oc)])
                 /\ (direction oc <> new_direction oc ->
                     phase (Orientation_change w2) = WAITING
                     /\ timer (Orientation_change w2) = Some (now w1)
                     /\ fsm_entries (new_calls w1 w2)
                        = [(WAITING, new_direction oc, direction oc);
                           (FADE_OUT, new_direction oc, new_direction oc)]
                     /\ screen_reconfigurations (new_calls w1 w2) = 1%nat))).
Proof.
  intros Hr Hf Hp oc. split.
  - intros Hb. unfold hd_transition_rotate_ignore_damage. fold oc.
    unfold oc at 1. rewrite Hp. cbn [phase_eqb]. unfold Rltb.
    destruct (Rlt_dec _ _) as [_|Hn]; [|contradiction].
    destruct (Nat.eqb (timeout_id oc) 0); cbn [negb];
      (eexists; split; [reflexivity|]; split; reflexivity).
  - intros Hc Hall. split; [now apply ignore_damage_at_ceiling|].
    destruct (damage_and_clock_at_ceiling E fuel evs w Hp Hc Hall)
      as (t & Ht & Hrun).
    exists (set_now t w). split; [exact Hrun|].
    split; [reflexivity|]. split; [reflexivity|].
    split; [exact Ht|]. split.
    { apply Rle_trans with (g_timer_elapsed (timer oc) w);
        [exact Hc | apply (elapsed_grows _ _ w Ht)]. }
    intros Hdue.
    assert (Hr1 : Reachable E (set_now t w)).
    { pose proof (Reachable_run E fuel evs w Hr Hf w Hr) as H.
      rewrite Hrun in H. exact H. }
    destruct (timeout_fires_spec E fuel (timeout_id oc) (set_now t w)
                (Reachable_Inv E _ Hr1) Hf) as (w2 & Hw2 & _ & T).
    destruct (T Hdue) as (w' & R & E2).
    exists w2. split; [exact Hw2|].
    unfold Ran in R. cbv zeta in R.
    change (Orientation_change (set_now t w)) with oc in R.
    unfold oc in R at 1. rewrite Hp in R.
    assert (Hl2 : log w2 = log w') by (rewrite E2; reflexivity).
    assert (Hp2 : Orientation_change w2 = Orientation_change w')
      by (rewrite E2; reflexivity).
    destruct (direction_eqb (direction oc) (new_direction oc)) eqn:Hd.
    + destruct R as [[Fp _ _ _ _ _ _ _] [_ _ _ _ (l & L & P & _)]].
      split.
      * intros _. rewrite Hp2. split; [exact Fp|].
        rewrite <- Hl2 in L. rewrite (new_calls_app _ _ _ L). exact P.
      * intros Hne. destruct Hne. now apply direction_eqb_eq.
    + destruct R as [[Ap _ Atm _ _ _ _ _] [_ _ _ _ (l & L & P & Q)]].
      split.
      * intros He. rewrite He, direction_eqb_refl in Hd. discriminate.
      * intros _. rewrite Hp2. split; [exact Ap|]. split; [exact Atm|].
        rewrite <- Hl2 in L. rewrite (new_calls_app _ _ _ L).
        split; [exact P | exact Q].
Qed.

Lemma C4_ceiling_ends_the_resets_witness :
  (exists w',
     hd_transition_rotate_ignore_damage demo_waits = (true, w')
     /\ Orientation_change w'
        = with_timeout_id (next_source demo_waits)
                          (Orientation_change demo_waits))
  /\ hd_transition_rotate_ignore_damage demo_waited = (true, demo_waited)
  /\ exists w1 w2,
       run default_env 2 [EvIgnoreDamage; EvClock 10%Z; EvIgnoreDamage]
           demo_waited = Ok w1
       /\ step default_env 2 (EvTimeout 1%nat) w1 = Ok w2
       /\ phase (Orientation_change w2) = FADE_IN.
Proof.
  destruct demo_waits_spec as (Hr & Hp & _).
  destruct demo_waited_spec as (Hr' & Hp' & Hd' & Hnd' & Hid' & Hc' & Hdue').
  pose proof (C4_ceiling_ends_the_resets default_env 2 demo_waits []
                Hr (le_n 2) Hp) as H.
  cbv zeta in H. destruct H as [A _].
  destruct (A demo_waits_below_ceiling) as (w' & E1 & _ & O1).
  pose proof (C4_ceiling_ends_the_resets default_env 2 demo_waited
                [EvIgnoreDamage; EvClock 10%Z; EvIgnoreDamage]
                Hr' (le_n 2) Hp') as H.
  cbv zeta in H. destruct H as [_ B].
  assert (Hall : Forall (fun e => is_damage_or_clock e = true)
                        [EvIgnoreDamage; EvClock 10%Z; EvIgnoreDamage])
    by (repeat constructor).
  destruct (B Hc' Hall) as (Hq & w1 & Hrun & _ & Hs & Hn & _ & F).
  rewrite Hid' in F.
  destruct (F (source_due_later 1%nat demo_waited w1 Hs Hn Hdue'))
    as (w2 & Hst & Heq & _).
  rewrite Hd', Hnd' in Heq. destruct (Heq eq_refl) as [Hph _].
  split; [exists w'; split; [exact E1 | exact O1]|].
  split; [exact Hq|].
  exists w1, w2. split; [exact Hrun|]. split; [exact Hst | exact Hph].
Defined.

(** * Further properties *)

Lemma opt_eqb_same (c : nat) : opt_eqb (Some c) (Some c) = true.
Proof. apply Nat.eqb_refl. Qed.

Lemma demo_sliding_spec :
  Reachable default_env demo_sliding
  /\ timelines demo_sliding 0%nat
     = Some (mkTimeline 15 0 true 2 (Some (OnSubview, 0%nat)) (Some 0%nat) false)
  /\ effects demo_sliding 0%nat
     = Some (mkData MBWMCompMgrClientEventMap (Some 0%nat) (Some 1%nat)
               (Some 11%nat) (Some 0%nat) (Some 10%nat) (Some 0%nat)
               (mkGeo 0 0 0 0) 0 (repeat None 8))
  /\ effect (clients demo_sliding 1%nat) = Some 0%nat
  /\ effect (clients demo_sliding 0%nat) = Some 0%nat.
Proof.
  destruct (subview_new_result default_env 0%nat 1%nat 0%nat
              MBWMCompMgrClientEventMap demo)
    as (w1 & Hw1 & H1 & H2 & H3 & H4); try reflexivity; try discriminate.
  assert (Hd : demo_sliding = w1).
  { unfold demo_sliding. unfold client_id in Hw1. rewrite Hw1. reflexivity. }
  rewrite Hd. split.
  { apply (reach_step default_env demo 2
             (EvSubview 0%nat (Some 1%nat) (Some 0%nat) MBWMCompMgrClientEventMap) w1).
    - apply demo_reachable.
    - apply le_n.
    - exact Hw1. }
  split; [exact H1|]. split; [exact H2|]. split; [exact H3 | exact H4].
Qed.

(** X1: [hd_transition_completed] on a live record frees it and no other,
    clears the effect pointer of the clients it names, disconnects it from
    the stage, leaves the rotation machine alone, and changes the look of
    no actor (parents and reference counts apart). *)
Theorem X1_teardown_frees_the_record (E : Env) (tl : option timeline_id)
    (d : data_id) (w : World) (x : HDEffectData) :
  effects w d = Some x -> (forall t, tl = Some t -> timelines w t <> None) ->
  exists w',
    hd_transition_completed E tl d w = Ok w'
    /\ effects w' d = None
    /\ (forall d', d' <> d -> effects w' d' = effects w d')
    /\ (forall c, cclient x = Some c \/ cclient2 x = Some c ->
                  effect (clients w' c) = None)
    /\ ~ In d (stage_handlers w')
    /\ Orientation_change w' = Orientation_change w
    /\ teardowns (new_calls w w') = [d]
    /\ (forall a, same_looks (actors w a) (actors w' a)).
Proof.
  intros Hx Htl.
  destruct (completed_spec E tl d w x Hx Htl) as (w' & Hw' & T).
  exists w'. split; [exact Hw'|].
  destruct T as [_ _ T3 T4 _ T6 T7 _ _ _ _ (l & L & L1 & _)].
  split. { rewrite T3, Nat.eqb_refl. reflexivity. }
  split. { intros d' Hd. rewrite T3. apply Nat.eqb_neq in Hd. now rewrite Hd. }
  split.
  { intros c [Hc|Hc]; rewrite T4, Hc, opt_eqb_same; [reflexivity|].
    now rewrite orb_true_r. }
  split.
  { rewrite T7. intros Hin. apply filter_In in Hin. destruct Hin as [_ Hb].
    rewrite Nat.eqb_refl in Hb. discriminate. }
  split; [exact T6|].
  split; [now rewrite (new_calls_app _ _ _ L)|].
  exact (completed_keeps_looks E tl d w w' Hw').
Qed.

Lemma X1_teardown_frees_the_record_witness :
  exists w',
    hd_transition_completed default_env (Some 0%nat) 0%nat demo_sliding = Ok w'
    /\ effects w' 0%nat = None
    /\ (forall d', d' <> 0%nat -> effects w' d' = effects demo_sliding d')
    /\ effect (clients w' 1%nat) = None
    /\ effect (clients w' 0%nat) = None
    /\ ~ In 0%nat (stage_handlers w')
    /\ Orientation_change w' = Orientation_change demo_sliding
    /\ teardowns (new_calls demo_sliding w') = [0%nat]
    /\ (forall a, same_looks (actors demo_sliding a) (actors w' a)).
Proof.
  destruct demo_sliding_spec as (_ & Htl & Hx & _).
  destruct (X1_teardown_frees_the_record default_env (Some 0%nat) 0%nat
              demo_sliding _ Hx)
    as (w' & H1 & H2 & H3 & H4 & H5 & H6 & H7 & H8).
  { intros t [= <-]. rewrite Htl. discriminate. }
  exists w'. split; [exact H1|]. split; [exact H2|]. split; [exact H3|].
  split; [apply H4; left; reflexivity|].
  split; [apply H4; right; reflexivity|].
  split; [exact H5|]. split; [exact H6|]. split; [exact H7 | exact H8].
Defined.

(** X2: [hd_transition_stop] on a client whose effect pointer is not set
    does nothing. *)
Theorem X2_stop_without_effect_does_nothing (E : Env) (mgr : nat)
    (c : client_id) (w : World) :
  effect (clients w c) = None -> hd_transition_stop E mgr c w = Ok w.
Proof.
  intros H. unfold hd_transition_stop. rewrite H. reflexivity.
Qed.

Lemma X2_stop_without_effect_does_nothing_witness :
  effect (clients demo 0%nat) = None
  /\ hd_transition_stop default_env 0%nat 0%nat demo = Ok demo.
Proof.
  split; [reflexivity|].
  apply (X2_stop_without_effect_does_nothing default_env 0%nat 0%nat demo).
  reflexivity.
Defined.

(** X3: [hd_transition_popup] on a client that has no actor returns at
    once: no record, no timeline, no call. *)
Theorem X3_popup_needs_an_actor (E : Env) (mgr : nat) (c : client_id)
    (ev : MBWMCompMgrClientEvent) (w : World) :
  c_actor (clients w c) = None -> hd_transition_popup E mgr c ev w = Ok w.
Proof.
  intros H. unfold hd_transition_popup. cbv zeta. rewrite H. reflexivity.
Qed.

Lemma X3_popup_needs_an_actor_witness :
  c_actor (clients demo_bare 0%nat) = None
  /\ hd_transition_popup default_env 0%nat 0%nat MBWMCompMgrClientEventMap
       demo_bare = Ok demo_bare.
Proof.
  split; [reflexivity|].
  apply (X3_popup_needs_an_actor default_env 0%nat 0%nat
           MBWMCompMgrClientEventMap demo_bare).
  reflexivity.
Defined.

(** X4: outside the WAITING phase [hd_transition_rotate_ignore_damage]
    answers [FALSE] and touches nothing: no timeout is added or
    removed. *)
Theorem X4_damage_counts_outside_waiting (w : World) :
  phase (Orientation_change w) <> WAITING ->
  hd_transition_rotate_ignore_damage w = (false, w).
Proof.
  intros H. unfold hd_transition_rotate_ignore_damage.
  destruct (phase (Orientation_change w)); try reflexivity. now destruct H.
Qed.

Lemma X4_damage_counts_outside_waiting_witness :
  phase (Orientation_change demo) <> WAITING
  /\ hd_transition_rotate_ignore_damage demo = (false, demo).
Proof.
  assert (H : phase (Orientation_change demo) <> WAITING) by discriminate.
  split; [exact H|]. exact (X4_damage_counts_outside_waiting demo H).
Defined.

(** X5: a rotation request made while the machine is not idle is answered
    with [TRUE] and only recorded: [wm] and [new_direction] hold it, the
    machine is not entered, and nothing else of the singleton, no record,
    no timeline and no timeout changes. *)
Theorem X5_request_during_rotation_is_recorded (E : Env) (fuel wm_ : nat)
    (gp : bool) (w : World) :
  phase (Orientation_change w) <> IDLE ->
  exists w',
    hd_transition_rotate_screen E fuel wm_ gp w = Ok (true, w')
    /\ Orientation_change w'
       = with_new_direction (if gp then GOTO_PORTRAIT else GOTO_LANDSCAPE)
           (with_wm wm_ (Orientation_change w))
    /\ fsm_entries (new_calls w w') = []
    /\ effects w' = effects w /\ timelines w' = timelines w
    /\ sources w' = sources w /\ clients w' = clients w
    /\ actors w' = actors w.
Proof.
  intros H. rewrite rotate_screen_unfold. cbv zeta.
  destruct (phase (Orientation_change w)) eqn:Hp; try now destruct H.
  all: cbn [phase_eqb]; eexists; split; [reflexivity|];
    split; [reflexivity|];
    split; [rewrite (new_calls_app w _ [CDebug; CDebug]); reflexivity|];
    repeat split.
Qed.

Lemma X5_request_during_rotation_is_recorded_witness :
  exists w',
    hd_transition_rotate_screen default_env 2 0%nat false demo_waits
    = Ok (true, w')
    /\ Orientation_change w'
       = with_new_direction GOTO_LANDSCAPE
           (with_wm 0%nat (Orientation_change demo_waits))
    /\ fsm_entries (new_calls demo_waits w') = []
    /\ effects w' = effects demo_waits /\ timelines w' = timelines demo_waits
    /\ sources w' = sources demo_waits /\ clients w' = clients demo_waits
    /\ actors w' = actors demo_waits.
Proof.
  destruct demo_waits_spec as (_ & Hp & _).
  apply (X5_request_during_rotation_is_recorded default_env 2 0%nat false
           demo_waits).
  rewrite Hp. discriminate.
Defined.

(** X6: [hd_transition_close_app_before_rotate], its guards passed, starts
    no timeline: the new record has none and is queued at the end of
    [effects_waiting], to be torn down by the machine in FADE_OUT. *)
Theorem X6_close_before_rotate_defers (E : Env) (mgr : nat) (c : client_id)
    (w : World) (actor : actor_id) :
  c_type_is_app (clients w c) = true ->
  (rm_state w =? HDRM_STATE_TASK_NAV E)%Z = false ->
  c_actor (clients w c) = Some actor ->
  a_visible (actors w actor) = true ->
  exists w' x,
    hd_transition_close_app_before_rotate E mgr c w = Ok w'
    /\ effects w' (next_data w) = Some x
    /\ cclient x = Some c /\ timeline x = None
    /\ effects_waiting (Orientation_change w')
       = effects_waiting (Orientation_change w) ++ [next_data w]
    /\ next_timeline w' = next_timeline w
    /\ (forall t, timelines w' t = timelines w t)
    /\ (forall c', effect (clients w' c') = effect (clients w c')).
Proof.
  intros H1 H2 H3 H4.
  destruct (close_app_before_rotate_spec E mgr c w actor H1 H2 H3 H4)
    as (w' & Hw' & x & D & Hc & _).
  exists w', x. split; [exact Hw'|].
  destruct D as [_ D2 D3 D4 D5 D6 D7 _ _ _ _ _ _].
  split. { rewrite D3, Nat.eqb_refl. reflexivity. }
  split; [exact Hc|]. split; [exact D4|].
  split. { rewrite D7. reflexivity. }
  split; [exact D2|]. split; [exact D5 | exact D6].
Qed.

Lemma X6_close_before_rotate_defers_witness :
  exists w' x,
    hd_transition_close_app_before_rotate default_env 0%nat 0%nat demo = Ok w'
    /\ effects w' (next_data demo) = Some x
    /\ cclient x = Some 0%nat /\ timeline x = None
    /\ effects_waiting (Orientation_change w')
       = effects_waiting (Orientation_change demo) ++ [next_data demo]
    /\ next_timeline w' = next_timeline demo
    /\ (forall t, timelines w' t = timelines demo t)
    /\ (forall c', effect (clients w' c') = effect (clients demo c')).
Proof.
  apply (X6_close_before_rotate_defers default_env 0%nat 0%nat demo 10%nat);
    reflexivity.
Defined.

(** X7: in every world the process can reach, the effect pointer of a
    client leads to a live record that names the client and owns a
    timeline that exists and calls back with that record: no pointer
    dangles. *)
Theorem X7_effect_pointers_are_live (E : Env) (w : World) :
  Reachable E w ->
  forall c d, effect (clients w c) = Some d ->
  exists x t tl h,
    effects w d = Some x
    /\ (cclient x = Some c \/ cclient2 x = Some c)
    /\ timeline x = Some t
    /\ timelines w t = Some tl
    /\ tl_new_frame tl = Some (h, d) /\ tl_completed tl = Some d.
Proof.
  intros Hr c d He. pose proof (Reachable_Inv E w Hr) as I.
  destruct (inv_effect _ I c d He) as (x & t & Hx & Ht & Hc).
  destruct (inv_own _ I d x t Hx Ht) as (tl & h & Htl & Hh & Hcb).
  exists x, t, tl, h. repeat split; assumption.
Qed.

Lemma X7_effect_pointers_are_live_witness :
  effect (clients demo_sliding 1%nat) = Some 0%nat
  /\ exists x t tl h,
       effects demo_sliding 0%nat = Some x
       /\ (cclient x = Some 1%nat \/ cclient2 x = Some 1%nat)
       /\ timeline x = Some t
       /\ timelines demo_sliding t = Some tl
       /\ tl_new_frame tl = Some (h, 0%nat) /\ tl_completed tl = Some 0%nat.
Proof.
  destruct demo_sliding_spec as (Hr & _ & _ & H1 & _).
  split; [exact H1|].
  exact (X7_effect_pointers_are_live default_env demo_sliding Hr 1%nat 0%nat H1).
Defined.

(** X8: [hd_transition_fade_and_rotate] applies frame 0 through
    [on_rotate_screen_timeline_new_frame] and then starts its timeline;
    the timeline calls the machine back at its end exactly when a
    callback was given.  (The trace is newest first.) *)
Theorem X8_rotation_fade_applies_frame_zero (E : Env)
    (first_part goto_portrait cb : bool) (w : World) :
  exists w' tl,
    hd_transition_fade_and_rotate E first_part goto_portrait cb w = Ok w'
    /\ new_calls w w' = [CTimelineStart (next_timeline w);
                         CNewFrame OnRotateScreen (next_data w) 0]
    /\ timelines w' (next_timeline w) = Some tl
    /\ tl_running tl = true
    /\ tl_new_frame tl = Some (OnRotateScreen, next_data w)
    /\ tl_completed tl = Some (next_data w)
    /\ tl_finished_fsm tl = cb.
Proof.
  destruct (fade_and_rotate_started E first_part goto_portrait cb w)
    as (w' & Hw' & x & St & _ & _ & _ & _ & _ & _ & Hlog).
  destruct St as [_ _ _ _ _ (tl & T1 & T2 & T3 & T4 & T5) _ _ _ _ _ _].
  exists w', tl. split; [exact Hw'|].
  split; [now apply new_calls_app|]. auto.
Qed.
